(** * Tic-tac-toe (Angular): the game board component and its minimax search

    Shallow embedding of [src/app/game-board/game-board.component.ts].

    The component keeps the board in [grid : string[][]] and mutates it in
    place, also during the search (place a mark, recurse, undo).  The
    embedding therefore threads the board (and, one level up, the whole
    component) through a small state-and-exception monad.  A failed property
    access on [undefined] is the JavaScript [TypeError]; the recursion of
    [minimax] is bounded by a fuel argument, and running out of it is an
    outcome of its own. *)

From Stdlib Require Import ZArith List String Ascii Bool Lia.
Import ListNotations.

Open Scope string_scope.
Open Scope list_scope.
Open Scope Z_scope.

(** ** JavaScript values of the program *)

(** Result of reading an array element: a string, or [undefined] ([None]). *)
Definition jsval := option string.

(** [v === s] for a string literal [s]. *)
Definition strict_eq (v : jsval) (s : string) : bool :=
  match v with
  | Some t => String.eqb t s
  | None => false
  end.

(** [!v]: [undefined] and the empty string are falsy, every other string is
    truthy. *)
Definition js_not (v : jsval) : bool :=
  match v with
  | Some t => String.eqb t ""
  | None => true
  end.

(** The numbers the search computes with: integers and the two infinities
    that initialise [bestScore]. *)
Inductive num : Type :=
| NegInf
| Fin (z : Z)
| PosInf.

Definition num_le (a b : num) : bool :=
  match a, b with
  | NegInf, _ => true
  | _, PosInf => true
  | Fin x, Fin y => x <=? y
  | _, _ => false
  end.

(** [a > b] *)
Definition num_gt (a b : num) : bool := negb (num_le a b).

(** [Math.max(a, b)] and [Math.min(a, b)] *)
Definition num_max (a b : num) : num := if num_le a b then b else a.
Definition num_min (a b : num) : num := if num_le a b then a else b.

(** ** Arrays

    A row of the grid is a JavaScript array of strings: its elements (a hole
    is [None]) and the properties stored under keys that are not array
    indices.  Integer-valued numbers are modelled by [Z]; the array indices
    are the integers from 0 to 2^32 - 2, and every other key (a negative
    one, or one from 2^32 - 1 on) is a plain property key, which leaves the
    elements and the length alone. *)
Record jsarray : Type := mkArr {
  elems : list (option string);
  props : list (Z * string)
}.

Fixpoint prop_get (k : Z) (ps : list (Z * string)) : jsval :=
  match ps with
  | [] => None
  | (k', v) :: ps' => if k =? k' then Some v else prop_get k ps'
  end.

Fixpoint prop_put (k : Z) (v : string) (ps : list (Z * string))
  : list (Z * string) :=
  match ps with
  | [] => [(k, v)]
  | (k', v') :: ps' =>
      if k =? k' then (k, v) :: ps' else (k', v') :: prop_put k v ps'
  end.

(** Writing element [n]: in range it replaces the element, out of range the
    array grows, leaving holes between its old end and [n]. *)
Fixpoint elems_put (n : nat) (v : string) (l : list (option string))
  : list (option string) :=
  match l, n with
  | [], O => [Some v]
  | [], S n' => None :: elems_put n' v []
  | _ :: l', O => Some v :: l'
  | x :: l', S n' => x :: elems_put n' v l'
  end.

(** The key [i] is an array index. *)
Definition is_index (i : Z) : bool := (0 <=? i) && (i <? 4294967295).

(** [a[i]] *)
Definition arr_get (a : jsarray) (i : Z) : jsval :=
  if is_index i then
    match nth_error (elems a) (Z.to_nat i) with
    | Some (Some s) => Some s
    | _ => None
    end
  else prop_get i (props a).

(** [a[i] = v] *)
Definition arr_set (a : jsarray) (i : Z) (v : string) : jsarray :=
  if is_index i then mkArr (elems_put (Z.to_nat i) v (elems a)) (props a)
  else mkArr (elems a) (prop_put i v (props a)).

(** [a.every(p)]: holes are skipped. *)
Definition arr_every (p : string -> bool) (a : jsarray) : bool :=
  forallb (fun e => match e with Some s => p s | None => true end) (elems a).

(** The grid is an array of rows.  [resetGame] builds three distinct row
    arrays (the callback of [map] runs once per row), so rows do not alias,
    and the outer array is only ever read. *)
Definition Board := list jsarray.

Definition row_at (b : Board) (r : Z) : option jsarray :=
  if 0 <=? r then nth_error b (Z.to_nat r) else None.

Fixpoint row_put (n : nat) (a : jsarray) (b : Board) : Board :=
  match b, n with
  | [], _ => []
  | _ :: b', O => a :: b'
  | x :: b', S n' => x :: row_put n' a b'
  end.

Definition Move := (Z * Z)%type.

(** ** Errors and the two monads *)

Inductive error : Type := TypeError.

(** Reads do not change the state: a value or an exception. *)
Inductive res (A : Type) : Type :=
| Val (a : A)
| Err (e : error).
Arguments Val {A} a.
Arguments Err {A} e.

Definition rbind {A B} (c : res A) (k : A -> res B) : res B :=
  match c with
  | Val a => k a
  | Err e => Err e
  end.

(** Outcome of running code on a mutable state: normal return with the final
    state, an exception with the state at the time it was thrown, or the
    search ran out of fuel. *)
Inductive outcome (St A : Type) : Type :=
| Ok (a : A) (s : St)
| Throw (e : error) (s : St)
| OutOfFuel.
Arguments Ok {St A} a s.
Arguments Throw {St A} e s.
Arguments OutOfFuel {St A}.

Definition M (St A : Type) : Type := St -> outcome St A.

Definition ret {St A} (a : A) : M St A := fun s => Ok a s.

Definition bind {St A B} (c : M St A) (k : A -> M St B) : M St B :=
  fun s =>
    match c s with
    | Ok a s' => k a s'
    | Throw e s' => Throw e s'
    | OutOfFuel => OutOfFuel
    end.

(** A read inside stateful code. *)
Definition liftR {St A} (f : St -> res A) : M St A :=
  fun s =>
    match f s with
    | Val a => Ok a s
    | Err e => Throw e s
    end.

Declare Scope res_scope.
Delimit Scope res_scope with res.
Declare Scope m_scope.
Delimit Scope m_scope with m.

Notation "x <- c ;; k" := (rbind c (fun x => k))
  (at level 61, c at next level, right associativity) : res_scope.
Notation "x <- c ;; k" := (bind c (fun x => k))
  (at level 61, c at next level, right associativity) : m_scope.
Notation "c ;; k" := (bind c (fun _ => k))
  (at level 61, right associativity) : m_scope.

(** [l.every(f)] and [l.some(f)] with a callback that may throw; both stop at
    the first element that decides the answer. *)
Fixpoint everyR {A} (f : A -> res bool) (l : list A) : res bool :=
  match l with
  | [] => Val true
  | x :: l' => (t <- f x ;; if t then everyR f l' else Val false)%res
  end.

Fixpoint someR {A} (f : A -> res bool) (l : list A) : res bool :=
  match l with
  | [] => Val false
  | x :: l' => (t <- f x ;; if t then Val true else someR f l')%res
  end.

(** A [for] loop with a loop-carried value, over reads and over stateful
    code. *)
Fixpoint foldR {A B} (f : A -> B -> res A) (a : A) (l : list B) : res A :=
  match l with
  | [] => Val a
  | x :: l' => (a' <- f a x ;; foldR f a' l')%res
  end.

Fixpoint foldM {St A B} (f : A -> B -> M St A) (a : A) (l : list B)
  : M St A :=
  match l with
  | [] => ret a
  | x :: l' => (a' <- f a x ;; foldM f a' l')%m
  end.

(** ** Board access *)

(** [board[row][col]]: throws when [board[row]] is [undefined]. *)
Definition cell (b : Board) (row col : Z) : res jsval :=
  match row_at b row with
  | Some a => Val (arr_get a col)
  | None => Err TypeError
  end.

(** [board[row][col] = v] *)
Definition setCell (row col : Z) (v : string) : M Board unit :=
  fun b =>
    match row_at b row with
    | Some a => Ok tt (row_put (Z.to_nat row) (arr_set a col v) b)
    | None => Throw TypeError b
    end.

(** ** Rule engine *)

Definition winningCombinations : list (list Move) :=
  [ [(0, 0); (0, 1); (0, 2)];
    [(1, 0); (1, 1); (1, 2)];
    [(2, 0); (2, 1); (2, 2)];
    [(0, 0); (1, 0); (2, 0)];
    [(0, 1); (1, 1); (2, 1)];
    [(0, 2); (1, 2); (2, 2)];
    [(0, 0); (1, 1); (2, 2)];
    [(0, 2); (1, 1); (2, 0)] ].

(** [combination.every(([row, col]) => board[row][col] === s)] *)
Definition lineOf (b : Board) (s : string) (combination : list Move)
  : res bool :=
  everyR (fun '(row, col) => (v <- cell b row col ;; Val (strict_eq v s))%res)
         combination.

Definition checkWin (b : Board) : res bool :=
  someR (fun combination =>
           (o <- lineOf b "O" combination ;;
            if o then Val true else lineOf b "X" combination)%res)
        winningCombinations.

Definition isDraw (b : Board) : bool :=
  forallb (fun row => arr_every (fun c => negb (String.eqb c "")) row) b.

Definition getAvailableMoves (b : Board) : res (list Move) :=
  foldR (fun moves row =>
           foldR (fun moves col =>
                    (v <- cell b row col ;;
                     Val (if strict_eq v "" then moves ++ [(row, col)]
                          else moves))%res)
                 moves [0; 1; 2])
        [] [0; 1; 2].

(** ** Search *)

(** The three lines shared by the loops of [minimax] and [getBestMove]:
    place [sym] at the move, score the resulting position with [search], undo
    the move. *)
Definition tryMove (sym : string) (search : M Board num) (row col : Z)
  : M Board num :=
  (setCell row col sym ;;
   score <- search ;;
   setCell row col "" ;;
   ret score)%m.

(** One level of [minimax]; [fuel] bounds the nesting of recursive calls. *)
Fixpoint minimax (fuel : nat) (depth : Z) (isMaximizing : bool)
         (aiSymbol playerSymbol : string) : M Board num :=
  match fuel with
  | O => fun _ => OutOfFuel
  | S fuel' =>
      (won <- liftR checkWin ;;
       if won then ret (if isMaximizing then Fin (-10 + depth)
                        else Fin (10 - depth))
       else
         full <- liftR (fun b => Val (isDraw b)) ;;
         if full then ret (Fin 0)
         else
           availableMoves <- liftR getAvailableMoves ;;
           foldM (fun bestScore '(row, col) =>
                    score <- tryMove
                               (if isMaximizing then aiSymbol
                                else playerSymbol)
                               (minimax fuel' (depth + 1) (negb isMaximizing)
                                        aiSymbol playerSymbol)
                               row col ;;
                    ret (if isMaximizing then num_max score bestScore
                         else num_min score bestScore))
                 (if isMaximizing then NegInf else PosInf)
                 availableMoves)%m
  end.

(** [aiSymbol === 'X' ? 'O' : 'X'] *)
Definition opponentOf (aiSymbol : string) : string :=
  if String.eqb aiSymbol "X" then "O" else "X".

Definition getBestMove (fuel : nat) (aiSymbol : string) : M Board Move :=
  let playerSymbol := opponentOf aiSymbol in
  (availableMoves <- liftR getAvailableMoves ;;
   best <- foldM (fun '(bestMove, bestScore) '(row, col) =>
                    score <- tryMove aiSymbol
                               (minimax fuel 0 false aiSymbol playerSymbol)
                               row col ;;
                    ret (if num_gt score bestScore then ((row, col), score)
                         else (bestMove, bestScore)))
                 ((-1, -1), NegInf)
                 availableMoves ;;
   ret (fst best))%m.

(** ** The component *)

Record GameBoardComponent : Type := mkComponent {
  grid : Board;
  currentPlayer : string;
  gameStatus : string;
  selectedPlayer : string;
  gameStarted : bool;
  gameMode : string
}.

Definition set_grid (g : Board) (this : GameBoardComponent) :=
  mkComponent g (currentPlayer this) (gameStatus this) (selectedPlayer this)
              (gameStarted this) (gameMode this).
Definition set_currentPlayer (p : string) (this : GameBoardComponent) :=
  mkComponent (grid this) p (gameStatus this) (selectedPlayer this)
              (gameStarted this) (gameMode this).
Definition set_gameStatus (st : string) (this : GameBoardComponent) :=
  mkComponent (grid this) (currentPlayer this) st (selectedPlayer this)
              (gameStarted this) (gameMode this).
Definition set_selectedPlayer (p : string) (this : GameBoardComponent) :=
  mkComponent (grid this) (currentPlayer this) (gameStatus this) p
              (gameStarted this) (gameMode this).
Definition set_gameStarted (f : bool) (this : GameBoardComponent) :=
  mkComponent (grid this) (currentPlayer this) (gameStatus this)
              (selectedPlayer this) f (gameMode this).
Definition set_gameMode (m : string) (this : GameBoardComponent) :=
  mkComponent (grid this) (currentPlayer this) (gameStatus this)
              (selectedPlayer this) (gameStarted this) m.

(** Reading a field, and a field assignment, as stateful code. *)
Definition this_ {A} (f : GameBoardComponent -> A) : M GameBoardComponent A :=
  fun this => Ok (f this) this.
Definition assign (f : GameBoardComponent -> GameBoardComponent)
  : M GameBoardComponent unit :=
  fun this => Ok tt (f this).

(** Code that works on a board, run on [this.grid]: the methods receive the
    grid object itself, so what they write is written to the grid. *)
Definition onGrid {A} (c : M Board A) : M GameBoardComponent A :=
  fun this =>
    match c (grid this) with
    | Ok a g => Ok a (set_grid g this)
    | Throw e g => Throw e (set_grid g this)
    | OutOfFuel => OutOfFuel
    end.

(** [Array(3).fill(null).map(() => Array(3).fill(''))] *)
Definition emptyRow : jsarray := mkArr [Some ""; Some ""; Some ""] [].
Definition emptyGrid : Board := [emptyRow; emptyRow; emptyRow].

(** [selectedPlayer || 'X'] *)
Definition orX (p : string) : string := if String.eqb p "" then "X" else p.

Definition resetGame : M GameBoardComponent unit :=
  (assign (set_grid emptyGrid) ;;
   p <- this_ selectedPlayer ;;
   assign (set_currentPlayer (orX p)) ;;
   assign (set_gameStatus "Playing"))%m.

(** The field initialisers followed by the constructor body. *)
Definition fieldInit : GameBoardComponent := mkComponent [] "" "" "" false "".
Definition constructor : outcome GameBoardComponent unit := resetGame fieldInit.

Definition selectPlayer (player : string) : M GameBoardComponent unit :=
  assign (set_selectedPlayer player).

Definition setGameMode (mode : string) : M GameBoardComponent unit :=
  (assign (set_gameMode mode) ;;
   assign (set_gameStarted false))%m.

Definition aiMove (fuel : nat) : M GameBoardComponent unit :=
  (p <- this_ selectedPlayer ;;
   let aiSymbol := if String.eqb p "X" then "O" else "X" in
   bestMove <- onGrid (getBestMove fuel aiSymbol) ;;
   onGrid (setCell (fst bestMove) (snd bestMove) aiSymbol) ;;
   won <- onGrid (liftR checkWin) ;;
   if won then assign (set_gameStatus (aiSymbol ++ " Wins!")%string)
   else
     full <- this_ (fun this => isDraw (grid this)) ;;
     if full then assign (set_gameStatus "Draw!")
     else
       p' <- this_ selectedPlayer ;;
       assign (set_currentPlayer p'))%m.

Definition makeMove (fuel : nat) (row col : Z) : M GameBoardComponent unit :=
  (v <- onGrid (liftR (fun b => cell b row col)) ;;
   status <- this_ gameStatus ;;
   if js_not v && String.eqb status "Playing" then
     cur <- this_ currentPlayer ;;
     onGrid (setCell row col cur) ;;
     won <- onGrid (liftR checkWin) ;;
     if won then assign (set_gameStatus (cur ++ " Wins!")%string)
     else
       full <- this_ (fun this => isDraw (grid this)) ;;
       if full then assign (set_gameStatus "Draw!")
       else
         assign (set_currentPlayer (if String.eqb cur "X" then "O" else "X")) ;;
         mode <- this_ gameMode ;;
         if String.eqb mode "single" then aiMove fuel else ret tt
   else ret tt)%m.

Definition startGame (fuel : nat) : M GameBoardComponent unit :=
  (p <- this_ selectedPlayer ;;
   if negb (String.eqb p "") then
     assign (set_gameStarted true) ;;
     mode <- this_ gameMode ;;
     (if String.eqb mode "single" then
        if String.eqb p "X" then assign (set_currentPlayer "X")
        else
          assign (set_currentPlayer "X") ;;
          aiMove fuel
      else ret tt) ;;
     resetGame
   else ret tt)%m.

Definition resetPage : M GameBoardComponent unit :=
  (resetGame ;;
   assign (set_selectedPlayer "") ;;
   assign (set_gameStarted false) ;;
   assign (set_gameMode ""))%m.

(** * Vocabulary of the statements *)

(** An element read as a value: a hole or a missing element is
    [undefined]. *)
Definition as_val (o : option (option string)) : jsval :=
  match o with
  | Some (Some s) => Some s
  | _ => None
  end.

(** The board has the three rows that the rule engine indexes. *)
Definition rows3 (b : Board) : Prop := (3 <= List.length b)%nat.

(** A 3x3 board: exactly three rows of exactly three strings each. *)
Definition is_row3 (a : jsarray) : Prop :=
  exists x y z, elems a = [Some x; Some y; Some z].
Definition is3x3 (b : Board) : Prop :=
  exists a0 a1 a2, b = [a0; a1; a2] /\ is_row3 a0 /\ is_row3 a1 /\ is_row3 a2.

(** The value of a cell, [undefined] also where the read would throw. *)
Definition look (b : Board) (m : Move) : jsval :=
  match cell b (fst m) (snd m) with
  | Val v => v
  | Err _ => None
  end.

Definition empty_at (b : Board) (m : Move) : bool := strict_eq (look b m) "".

(** The nine cells in row-major order. *)
Definition allCells : list Move :=
  [(0, 0); (0, 1); (0, 2); (1, 0); (1, 1); (1, 2); (2, 0); (2, 1); (2, 2)].

Definition count_empty (b : Board) : nat :=
  List.length (filter (empty_at b) allCells).

(** The board after [board[row][col] = v], where that does not throw. *)
Definition place (m : Move) (v : string) (b : Board) : Board :=
  match row_at b (fst m) with
  | Some a => row_put (Z.to_nat (fst m)) (arr_set a (snd m) v) b
  | None => b
  end.

(** Some winning combination is held by [s] alone. *)
Definition has_line (b : Board) (s : string) : Prop :=
  exists combination,
    In combination winningCombinations /\
    forall m, In m combination -> look b m = Some s.

(** [checkWin] as a boolean, for boards on which it does not throw. *)
Definition wins (b : Board) : bool :=
  existsb (fun combination =>
             forallb (fun m => strict_eq (look b m) "O") combination
             || forallb (fun m => strict_eq (look b m) "X") combination)
          winningCombinations.

(** What a finished call returned, [d] if it did not return. *)
Definition returned {St A} (d : A) (o : outcome St A) : A :=
  match o with
  | Ok a _ => a
  | _ => d
  end.

(** The loop bodies of [minimax] and [getBestMove], named for the proofs. *)
Definition minimaxBody (isMaximizing : bool) (sym : string)
           (search : M Board num) : num -> Move -> M Board num :=
  fun bestScore '(row, col) =>
    (score <- tryMove sym search row col ;;
     ret (if isMaximizing then num_max score bestScore
          else num_min score bestScore))%m.

Definition bestMoveBody (sym : string) (search : M Board num)
  : Move * num -> Move -> M Board (Move * num) :=
  fun '(bestMove, bestScore) '(row, col) =>
    (score <- tryMove sym search row col ;;
     ret (if num_gt score bestScore then ((row, col), score)
          else (bestMove, bestScore)))%m.

(** The pure counterparts of the two loop bodies, over a score per move. *)
Definition minimaxPick (isMaximizing : bool) (sc : Move -> num)
  : num -> Move -> num :=
  fun bestScore m =>
    if isMaximizing then num_max (sc m) bestScore
    else num_min (sc m) bestScore.

Definition bestMovePick (sc : Move -> num) : Move * num -> Move -> Move * num :=
  fun best m => if num_gt (sc m) (snd best) then (m, sc m) else best.

(** Both loops have the shape: score the move, then combine the score with
    the loop-carried value. *)
Definition scoredLoop {A} (g : num -> A -> Move -> A) (sym : string)
           (search : M Board num) : A -> Move -> M Board A :=
  fun acc m =>
    (score <- tryMove sym search (fst m) (snd m) ;; ret (g score acc m))%m.

(** The score the search gives the board with [sym] placed at [m]. *)
Definition scoreAfter (sym : string) (search : M Board num) (b : Board)
           (m : Move) : num :=
  returned NegInf (search (place m sym b)).

(** [m] is the first move of [moves] whose score is maximal: every earlier
    move scores strictly less, no later move scores more. *)
Definition first_max (sc : Move -> num) (moves : list Move) (m : Move)
  : Prop :=
  exists pre post,
    moves = pre ++ m :: post /\
    (forall x, In x pre -> num_gt (sc m) (sc x) = true) /\
    (forall x, In x post -> num_le (sc x) (sc m) = true).

(** What [aiMove] does once the move is chosen. *)
Definition aiPlace (aiSymbol : string) (bestMove : Move)
  : M GameBoardComponent unit :=
  (onGrid (setCell (fst bestMove) (snd bestMove) aiSymbol) ;;
   won <- onGrid (liftR checkWin) ;;
   if won then assign (set_gameStatus (aiSymbol ++ " Wins!")%string)
   else
     full <- this_ (fun this => isDraw (grid this)) ;;
     if full then assign (set_gameStatus "Draw!")
     else
       p' <- this_ selectedPlayer ;;
       assign (set_currentPlayer p'))%m.

(** The state in which a call ended, if it ended. *)
Definition final_state {St A} (o : outcome St A) : option St :=
  match o with
  | Ok _ s => Some s
  | Throw _ s => Some s
  | OutOfFuel => None
  end.

(** Boards and component states of the scenarios. *)
Definition row3 (x y z : string) : jsarray := mkArr [Some x; Some y; Some z] [].

Definition scenarioA : Board :=
  [row3 "X" "O" "X"; row3 "O" "X" "O"; row3 "" "" ""].

Definition scenarioC : Board :=
  [row3 "X" "O" "X"; row3 "X" "O" "O"; row3 "O" "X" "X"].

Definition fullWon : Board :=
  [row3 "X" "X" "X"; row3 "O" "O" "X"; row3 "O" "X" "O"].

(** The component as the constructor leaves it, then after
    [selectPlayer('O'); setGameMode('single')] and after
    [selectPlayer('X'); setGameMode('multi'); startGame()]. *)
Definition newComponent : GameBoardComponent :=
  mkComponent emptyGrid "X" "Playing" "" false "".
Definition humanO : GameBoardComponent :=
  mkComponent emptyGrid "X" "Playing" "O" false "single".
Definition twoHumans : GameBoardComponent :=
  mkComponent emptyGrid "X" "Playing" "X" true "multi".

(** A coordinate of the 3x3 grid. *)
Definition in_range (i : Z) : bool := (0 <=? i) && (i <=? 2).

(** The two marks, one per side of the search. *)
Definition symbols (aiSymbol playerSymbol : string) : Prop :=
  (aiSymbol = "X" /\ playerSymbol = "O") \/
  (aiSymbol = "O" /\ playerSymbol = "X").

(** A node the search visits with [isMaximizing = flag]: the side that is not
    to move there has just placed its mark on an empty cell of a board without
    a completed line. *)
Definition search_node (aiSymbol playerSymbol : string) (flag : bool)
           (child : Board) : Prop :=
  exists b m,
    rows3 b /\ checkWin b = Val false /\ empty_at b m = true /\
    child = place m (if flag then playerSymbol else aiSymbol) b.

(** A line of play of [k] plies from the board [b], where the maximized side
    is to move iff [flag]: at each ply the board has no completed line and an
    empty cell left, and the side to move marks one empty cell; the line ends
    on the board [t]. *)
Inductive line_of_play (aiSymbol playerSymbol : string)
  : bool -> Board -> nat -> Board -> Prop :=
| lop_here flag b : line_of_play aiSymbol playerSymbol flag b 0 b
| lop_move flag b m k t :
    checkWin b = Val false -> isDraw b = false ->
    In m allCells -> empty_at b m = true ->
    line_of_play aiSymbol playerSymbol (negb flag)
                 (place m (if flag then aiSymbol else playerSymbol) b) k t ->
    line_of_play aiSymbol playerSymbol flag b (S k) t.

(** The score [z] of the finished board [t] reached at depth [depth]. *)
Definition leaf_score (aiSymbol playerSymbol : string) (t : Board)
           (depth z : Z) : Prop :=
  (has_line t aiSymbol /\ z = 10 - depth) \/
  (has_line t playerSymbol /\ z = -10 + depth) \/
  (checkWin t = Val false /\ isDraw t = true /\ z = 0).

(** The game of two humans after [makeMove(1, 1)]. *)
Definition centreTaken : GameBoardComponent :=
  mkComponent [emptyRow; row3 "" "X" ""; emptyRow]
              "O" "Playing" "X" true "multi".

(** ** Vocabulary of the further properties *)

(** Two states with the same selection, mode and started flag. *)
Definition same_setup (this this' : GameBoardComponent) : Prop :=
  selectedPlayer this' = selectedPlayer this /\
  gameStarted this' = gameStarted this /\
  gameMode this' = gameMode this.

(** The status string says what the grid shows. *)
Definition status_agrees (this : GameBoardComponent) : Prop :=
  ((exists p, gameStatus this = (p ++ " Wins!")%string) /\
   checkWin (grid this) = Val true) \/
  (gameStatus this = "Draw!" /\
   checkWin (grid this) = Val false /\ isDraw (grid this) = true) \/
  (gameStatus this = "Playing" /\
   checkWin (grid this) = Val false /\ isDraw (grid this) = false).

(** The mark of the automated side: [selectedPlayer === 'X' ? 'O' : 'X']. *)
Definition aiSymbolOf (this : GameBoardComponent) : string :=
  if String.eqb (selectedPlayer this) "X" then "O" else "X".

(** The component once [sym] is written to the cell [m] of its grid. *)
Definition marked (m : Move) (sym : string) (this : GameBoardComponent)
  : GameBoardComponent :=
  set_grid (place m sym (grid this)) this.

(** The guard of [makeMove]: the row exists, the cell is falsy and the game
    is on. *)
Definition accepted (row col : Z) (this : GameBoardComponent) : bool :=
  match row_at (grid this) row with
  | Some a => js_not (arr_get a col) && String.eqb (gameStatus this) "Playing"
  | None => false
  end.

(** After a mark of [sym] the game is over and [this'] records it. *)
Definition ended (sym : string) (this1 this' : GameBoardComponent) : Prop :=
  (checkWin (grid this1) = Val true /\
   this' = set_gameStatus (sym ++ " Wins!")%string this1) \/
  (checkWin (grid this1) = Val false /\ isDraw (grid this1) = true /\
   this' = set_gameStatus "Draw!" this1).

Definition goes_on (this1 : GameBoardComponent) : Prop :=
  checkWin (grid this1) = Val false /\ isDraw (grid this1) = false.

(** [z] is the greatest ([isMaximizing]) or the least of the scores [sc]
    gives the moves of [l], and some move of [l] has it. *)
Definition extremum (isMaximizing : bool) (sc : Move -> num)
           (l : list Move) (z : Z) : Prop :=
  (exists m, In m l /\ sc m = Fin z) /\
  forall m, In m l ->
            exists zm, sc m = Fin zm /\
                       if isMaximizing then zm <= z else z <= zm.

Definition scenarioB : Board :=
  [row3 "X" "X" ""; row3 "O" "" ""; row3 "" "" ""].

(** Games in progress: scenario A with the automated side (X) to move, the
    same board with two humans, and the game of two humans after
    [makeMove(1, 1); makeMove(0, 0)]. *)
Definition aiToMove : GameBoardComponent :=
  mkComponent scenarioA "X" "Playing" "O" true "single".
Definition xToMove : GameBoardComponent :=
  mkComponent scenarioA "X" "Playing" "X" true "multi".
Definition cornerTaken : GameBoardComponent :=
  mkComponent [row3 "O" "" ""; row3 "" "X" ""; emptyRow]
              "X" "Playing" "X" true "multi".
Definition xHasWon : GameBoardComponent :=
  mkComponent [row3 "X" "O" "X"; row3 "O" "X" "O"; row3 "X" "" ""]
              "X" "X Wins!" "X" true "multi".

(** The lines of the grid by their coordinates: [s] fills row [r], column
    [c], the main diagonal or the other diagonal. *)
Definition fills_row (b : Board) (s : string) (r : Z) : Prop :=
  forall c, 0 <= c <= 2 -> look b (r, c) = Some s.
Definition fills_column (b : Board) (s : string) (c : Z) : Prop :=
  forall r, 0 <= r <= 2 -> look b (r, c) = Some s.
Definition fills_diagonal (b : Board) (s : string) : Prop :=
  forall i, 0 <= i <= 2 -> look b (i, i) = Some s.
Definition fills_antidiagonal (b : Board) (s : string) : Prop :=
  forall i, 0 <= i <= 2 -> look b (i, 2 - i) = Some s.

(** [s] fills one of the three rows, the three columns or the two
    diagonals. *)
Definition three_in_line (b : Board) (s : string) : Prop :=
  (exists r, 0 <= r <= 2 /\ fills_row b s r) \/
  (exists c, 0 <= c <= 2 /\ fills_column b s c) \/
  fills_diagonal b s \/
  fills_antidiagonal b s.

(** * Properties *)

(** ** The monads *)

Lemma bind_Ok_inv {St A B} (c : M St A) (k : A -> M St B) s b s' :
  bind c k s = Ok b s' ->
  exists a s1, c s = Ok a s1 /\ k a s1 = Ok b s'.
Proof.
  unfold bind. destruct (c s) as [a s1 | e s1 | ]; try discriminate.
  intros H. exists a, s1. split; [reflexivity | exact H].
Qed.

Lemma bind_Ok_run {St A B} (c : M St A) (k : A -> M St B) s a s1 :
  c s = Ok a s1 -> bind c k s = k a s1.
Proof. intros H. unfold bind. rewrite H. reflexivity. Qed.

(** A loop whose body, run on [s], returns a value computed by [g] and leaves
    [s] as it was, is the pure fold of [g]. *)
Lemma foldM_pure {St A B} (f : A -> B -> M St A) (g : A -> B -> A) s l :
  (forall a x, In x l -> f a x s = Ok (g a x) s) ->
  forall a, foldM f a l s = Ok (fold_left g l a) s.
Proof.
  induction l as [| x l IH]; intros Hf a; simpl.
  - reflexivity.
  - rewrite (bind_Ok_run _ _ _ _ _ (Hf a x (or_introl eq_refl))).
    apply IH. intros a' y Hy. apply Hf. right. exact Hy.
Qed.

(** A loop is monotone in its body. *)
Lemma foldM_mono {St A B} (f f' : A -> B -> M St A) l :
  (forall a x s r s', f a x s = Ok r s' -> f' a x s = Ok r s') ->
  forall a s r s', foldM f a l s = Ok r s' -> foldM f' a l s = Ok r s'.
Proof.
  intros Hf. induction l as [| x l IH]; intros a s r s' H; simpl in *.
  - exact H.
  - apply bind_Ok_inv in H. destruct H as (a1 & s1 & H1 & H2).
    rewrite (bind_Ok_run _ _ _ _ _ (Hf _ _ _ _ _ H1)).
    apply IH. exact H2.
Qed.

Lemma everyR_pure {A} (f : A -> res bool) (g : A -> bool) l :
  (forall x, In x l -> f x = Val (g x)) -> everyR f l = Val (forallb g l).
Proof.
  induction l as [| x l IH]; intros Hf; simpl.
  - reflexivity.
  - rewrite (Hf x (or_introl eq_refl)). simpl.
    destruct (g x); simpl; [| reflexivity].
    apply IH. intros y Hy. apply Hf. right. exact Hy.
Qed.

Lemma someR_pure {A} (f : A -> res bool) (g : A -> bool) l :
  (forall x, In x l -> f x = Val (g x)) -> someR f l = Val (existsb g l).
Proof.
  induction l as [| x l IH]; intros Hf; simpl.
  - reflexivity.
  - rewrite (Hf x (or_introl eq_refl)). simpl.
    destruct (g x); simpl; [reflexivity |].
    apply IH. intros y Hy. apply Hf. right. exact Hy.
Qed.

(** ** Arrays *)

Lemma nth_error_nil_val n : as_val (@nth_error (option string) [] n) = None.
Proof. destruct n; reflexivity. Qed.

Lemma elems_put_get n v l m :
  as_val (nth_error (elems_put n v l) m) =
  if Nat.eqb n m then Some v else as_val (nth_error l m).
Proof.
  revert l m. induction n as [| n IH]; intros l m.
  - destruct l as [| x l], m as [| m]; simpl; try reflexivity.
    destruct m; reflexivity.
  - destruct l as [| x l], m as [| m]; simpl; try reflexivity.
    + rewrite IH. rewrite nth_error_nil_val. reflexivity.
    + apply IH.
Qed.

Lemma elems_put_put n v w l :
  elems_put n w (elems_put n v l) = elems_put n w l.
Proof.
  revert l. induction n as [| n IH]; intros l.
  - destruct l; reflexivity.
  - destruct l as [| x l]; simpl; f_equal; apply IH.
Qed.

Lemma elems_put_id n w l :
  nth_error l n = Some (Some w) -> elems_put n w l = l.
Proof.
  revert l. induction n as [| n IH]; intros l H.
  - destruct l as [| x l]; simpl in *; congruence.
  - destruct l as [| x l]; simpl in *; [discriminate |].
    f_equal. apply IH. exact H.
Qed.

Lemma prop_put_get k v ps k' :
  prop_get k' (prop_put k v ps) =
  if k =? k' then Some v else prop_get k' ps.
Proof.
  induction ps as [| [k0 v0] ps IH]; simpl.
  - rewrite (Z.eqb_sym k' k). reflexivity.
  - destruct (k =? k0) eqn:E0; simpl.
    + apply Z.eqb_eq in E0. subst k0. rewrite (Z.eqb_sym k' k).
      destruct (k =? k'); reflexivity.
    + destruct (k' =? k0) eqn:E1.
      * apply Z.eqb_eq in E1. subst k0. rewrite E0. reflexivity.
      * exact IH.
Qed.

Lemma prop_put_put k v w ps :
  prop_put k w (prop_put k v ps) = prop_put k w ps.
Proof.
  induction ps as [| [k0 v0] ps IH]; simpl.
  - rewrite Z.eqb_refl. reflexivity.
  - destruct (k =? k0) eqn:E0; simpl.
    + rewrite Z.eqb_refl. reflexivity.
    + rewrite E0. f_equal. exact IH.
Qed.

Lemma prop_put_id k w ps : prop_get k ps = Some w -> prop_put k w ps = ps.
Proof.
  induction ps as [| [k0 v0] ps IH]; simpl; intros H.
  - discriminate.
  - destruct (k =? k0) eqn:E0.
    + apply Z.eqb_eq in E0. congruence.
    + f_equal. apply IH. exact H.
Qed.

Lemma is_index_range i : is_index i = true <-> 0 <= i < 4294967295.
Proof.
  unfold is_index. rewrite andb_true_iff, Z.leb_le, Z.ltb_lt. tauto.
Qed.

Lemma arr_get_set a c v c' :
  arr_get (arr_set a c v) c' = if c =? c' then Some v else arr_get a c'.
Proof.
  unfold arr_get, arr_set.
  destruct (is_index c) eqn:Ec, (is_index c') eqn:Ec'; simpl.
  - fold (as_val (nth_error (elems_put (Z.to_nat c) v (elems a))
                            (Z.to_nat c'))).
    rewrite elems_put_get.
    apply is_index_range in Ec. apply is_index_range in Ec'.
    destruct (c =? c') eqn:E.
    + apply Z.eqb_eq in E. subst c'. rewrite Nat.eqb_refl. reflexivity.
    + apply Z.eqb_neq in E.
      destruct (Nat.eqb (Z.to_nat c) (Z.to_nat c')) eqn:En.
      * apply Nat.eqb_eq in En. lia.
      * reflexivity.
  - destruct (c =? c') eqn:E; [| reflexivity].
    apply Z.eqb_eq in E. congruence.
  - destruct (c =? c') eqn:E; [| reflexivity].
    apply Z.eqb_eq in E. congruence.
  - apply prop_put_get.
Qed.

Lemma arr_set_set a c v w : arr_set (arr_set a c v) c w = arr_set a c w.
Proof.
  unfold arr_set. destruct (is_index c); simpl.
  - rewrite elems_put_put. reflexivity.
  - rewrite prop_put_put. reflexivity.
Qed.

Lemma arr_set_id a c w : arr_get a c = Some w -> arr_set a c w = a.
Proof.
  unfold arr_get, arr_set. destruct a as [es ps]; simpl.
  destruct (is_index c); intros H.
  - rewrite elems_put_id; [reflexivity |].
    destruct (nth_error es (Z.to_nat c)) as [[s |] |]; congruence.
  - rewrite prop_put_id; [reflexivity | exact H].
Qed.

Lemma row_put_get n a b m :
  nth_error (row_put n a b) m =
  if Nat.eqb n m then
    match nth_error b n with Some _ => Some a | None => None end
  else nth_error b m.
Proof.
  revert b m. induction n as [| n IH]; intros b m.
  - destruct b as [| x b], m as [| m]; reflexivity.
  - destruct b as [| x b], m as [| m]; simpl; try reflexivity.
    + destruct (Nat.eqb n m); reflexivity.
    + apply IH.
Qed.

Lemma row_put_length n a b :
  List.length (row_put n a b) = List.length b.
Proof.
  revert b. induction n as [| n IH]; intros [| x b]; simpl; try reflexivity.
  f_equal. apply IH.
Qed.

Lemma row_put_put n a a' b : row_put n a (row_put n a' b) = row_put n a b.
Proof.
  revert b. induction n as [| n IH]; intros [| x b]; simpl; try reflexivity.
  f_equal. apply IH.
Qed.

Lemma row_put_id n a b : nth_error b n = Some a -> row_put n a b = b.
Proof.
  revert b. induction n as [| n IH]; intros [| x b] H; simpl in *;
    try discriminate.
  - congruence.
  - f_equal. apply IH. exact H.
Qed.

(** ** Cells *)

Lemma rows3_row_at b r :
  rows3 b -> 0 <= r <= 2 -> exists a, row_at b r = Some a.
Proof.
  unfold rows3, row_at. intros Hb Hr.
  destruct (0 <=? r) eqn:E; [| apply Z.leb_gt in E; lia].
  destruct (nth_error b (Z.to_nat r)) as [a |] eqn:Hn.
  - exists a. reflexivity.
  - apply nth_error_None in Hn. lia.
Qed.

Lemma row_at_Some_range b r a : row_at b r = Some a -> 0 <= r.
Proof.
  unfold row_at. destruct (0 <=? r) eqn:E; [| discriminate].
  intros _. apply Z.leb_le. exact E.
Qed.

Lemma cell_look b r c :
  rows3 b -> 0 <= r <= 2 -> cell b r c = Val (look b (r, c)).
Proof.
  intros Hb Hr. destruct (rows3_row_at b r Hb Hr) as [a Ha].
  unfold look, cell. simpl. rewrite Ha. reflexivity.
Qed.

Lemma setCell_place b r c v a :
  row_at b r = Some a -> setCell r c v b = Ok tt (place (r, c) v b).
Proof. intros Ha. unfold setCell, place. simpl. rewrite Ha. reflexivity. Qed.

Lemma row_at_place m v b r :
  row_at (place m v b) r =
  match row_at b (fst m) with
  | Some a => if fst m =? r then Some (arr_set a (snd m) v) else row_at b r
  | None => row_at b r
  end.
Proof.
  unfold place. destruct (row_at b (fst m)) as [a |] eqn:Ha; [| reflexivity].
  pose proof (row_at_Some_range _ _ _ Ha) as H0.
  unfold row_at in *.
  destruct (0 <=? fst m) eqn:E; [| discriminate].
  destruct (0 <=? r) eqn:Er.
  - rewrite row_put_get. rewrite Ha.
    apply Z.leb_le in Er.
    destruct (fst m =? r) eqn:Emr.
    + apply Z.eqb_eq in Emr. subst r. rewrite Nat.eqb_refl. reflexivity.
    + apply Z.eqb_neq in Emr.
      destruct (Nat.eqb (Z.to_nat (fst m)) (Z.to_nat r)) eqn:En.
      * apply Nat.eqb_eq in En. lia.
      * reflexivity.
  - apply Z.leb_gt in Er.
    destruct (fst m =? r) eqn:Emr; [apply Z.eqb_eq in Emr; lia | reflexivity].
Qed.

Lemma look_place m v b m' a :
  row_at b (fst m) = Some a ->
  look (place m v b) m' =
  if (fst m =? fst m') && (snd m =? snd m') then Some v else look b m'.
Proof.
  intros Ha. unfold look, cell. rewrite row_at_place, Ha.
  destruct (fst m =? fst m') eqn:Er; simpl.
  - apply Z.eqb_eq in Er. rewrite <- Er, Ha. apply arr_get_set.
  - reflexivity.
Qed.

Lemma place_place m v w b : place m w (place m v b) = place m w b.
Proof.
  destruct (row_at b (fst m)) as [a |] eqn:Ha.
  - unfold place at 1. rewrite row_at_place, Ha, Z.eqb_refl.
    unfold place. rewrite Ha.
    rewrite row_put_put, arr_set_set. reflexivity.
  - assert (Hb : place m v b = b) by (unfold place; rewrite Ha; reflexivity).
    rewrite Hb. reflexivity.
Qed.

Lemma place_id m w b : look b m = Some w -> place m w b = b.
Proof.
  unfold look, cell, place.
  destruct (row_at b (fst m)) as [a |] eqn:Ha; [| reflexivity].
  intros H. rewrite (arr_set_id _ _ _ H).
  apply row_put_id. unfold row_at in Ha.
  destruct (0 <=? fst m); [exact Ha | discriminate].
Qed.

Lemma rows3_place m v b : rows3 b -> rows3 (place m v b).
Proof.
  unfold rows3, place. destruct (row_at b (fst m)); [| tauto].
  rewrite row_put_length. tauto.
Qed.

Lemma empty_at_row b m :
  empty_at b m = true -> exists a, row_at b (fst m) = Some a.
Proof.
  unfold empty_at, look, cell.
  destruct (row_at b (fst m)) as [a |]; [eauto | discriminate].
Qed.

Lemma empty_at_look b m : empty_at b m = true <-> look b m = Some "".
Proof.
  unfold empty_at, strict_eq. destruct (look b m) as [s |].
  - rewrite String.eqb_eq. split; congruence.
  - split; discriminate.
Qed.

(** Placing a mark on an empty cell and writing [''] back restores the
    board. *)
Lemma place_undo m v b : empty_at b m = true -> place m "" (place m v b) = b.
Proof.
  intros H. rewrite place_place. apply place_id.
  apply empty_at_look. exact H.
Qed.

(** ** Rule engine *)

Lemma allCells_range m : In m allCells -> 0 <= fst m <= 2 /\ 0 <= snd m <= 2.
Proof.
  unfold allCells. simpl. intros H.
  repeat (destruct H as [H | H]; [subst m; simpl; lia |]). contradiction.
Qed.

Lemma allCells_NoDup : NoDup allCells.
Proof.
  unfold allCells.
  repeat (constructor; [simpl; intros H;
                        repeat (destruct H as [H | H]; [discriminate |]);
                        contradiction |]).
  constructor.
Qed.

Lemma winningCombinations_range combination m :
  In combination winningCombinations -> In m combination ->
  0 <= fst m <= 2 /\ 0 <= snd m <= 2.
Proof.
  unfold winningCombinations. simpl. intros Hc Hm.
  repeat (destruct Hc as [Hc | Hc];
          [subst combination; simpl in Hm;
           repeat (destruct Hm as [Hm | Hm]; [subst m; simpl; lia |]);
           contradiction |]).
  contradiction.
Qed.

(** The inner loop of [getAvailableMoves] appends the empty cells of one
    row, left to right. *)
Lemma getAvailableMoves_row b row moves :
  rows3 b -> 0 <= row <= 2 ->
  foldR (fun moves col =>
           (v <- cell b row col ;;
            Val (if strict_eq v "" then moves ++ [(row, col)] else moves))%res)
        moves [0; 1; 2]
  = Val (moves ++ filter (empty_at b) [(row, 0); (row, 1); (row, 2)]).
Proof.
  intros Hb Hr. simpl.
  rewrite !(cell_look b row) by assumption. simpl.
  unfold empty_at.
  destruct (strict_eq (look b (row, 0)) ""),
           (strict_eq (look b (row, 1)) ""),
           (strict_eq (look b (row, 2)) ""); simpl;
    rewrite <- ?app_assoc; simpl; rewrite ?app_nil_r; reflexivity.
Qed.

(** The outer loop runs the inner loop for rows 0, 1 and 2. *)
Lemma getAvailableMoves_rows b :
  getAvailableMoves b =
  let inner := fun moves row =>
    foldR (fun moves col =>
             (v <- cell b row col ;;
              Val (if strict_eq v "" then moves ++ [(row, col)]
                   else moves))%res)
          moves [0; 1; 2] in
  (m0 <- inner [] 0 ;; m1 <- inner m0 1 ;; m2 <- inner m1 2 ;; Val m2)%res.
Proof. reflexivity. Qed.

(** On a board with three rows [getAvailableMoves] returns the empty cells in
    row-major order. *)
Lemma getAvailableMoves_spec b :
  rows3 b -> getAvailableMoves b = Val (filter (empty_at b) allCells).
Proof.
  intros Hb. rewrite getAvailableMoves_rows. cbv beta zeta.
  rewrite (getAvailableMoves_row b 0) by (assumption || lia). cbn [rbind].
  rewrite (getAvailableMoves_row b 1) by (assumption || lia). cbn [rbind].
  rewrite (getAvailableMoves_row b 2) by (assumption || lia). cbn [rbind].
  f_equal.
  change allCells with ([(0, 0); (0, 1); (0, 2)] ++
                        [(1, 0); (1, 1); (1, 2)] ++
                        [(2, 0); (2, 1); (2, 2)]).
  rewrite !filter_app, app_nil_l, <- app_assoc. reflexivity.
Qed.

Lemma getAvailableMoves_row_Val b row moves a :
  row_at b row = Some a ->
  exists moves',
    foldR (fun moves col =>
             (v <- cell b row col ;;
              Val (if strict_eq v "" then moves ++ [(row, col)]
                   else moves))%res)
          moves [0; 1; 2] = Val moves'.
Proof.
  intros Ha. simpl. unfold cell. rewrite Ha. simpl. eauto.
Qed.

(** [getAvailableMoves] returns only if the board has its three rows. *)
Lemma getAvailableMoves_rows3 b moves :
  getAvailableMoves b = Val moves -> rows3 b.
Proof.
  rewrite getAvailableMoves_rows. cbv beta zeta.
  destruct (row_at b 0) as [a0 |] eqn:H0;
    [| simpl; unfold cell; rewrite H0; discriminate].
  destruct (getAvailableMoves_row_Val b 0 [] a0 H0) as [m0 E0].
  rewrite E0. cbn [rbind].
  destruct (row_at b 1) as [a1 |] eqn:H1;
    [| simpl; unfold cell; rewrite H1; discriminate].
  destruct (getAvailableMoves_row_Val b 1 m0 a1 H1) as [m1 E1].
  rewrite E1. cbn [rbind].
  destruct (row_at b 2) as [a2 |] eqn:H2;
    [| simpl; unfold cell; rewrite H2; discriminate].
  intros _. unfold rows3. change (nth_error b 2 = Some a2) in H2.
  assert (Hn : nth_error b 2 <> None) by congruence.
  apply nth_error_Some in Hn. lia.
Qed.

Lemma getAvailableMoves_empty b moves m :
  getAvailableMoves b = Val moves -> In m moves ->
  In m allCells /\ empty_at b m = true.
Proof.
  intros H Hm. pose proof (getAvailableMoves_rows3 _ _ H) as Hb.
  rewrite (getAvailableMoves_spec b Hb) in H.
  assert (E : moves = filter (empty_at b) allCells) by congruence.
  rewrite E in Hm. apply filter_In in Hm. exact Hm.
Qed.

Lemma checkWin_wins b : rows3 b -> checkWin b = Val (wins b).
Proof.
  intros Hb. unfold checkWin, wins.
  apply someR_pure. intros combination Hc.
  assert (Hl : forall s,
             lineOf b s combination =
             Val (forallb (fun m => strict_eq (look b m) s) combination)).
  { intros s. unfold lineOf. apply everyR_pure. intros [row col] Hm.
    destruct (winningCombinations_range _ _ Hc Hm) as [Hr _].
    rewrite (cell_look b row col Hb Hr). reflexivity. }
  rewrite !Hl. simpl.
  destruct (forallb (fun m => strict_eq (look b m) "O") combination);
    reflexivity.
Qed.

Lemma strict_eq_true v s : strict_eq v s = true <-> v = Some s.
Proof.
  unfold strict_eq. destruct v as [t |].
  - rewrite String.eqb_eq. split; congruence.
  - split; discriminate.
Qed.

Lemma wins_has_line b : wins b = true <-> has_line b "O" \/ has_line b "X".
Proof.
  unfold wins, has_line. rewrite existsb_exists. split.
  - intros (combination & Hc & H). apply orb_true_iff in H.
    destruct H as [H | H]; [left | right]; exists combination;
      (split; [exact Hc |]); intros m Hm;
      rewrite forallb_forall in H; apply strict_eq_true; apply H; exact Hm.
  - intros [(combination & Hc & H) | (combination & Hc & H)];
      exists combination; (split; [exact Hc |]); apply orb_true_iff;
      [left | right]; apply forallb_forall; intros m Hm;
      apply strict_eq_true; apply H; exact Hm.
Qed.

(** ** Counting empty cells *)

Lemma filter_length_drop {A} (p q : A -> bool) (l : list A) (x : A) :
  NoDup l -> In x l -> q x = true -> p x = false ->
  (forall y, y <> x -> p y = q y) ->
  List.length (filter q l) = S (List.length (filter p l)).
Proof.
  intros Hnd Hin Hq Hp Hpq. induction Hnd as [| y l Hy Hnd IH].
  - contradiction.
  - destruct Hin as [-> | Hin].
    + simpl. rewrite Hq, Hp. simpl. f_equal. f_equal.
      apply filter_ext_in. intros z Hz. symmetry. apply Hpq.
      intros ->. contradiction.
    + assert (Hyx : y <> x) by (intros ->; contradiction).
      simpl. rewrite (Hpq y Hyx).
      destruct (q y); simpl; rewrite (IH Hin); reflexivity.
Qed.

Lemma move_eqb_eq (m m' : Move) :
  (fst m =? fst m') && (snd m =? snd m') = true <-> m = m'.
Proof.
  destruct m as [r c], m' as [r' c']. simpl.
  rewrite andb_true_iff, !Z.eqb_eq. split.
  - intros [-> ->]. reflexivity.
  - intros H. injection H as -> ->. split; reflexivity.
Qed.

Lemma empty_at_place_same m v b :
  empty_at b m = true -> v <> "" -> empty_at (place m v b) m = false.
Proof.
  intros He Hv. destruct (empty_at_row _ _ He) as [a Ha].
  unfold empty_at. rewrite (look_place m v b m a Ha), !Z.eqb_refl. simpl.
  apply String.eqb_neq. exact Hv.
Qed.

Lemma empty_at_place_other m v b m' :
  empty_at b m = true -> m' <> m ->
  empty_at (place m v b) m' = empty_at b m'.
Proof.
  intros He Hm. destruct (empty_at_row _ _ He) as [a Ha].
  unfold empty_at. rewrite (look_place m v b m' a Ha).
  destruct ((fst m =? fst m') && (snd m =? snd m')) eqn:E; [| reflexivity].
  apply move_eqb_eq in E. congruence.
Qed.

(** A move on an empty cell consumes exactly one empty cell. *)
Lemma count_empty_place m v b :
  In m allCells -> empty_at b m = true -> v <> "" ->
  count_empty b = S (count_empty (place m v b)).
Proof.
  intros Hin He Hv. unfold count_empty.
  apply (filter_length_drop _ _ _ m allCells_NoDup Hin He).
  - apply empty_at_place_same; assumption.
  - intros y Hy. apply empty_at_place_other; assumption.
Qed.

Lemma count_empty_le_9 b : (count_empty b <= 9)%nat.
Proof. unfold count_empty. apply (filter_length_le (empty_at b) allCells). Qed.

(** ** One move of the search: place, score, undo *)

Lemma tryMove_run sym search row col b :
  empty_at b (row, col) = true ->
  tryMove sym search row col b =
  match search (place (row, col) sym b) with
  | Ok s b2 => (setCell row col "" ;; ret s)%m b2
  | Throw e b2 => Throw e b2
  | OutOfFuel => OutOfFuel
  end.
Proof.
  intros He. destruct (empty_at_row _ _ He) as [a Ha]. simpl in Ha.
  unfold tryMove.
  rewrite (bind_Ok_run _ _ _ _ _ (setCell_place b row col sym a Ha)).
  unfold bind at 1. reflexivity.
Qed.

Lemma setCell_undo sym row col b :
  empty_at b (row, col) = true ->
  setCell row col "" (place (row, col) sym b) = Ok tt b.
Proof.
  intros He. destruct (empty_at_row _ _ He) as [a Ha]. simpl in Ha.
  assert (Ha' : row_at (place (row, col) sym b) row
                = Some (arr_set a col sym)).
  { rewrite row_at_place. simpl. rewrite Ha, Z.eqb_refl. reflexivity. }
  rewrite (setCell_place _ row col "" _ Ha').
  rewrite place_undo by exact He. reflexivity.
Qed.

(** If the search returns on the board with the mark placed and leaves it as
    it found it, the move is scored and the board is as before. *)
Lemma tryMove_Ok sym search row col b s :
  empty_at b (row, col) = true ->
  search (place (row, col) sym b) = Ok s (place (row, col) sym b) ->
  tryMove sym search row col b = Ok s b.
Proof.
  intros He Hs. rewrite (tryMove_run _ _ _ _ _ He), Hs.
  rewrite (bind_Ok_run _ _ _ _ _ (setCell_undo sym row col b He)).
  reflexivity.
Qed.

Lemma tryMove_Ok_inv sym search row col b s b' :
  empty_at b (row, col) = true ->
  (forall s2 b2, search (place (row, col) sym b) = Ok s2 b2 ->
                 b2 = place (row, col) sym b) ->
  tryMove sym search row col b = Ok s b' ->
  b' = b /\ search (place (row, col) sym b) = Ok s (place (row, col) sym b).
Proof.
  intros He Hfr. rewrite (tryMove_run _ _ _ _ _ He).
  destruct (search (place (row, col) sym b)) as [s2 b2 | e b2 |] eqn:Hs;
    try discriminate.
  pose proof (Hfr _ _ eq_refl) as ->.
  rewrite (bind_Ok_run _ _ _ _ _ (setCell_undo sym row col b He)).
  unfold ret. intros H. injection H as -> ->. split; reflexivity.
Qed.

Lemma tryMove_mono sym (search search' : M Board num) row col b s b' :
  (forall b0 s0 b1, search b0 = Ok s0 b1 -> search' b0 = Ok s0 b1) ->
  tryMove sym search row col b = Ok s b' ->
  tryMove sym search' row col b = Ok s b'.
Proof.
  intros Hm. unfold tryMove. intros H.
  apply bind_Ok_inv in H. destruct H as (u & b1 & H1 & H).
  apply bind_Ok_inv in H. destruct H as (s1 & b2 & H2 & H).
  rewrite (bind_Ok_run _ _ _ _ _ H1).
  rewrite (bind_Ok_run _ _ _ _ _ (Hm _ _ _ H2)).
  exact H.
Qed.

(** ** Unfolding the search *)

Lemma minimax_S fuel depth isMaximizing aiSymbol playerSymbol b :
  minimax (S fuel) depth isMaximizing aiSymbol playerSymbol b =
  match checkWin b with
  | Err e => Throw e b
  | Val true =>
      Ok (if isMaximizing then Fin (-10 + depth) else Fin (10 - depth)) b
  | Val false =>
      if isDraw b then Ok (Fin 0) b
      else
        match getAvailableMoves b with
        | Err e => Throw e b
        | Val availableMoves =>
            foldM (minimaxBody isMaximizing
                               (if isMaximizing then aiSymbol
                                else playerSymbol)
                               (minimax fuel (depth + 1) (negb isMaximizing)
                                        aiSymbol playerSymbol))
                  (if isMaximizing then NegInf else PosInf)
                  availableMoves b
        end
  end.
Proof.
  cbn [minimax]. unfold bind at 1, liftR at 1.
  destruct (checkWin b) as [[|] | e]; try reflexivity.
  unfold bind at 1, liftR at 1.
  destruct (isDraw b); try reflexivity.
  unfold bind at 1, liftR at 1.
  destruct (getAvailableMoves b) as [availableMoves | e]; reflexivity.
Qed.

Lemma getBestMove_run fuel aiSymbol b :
  getBestMove fuel aiSymbol b =
  match getAvailableMoves b with
  | Err e => Throw e b
  | Val availableMoves =>
      match foldM (bestMoveBody aiSymbol
                                (minimax fuel 0 false aiSymbol
                                         (opponentOf aiSymbol)))
                  ((-1, -1), NegInf) availableMoves b with
      | Ok best b' => Ok (fst best) b'
      | Throw e b' => Throw e b'
      | OutOfFuel => OutOfFuel
      end
  end.
Proof.
  unfold getBestMove. unfold bind at 1, liftR at 1.
  destruct (getAvailableMoves b) as [availableMoves | e]; reflexivity.
Qed.

(** ** The two loops *)

Lemma foldM_ext {St A B} (f f' : A -> B -> M St A) l :
  (forall a x s, f a x s = f' a x s) ->
  forall a s, foldM f a l s = foldM f' a l s.
Proof.
  intros Hf. induction l as [| x l IH]; intros a s; simpl.
  - reflexivity.
  - unfold bind. rewrite Hf. destruct (f' a x s); try reflexivity. apply IH.
Qed.

Lemma minimaxBody_scored isMaximizing sym search acc m b :
  minimaxBody isMaximizing sym search acc m b =
  scoredLoop (fun score best _ =>
                if isMaximizing then num_max score best
                else num_min score best) sym search acc m b.
Proof. destruct m. reflexivity. Qed.

Lemma bestMoveBody_scored sym search acc m b :
  bestMoveBody sym search acc m b =
  scoredLoop (fun score best m =>
                if num_gt score (snd best) then (m, score) else best)
             sym search acc m b.
Proof. destruct acc, m. reflexivity. Qed.

Section ScoredLoop.

Context {A : Type} (g : num -> A -> Move -> A).
Variables (sym : string) (search : M Board num) (b : Board).

(** If the search returns on every move of the list and leaves its board
    as it found it, the loop is the fold of the scores and the board is
    unchanged. *)
Lemma scoredLoop_pure (sc : Move -> num) moves :
  (forall m, In m moves ->
             empty_at b m = true /\
             search (place m sym b) = Ok (sc m) (place m sym b)) ->
  forall acc,
    foldM (scoredLoop g sym search) acc moves b =
    Ok (fold_left (fun acc m => g (sc m) acc m) moves acc) b.
Proof.
  intros H. apply foldM_pure. intros acc [row col] Hin.
  destruct (H _ Hin) as [He Hs]. unfold scoredLoop. simpl fst. simpl snd.
  rewrite (bind_Ok_run _ _ _ _ _ (tryMove_Ok _ _ _ _ _ _ He Hs)).
  reflexivity.
Qed.

(** Conversely, a loop that returned scored every move, combined the scores
    in order, and left the board unchanged. *)
Lemma scoredLoop_inv moves :
  (forall m s2 b2, In m moves -> search (place m sym b) = Ok s2 b2 ->
                   b2 = place m sym b) ->
  (forall m, In m moves -> empty_at b m = true) ->
  forall acc r b',
    foldM (scoredLoop g sym search) acc moves b = Ok r b' ->
    b' = b /\
    r = fold_left (fun acc m => g (scoreAfter sym search b m) acc m)
                  moves acc /\
    forall m, In m moves ->
              search (place m sym b)
              = Ok (scoreAfter sym search b m) (place m sym b).
Proof.
  induction moves as [| [row col] moves IH]; intros Hfr He acc r b' H.
  - simpl in H. unfold ret in H. injection H as -> ->.
    repeat split. intros m [].
  - simpl in H. apply bind_Ok_inv in H. destruct H as (a1 & b1 & H1 & H2).
    unfold scoredLoop in H1. simpl fst in H1. simpl snd in H1.
    apply bind_Ok_inv in H1. destruct H1 as (s1 & b1' & Ht & Hr).
    unfold ret in Hr. injection Hr as <- <-.
    apply tryMove_Ok_inv in Ht;
      [| apply He; left; reflexivity
       | intros s2 b2; apply Hfr; left; reflexivity].
    destruct Ht as [-> Hs].
    assert (Hsc : scoreAfter sym search b (row, col) = s1).
    { unfold scoreAfter. rewrite Hs. reflexivity. }
    apply IH in H2;
      [| intros m s2 b2 Hm; apply Hfr; right; exact Hm
       | intros m Hm; apply He; right; exact Hm].
    destruct H2 as (-> & -> & Hall).
    split; [reflexivity |]. split.
    + simpl. rewrite Hsc. reflexivity.
    + intros m [<- | Hm]; [rewrite Hsc; exact Hs | apply Hall; exact Hm].
Qed.

End ScoredLoop.

Lemma scoredLoop_mono {A} (g : num -> A -> Move -> A) sym
      (search search' : M Board num) :
  (forall b0 s0 b1, search b0 = Ok s0 b1 -> search' b0 = Ok s0 b1) ->
  forall acc m b r b',
    scoredLoop g sym search acc m b = Ok r b' ->
    scoredLoop g sym search' acc m b = Ok r b'.
Proof.
  intros Hm acc m b r b' H. unfold scoredLoop in *.
  apply bind_Ok_inv in H. destruct H as (s1 & b1 & Ht & Hr).
  rewrite (bind_Ok_run _ _ _ _ _ (tryMove_mono _ _ _ _ _ _ _ _ Hm Ht)).
  exact Hr.
Qed.

(** ** The search leaves the board as it found it *)

Lemma minimax_frame fuel :
  forall depth isMaximizing aiSymbol playerSymbol b s b',
    minimax fuel depth isMaximizing aiSymbol playerSymbol b = Ok s b' ->
    b' = b.
Proof.
  induction fuel as [| fuel IH];
    intros depth isMaximizing aiSymbol playerSymbol b s b' H.
  - discriminate.
  - rewrite minimax_S in H.
    destruct (checkWin b) as [[|] | e]; try discriminate.
    { injection H as _ <-. reflexivity. }
    destruct (isDraw b).
    { injection H as _ <-. reflexivity. }
    destruct (getAvailableMoves b) as [moves | e] eqn:Hmoves;
      try discriminate.
    rewrite (foldM_ext _ _ _ (minimaxBody_scored _ _ _)) in H.
    apply scoredLoop_inv in H.
    + apply H.
    + intros m s2 b2 _ Hs. apply (IH _ _ _ _ _ _ _ Hs).
    + intros m Hm. apply (getAvailableMoves_empty b moves m Hmoves Hm).
Qed.

Lemma getBestMove_frame fuel aiSymbol b m b' :
  getBestMove fuel aiSymbol b = Ok m b' -> b' = b.
Proof.
  rewrite getBestMove_run.
  destruct (getAvailableMoves b) as [moves | e] eqn:Hmoves; try discriminate.
  destruct (foldM _ _ moves b) as [best b1 | e b1 |] eqn:Hloop;
    try discriminate.
  intros H. injection H as _ <-.
  rewrite (foldM_ext _ _ _ (bestMoveBody_scored _ _)) in Hloop.
  apply scoredLoop_inv in Hloop.
  - apply Hloop.
  - intros m0 s2 b2 _ Hs. apply (minimax_frame _ _ _ _ _ _ _ _ Hs).
  - intros m0 Hm. apply (getAvailableMoves_empty b moves m0 Hmoves Hm).
Qed.

(** ** More fuel does not change a result *)

Lemma minimax_mono fuel :
  forall fuel' depth isMaximizing aiSymbol playerSymbol b s b',
    (fuel <= fuel')%nat ->
    minimax fuel depth isMaximizing aiSymbol playerSymbol b = Ok s b' ->
    minimax fuel' depth isMaximizing aiSymbol playerSymbol b = Ok s b'.
Proof.
  induction fuel as [| fuel IH];
    intros fuel' depth isMaximizing aiSymbol playerSymbol b s b' Hle H.
  - discriminate.
  - destruct fuel' as [| fuel']; [lia |].
    rewrite minimax_S in *.
    destruct (checkWin b) as [[|] | e]; try exact H.
    destruct (isDraw b); try exact H.
    destruct (getAvailableMoves b) as [moves | e]; try exact H.
    rewrite (foldM_ext _ _ _ (minimaxBody_scored _ _ _)) in H.
    rewrite (foldM_ext _ _ _ (minimaxBody_scored _ _ _)).
    revert H. apply foldM_mono. apply scoredLoop_mono.
    intros b0 s0 b1. apply IH. lia.
Qed.

Lemma getBestMove_mono fuel fuel' aiSymbol b m b' :
  (fuel <= fuel')%nat ->
  getBestMove fuel aiSymbol b = Ok m b' ->
  getBestMove fuel' aiSymbol b = Ok m b'.
Proof.
  intros Hle. rewrite !getBestMove_run.
  destruct (getAvailableMoves b) as [moves | e]; try discriminate.
  destruct (foldM _ _ moves b) as [best b1 | e b1 |] eqn:Hloop;
    try discriminate.
  intros H. injection H as <- <-.
  rewrite (foldM_ext _ _ _ (bestMoveBody_scored _ _)) in Hloop.
  rewrite (foldM_ext _ _ _ (bestMoveBody_scored _ _)).
  eapply foldM_mono in Hloop.
  - rewrite Hloop. reflexivity.
  - apply scoredLoop_mono. intros b0 s0 b2. apply minimax_mono. exact Hle.
Qed.

(** ** The search returns *)

Lemma minimax_total fuel :
  forall depth isMaximizing aiSymbol playerSymbol b,
    rows3 b -> aiSymbol <> "" -> playerSymbol <> "" ->
    (count_empty b < fuel)%nat ->
    exists s,
      minimax fuel depth isMaximizing aiSymbol playerSymbol b = Ok s b.
Proof.
  induction fuel as [| fuel IH];
    intros depth isMaximizing aiSymbol playerSymbol b Hb Hai Hpl Hfuel.
  - lia.
  - rewrite minimax_S, (checkWin_wins b Hb).
    destruct (wins b); [eauto |].
    destruct (isDraw b); [eauto |].
    rewrite (getAvailableMoves_spec b Hb).
    rewrite (foldM_ext _ _ _ (minimaxBody_scored _ _ _)).
    eexists. apply scoredLoop_pure with
      (sc := scoreAfter (if isMaximizing then aiSymbol else playerSymbol)
                        (minimax fuel (depth + 1) (negb isMaximizing)
                                 aiSymbol playerSymbol) b).
    intros m Hm. apply filter_In in Hm. destruct Hm as [Hin He].
    split; [exact He |].
    set (sym := if isMaximizing then aiSymbol else playerSymbol).
    assert (Hsym : sym <> "") by (subst sym; destruct isMaximizing; assumption).
    destruct (IH (depth + 1) (negb isMaximizing) aiSymbol playerSymbol
                 (place m sym b)) as [s Hs]; try assumption.
    + apply rows3_place. exact Hb.
    + pose proof (count_empty_place m sym b Hin He Hsym). lia.
    + unfold scoreAfter. rewrite Hs. reflexivity.
Qed.

(** On a board of any shape the search ends, by a return or by a
    [TypeError]: without its three rows the board makes [getAvailableMoves]
    throw before any recursive call. *)
Lemma minimax_ends fuel depth isMaximizing aiSymbol playerSymbol b :
  aiSymbol <> "" -> playerSymbol <> "" -> (count_empty b < fuel)%nat ->
  minimax fuel depth isMaximizing aiSymbol playerSymbol b <> OutOfFuel.
Proof.
  intros Hai Hpl Hfuel.
  destruct (le_lt_dec 3 (List.length b)) as [Hb | Hb].
  - destruct (minimax_total fuel depth isMaximizing aiSymbol playerSymbol b
                            Hb Hai Hpl Hfuel) as [s Hs].
    rewrite Hs. discriminate.
  - destruct fuel as [| fuel]; [lia |]. rewrite minimax_S.
    destruct (checkWin b) as [[|] | e]; try discriminate.
    destruct (isDraw b); try discriminate.
    destruct (getAvailableMoves b) as [moves | e] eqn:Hmoves;
      [| discriminate].
    apply getAvailableMoves_rows3 in Hmoves. unfold rows3 in Hmoves. lia.
Qed.

Lemma opponentOf_nonempty aiSymbol : opponentOf aiSymbol <> "".
Proof. unfold opponentOf. destruct (String.eqb aiSymbol "X"); discriminate. Qed.

(** [getBestMove] returns, its move being the pure fold of the scores. *)
Lemma getBestMove_total fuel aiSymbol b :
  rows3 b -> aiSymbol <> "" -> (count_empty b <= fuel)%nat ->
  getBestMove fuel aiSymbol b =
  Ok (fst (fold_left
             (bestMovePick
                (scoreAfter aiSymbol
                            (minimax fuel 0 false aiSymbol
                                     (opponentOf aiSymbol)) b))
             (filter (empty_at b) allCells) ((-1, -1), NegInf)))
     b.
Proof.
  intros Hb Hai Hfuel. rewrite getBestMove_run.
  rewrite (getAvailableMoves_spec b Hb).
  rewrite (foldM_ext _ _ _ (bestMoveBody_scored _ _)).
  rewrite scoredLoop_pure with
    (sc := scoreAfter aiSymbol
                      (minimax fuel 0 false aiSymbol (opponentOf aiSymbol)) b).
  - reflexivity.
  - intros m Hm. apply filter_In in Hm. destruct Hm as [Hin He].
    split; [exact He |].
    destruct (minimax_total fuel 0 false aiSymbol (opponentOf aiSymbol)
                            (place m aiSymbol b)) as [s Hs];
      try assumption.
    + apply rows3_place. exact Hb.
    + apply opponentOf_nonempty.
    + pose proof (count_empty_place m aiSymbol b Hin He Hai). lia.
    + unfold scoreAfter. rewrite Hs. reflexivity.
Qed.

Lemma getBestMove_ends fuel aiSymbol b :
  aiSymbol <> "" -> (count_empty b <= fuel)%nat ->
  getBestMove fuel aiSymbol b <> OutOfFuel.
Proof.
  intros Hai Hfuel.
  destruct (le_lt_dec 3 (List.length b)) as [Hb | Hb].
  - rewrite (getBestMove_total fuel aiSymbol b Hb Hai Hfuel). discriminate.
  - rewrite getBestMove_run.
    destruct (getAvailableMoves b) as [moves | e] eqn:Hmoves;
      [| discriminate].
    apply getAvailableMoves_rows3 in Hmoves. unfold rows3 in Hmoves. lia.
Qed.

(** ** 3x3 boards *)

Lemma is3x3_rows3 b : is3x3 b -> rows3 b.
Proof.
  intros (a0 & a1 & a2 & -> & _). unfold rows3. simpl. lia.
Qed.

Lemma is_row3_set a c v : is_row3 a -> 0 <= c <= 2 -> is_row3 (arr_set a c v).
Proof.
  intros (x & y & z & Ha) Hc. unfold is_row3, arr_set.
  assert (E : is_index c = true) by (apply is_index_range; lia).
  rewrite E.
  simpl. rewrite Ha.
  assert (Hcases : c = 0 \/ c = 1 \/ c = 2) by lia.
  destruct Hcases as [-> | [-> | ->]]; simpl; eauto.
Qed.

Lemma is3x3_place m v b : is3x3 b -> In m allCells -> is3x3 (place m v b).
Proof.
  intros (a0 & a1 & a2 & -> & H0 & H1 & H2) Hm.
  destruct (allCells_range m Hm) as [Hr Hc]. destruct m as [r c].
  simpl in Hr, Hc.
  assert (Hcases : r = 0 \/ r = 1 \/ r = 2) by lia.
  unfold is3x3, place.
  destruct Hcases as [-> | [-> | ->]]; simpl;
    do 3 eexists; (split; [reflexivity |]);
    repeat split; try assumption; apply is_row3_set; assumption.
Qed.

(** On a 3x3 board that is not full some cell of the grid is empty. *)
Lemma is3x3_not_full b :
  is3x3 b -> isDraw b = false -> filter (empty_at b) allCells <> [].
Proof.
  intros (a0 & a1 & a2 & -> & H0 & H1 & H2) Hd.
  destruct a0 as [e0 p0], a1 as [e1 p1], a2 as [e2 p2].
  destruct H0 as (x0 & y0 & z0 & E0), H1 as (x1 & y1 & z1 & E1),
           H2 as (x2 & y2 & z2 & E2).
  simpl in E0, E1, E2. subst e0 e1 e2.
  unfold isDraw, arr_every in Hd. simpl in Hd.
  assert (Hex : exists m, In m allCells /\
                          empty_at [mkArr [Some x0; Some y0; Some z0] p0;
                                    mkArr [Some x1; Some y1; Some z1] p1;
                                    mkArr [Some x2; Some y2; Some z2] p2] m
                          = true).
  { unfold empty_at, look, cell, allCells.
    destruct (String.eqb x0 "") eqn:A0;
      [exists (0, 0); split; [simpl; tauto | exact A0] |].
    destruct (String.eqb y0 "") eqn:A1;
      [exists (0, 1); split; [simpl; tauto | exact A1] |].
    destruct (String.eqb z0 "") eqn:A2;
      [exists (0, 2); split; [simpl; tauto | exact A2] |].
    destruct (String.eqb x1 "") eqn:A3;
      [exists (1, 0); split; [simpl; tauto | exact A3] |].
    destruct (String.eqb y1 "") eqn:A4;
      [exists (1, 1); split; [simpl; tauto | exact A4] |].
    destruct (String.eqb z1 "") eqn:A5;
      [exists (1, 2); split; [simpl; tauto | exact A5] |].
    destruct (String.eqb x2 "") eqn:A6;
      [exists (2, 0); split; [simpl; tauto | exact A6] |].
    destruct (String.eqb y2 "") eqn:A7;
      [exists (2, 1); split; [simpl; tauto | exact A7] |].
    destruct (String.eqb z2 "") eqn:A8;
      [exists (2, 2); split; [simpl; tauto | exact A8] |].
    simpl in Hd. discriminate. }
  destruct Hex as (m & Hin & He). intros Hnil.
  assert (Hf : In m (filter (empty_at _) allCells))
    by (apply filter_In; split; [exact Hin | exact He]).
  rewrite Hnil in Hf. exact Hf.
Qed.

(** ** Scores are finite *)

Lemma minimaxPick_Fin isMaximizing sc moves :
  (forall m, In m moves -> exists z, sc m = Fin z) ->
  forall z0, exists z,
    fold_left (minimaxPick isMaximizing sc) moves (Fin z0) = Fin z.
Proof.
  induction moves as [| m moves IH]; intros Hsc z0; simpl.
  - eauto.
  - destruct (Hsc m (or_introl eq_refl)) as [z Hz].
    assert (Hstep : exists z1, minimaxPick isMaximizing sc (Fin z0) m = Fin z1).
    { unfold minimaxPick, num_max, num_min. rewrite Hz. simpl.
      destruct isMaximizing, (z <=? z0); eauto. }
    destruct Hstep as [z1 ->]. apply IH.
    intros m' Hm'. apply Hsc. right. exact Hm'.
Qed.

Lemma minimaxPick_init_Fin isMaximizing sc moves :
  (forall m, In m moves -> exists z, sc m = Fin z) ->
  moves <> [] ->
  exists z,
    fold_left (minimaxPick isMaximizing sc) moves
              (if isMaximizing then NegInf else PosInf) = Fin z.
Proof.
  intros Hsc Hne. destruct moves as [| m moves]; [congruence |].
  simpl. destruct (Hsc m (or_introl eq_refl)) as [z Hz].
  assert (Hstep : minimaxPick isMaximizing sc
                              (if isMaximizing then NegInf else PosInf) m
                  = Fin z).
  { unfold minimaxPick. rewrite Hz. destruct isMaximizing; reflexivity. }
  rewrite Hstep. apply minimaxPick_Fin.
  intros m' Hm'. apply Hsc. right. exact Hm'.
Qed.

Lemma minimax_finite fuel :
  forall depth isMaximizing aiSymbol playerSymbol b s b',
    is3x3 b ->
    minimax fuel depth isMaximizing aiSymbol playerSymbol b = Ok s b' ->
    exists z, s = Fin z.
Proof.
  induction fuel as [| fuel IH];
    intros depth isMaximizing aiSymbol playerSymbol b s b' Hb H.
  - discriminate.
  - pose proof (is3x3_rows3 b Hb) as Hb3.
    rewrite minimax_S, (checkWin_wins b Hb3) in H.
    destruct (wins b).
    { injection H as <- _. destruct isMaximizing; eauto. }
    destruct (isDraw b) eqn:Hd.
    { injection H as <- _. eauto. }
    rewrite (getAvailableMoves_spec b Hb3) in H.
    rewrite (foldM_ext _ _ _ (minimaxBody_scored _ _ _)) in H.
    apply scoredLoop_inv in H.
    + destruct H as (_ & -> & Hall).
      apply (minimaxPick_init_Fin isMaximizing).
      * intros m Hm. pose proof (Hall m Hm) as Hs.
        apply IH in Hs; [exact Hs |].
        apply is3x3_place; [exact Hb |].
        apply filter_In in Hm. apply Hm.
      * apply is3x3_not_full; assumption.
    + intros m s2 b2 _ Hs. apply (minimax_frame _ _ _ _ _ _ _ _ Hs).
    + intros m Hm. apply filter_In in Hm. apply Hm.
Qed.

(** ** Choosing the move *)

Lemma num_le_trans a b c :
  num_le a b = true -> num_le b c = true -> num_le a c = true.
Proof.
  destruct a, b, c; simpl; try congruence.
  rewrite !Z.leb_le. lia.
Qed.

Lemma num_gt_le_trans a b c :
  num_gt a b = true -> num_le c b = true -> num_gt a c = true.
Proof.
  unfold num_gt. rewrite !negb_true_iff.
  destruct a, b, c; simpl; try congruence.
  rewrite Z.leb_le, !Z.leb_gt. lia.
Qed.

Lemma num_gt_trans a b c :
  num_gt a b = true -> num_gt b c = true -> num_gt a c = true.
Proof.
  unfold num_gt. rewrite !negb_true_iff.
  destruct a, b, c; simpl; try congruence.
  rewrite !Z.leb_gt. lia.
Qed.

Lemma num_gt_false a b : num_gt a b = false -> num_le a b = true.
Proof. unfold num_gt. apply negb_false_iff. Qed.

Lemma first_max_one sc m : first_max sc [m] m.
Proof.
  exists [], []. split; [reflexivity |]. split; intros x [].
Qed.

(** One iteration of the loop of [getBestMove] keeps the first maximum. *)
Lemma first_max_step sc l m x :
  first_max sc l m ->
  first_max sc (l ++ [x]) (fst (bestMovePick sc (m, sc m) x)) /\
  snd (bestMovePick sc (m, sc m) x) = sc (fst (bestMovePick sc (m, sc m) x)).
Proof.
  intros (pre & post & -> & Hpre & Hpost). unfold bestMovePick. simpl snd.
  destruct (num_gt (sc x) (sc m)) eqn:E; simpl.
  - split; [| reflexivity].
    exists (pre ++ m :: post), []. split; [reflexivity |]. split.
    + intros y Hy. apply in_app_or in Hy. destruct Hy as [Hy | [<- | Hy]].
      * apply (num_gt_trans _ (sc m)); [exact E | apply Hpre; exact Hy].
      * exact E.
      * apply (num_gt_le_trans _ (sc m)); [exact E | apply Hpost; exact Hy].
    + intros y [].
  - split; [| reflexivity].
    exists pre, (post ++ [x]). split.
    + rewrite <- app_assoc. reflexivity.
    + split; [exact Hpre |].
      intros y Hy. apply in_app_or in Hy. destruct Hy as [Hy | [<- | []]].
      * apply Hpost. exact Hy.
      * apply num_gt_false. exact E.
Qed.

Lemma first_max_fold sc l2 :
  forall l m,
    first_max sc l m ->
    first_max sc (l ++ l2) (fst (fold_left (bestMovePick sc) l2 (m, sc m))).
Proof.
  induction l2 as [| x l2 IH]; intros l m H.
  - rewrite app_nil_r. exact H.
  - simpl fold_left.
    destruct (first_max_step sc l m x H) as [Hstep Hsnd].
    destruct (bestMovePick sc (m, sc m) x) as [m1 s1] eqn:E.
    simpl in Hstep, Hsnd. subst s1.
    change (l ++ x :: l2) with (l ++ [x] ++ l2). rewrite app_assoc.
    apply IH. exact Hstep.
Qed.

(** Started from [[-1, -1]] and [-Infinity], the loop of [getBestMove] over
    finite scores returns the first maximum. *)
Lemma bestMovePick_first_max sc moves :
  (forall x, In x moves -> exists z, sc x = Fin z) ->
  moves <> [] ->
  first_max sc moves
            (fst (fold_left (bestMovePick sc) moves ((-1, -1), NegInf))).
Proof.
  intros Hfin Hne. destruct moves as [| x moves]; [congruence |].
  simpl fold_left.
  assert (E : bestMovePick sc ((-1, -1), NegInf) x = (x, sc x)).
  { unfold bestMovePick. simpl snd.
    destruct (Hfin x (or_introl eq_refl)) as [z ->]. reflexivity. }
  rewrite E. apply (first_max_fold sc moves [x] x). apply first_max_one.
Qed.

(** ** Who completed the line *)

Lemma has_line_before b m sym s :
  empty_at b m = true -> s <> sym ->
  has_line (place m sym b) s -> has_line b s.
Proof.
  intros He Hs (combination & Hc & Hl).
  destruct (empty_at_row _ _ He) as [a Ha].
  exists combination. split; [exact Hc |].
  intros x Hx. pose proof (Hl x Hx) as Hlx.
  rewrite (look_place m sym b x a Ha) in Hlx.
  destruct ((fst m =? fst x) && (snd m =? snd x)); [congruence | exact Hlx].
Qed.

Lemma checkWin_false_no_line b s :
  rows3 b -> checkWin b = Val false -> s = "O" \/ s = "X" -> ~ has_line b s.
Proof.
  intros Hb Hw Hs Hl. rewrite (checkWin_wins b Hb) in Hw.
  assert (Hwins : wins b = true).
  { apply wins_has_line. destruct Hs as [-> | ->]; [left | right]; exact Hl. }
  congruence.
Qed.

Lemma has_line_checkWin b s :
  rows3 b -> s = "O" \/ s = "X" -> has_line b s -> checkWin b = Val true.
Proof.
  intros Hb Hs Hl. rewrite (checkWin_wins b Hb). f_equal.
  apply wins_has_line. destruct Hs as [-> | ->]; [left | right]; exact Hl.
Qed.

(** ** Full boards *)

Lemma isDraw_full b :
  is3x3 b -> isDraw b = true ->
  forall m, In m allCells -> empty_at b m = false.
Proof.
  intros (a0 & a1 & a2 & -> & H0 & H1 & H2) Hd.
  destruct a0 as [e0 p0], a1 as [e1 p1], a2 as [e2 p2].
  destruct H0 as (x0 & y0 & z0 & E0), H1 as (x1 & y1 & z1 & E1),
           H2 as (x2 & y2 & z2 & E2).
  simpl in E0, E1, E2. subst e0 e1 e2.
  unfold isDraw, arr_every in Hd. simpl in Hd.
  rewrite !andb_true_iff, !negb_true_iff in Hd.
  intros m Hm. unfold allCells in Hm. simpl in Hm.
  unfold empty_at, look, cell.
  repeat (destruct Hm as [Hm | Hm]; [subst m; simpl; tauto |]).
  contradiction.
Qed.

Lemma full_isDraw b :
  is3x3 b -> (forall m, In m allCells -> empty_at b m = false) ->
  isDraw b = true.
Proof.
  intros Hb Hfull. destruct (isDraw b) eqn:Hd; [reflexivity |].
  exfalso. apply (is3x3_not_full b Hb Hd).
  destruct (filter (empty_at b) allCells) as [| m l] eqn:E; [reflexivity |].
  assert (Hin : In m (filter (empty_at b) allCells))
    by (rewrite E; left; reflexivity).
  apply filter_In in Hin. destruct Hin as [Hin He].
  rewrite (Hfull m Hin) in He. discriminate.
Qed.

Lemma full_no_moves b :
  (forall m, In m allCells -> empty_at b m = false) ->
  filter (empty_at b) allCells = [].
Proof.
  intros Hfull. destruct (filter (empty_at b) allCells) as [| m l] eqn:E;
    [reflexivity |].
  assert (Hin : In m (filter (empty_at b) allCells))
    by (rewrite E; left; reflexivity).
  apply filter_In in Hin. destruct Hin as [Hin He].
  rewrite (Hfull m Hin) in He. discriminate.
Qed.

(** ** The component *)

Lemma set_grid_same this : set_grid (grid this) this = this.
Proof. destruct this. reflexivity. Qed.

Lemma constructor_newComponent : constructor = Ok tt newComponent.
Proof. reflexivity. Qed.

Lemma humanO_setup :
  (selectPlayer "O" ;; setGameMode "single")%m newComponent = Ok tt humanO.
Proof. reflexivity. Qed.

Lemma twoHumans_setup :
  (selectPlayer "X" ;; setGameMode "multi" ;; startGame 0)%m newComponent
  = Ok tt twoHumans.
Proof. reflexivity. Qed.

Lemma centreTaken_setup : makeMove 0 1 1 twoHumans = Ok tt centreTaken.
Proof. reflexivity. Qed.

Lemma aiMove_chosen fuel this m :
  getBestMove fuel (if String.eqb (selectedPlayer this) "X" then "O" else "X")
              (grid this) = Ok m (grid this) ->
  aiMove fuel this =
  aiPlace (if String.eqb (selectedPlayer this) "X" then "O" else "X") m this.
Proof.
  intros H. unfold aiMove. unfold bind at 1, this_ at 1.
  unfold bind at 1, onGrid at 1. rewrite H. rewrite set_grid_same.
  reflexivity.
Qed.

(** The opening position of the search: every first move is a draw, and
    the first cell is taken. *)
Lemma getBestMove_emptyGrid : getBestMove 9 "X" emptyGrid = Ok (0, 0) emptyGrid.
Proof. vm_cast_no_check (@eq_refl _ (@Ok Board Move (0, 0) emptyGrid)). Qed.

(** With the human on O in single mode, [startGame] lets the automated side
    move and then resets. *)
Lemma startGame_single_O fuel this :
  gameMode this = "single" -> selectedPlayer this = "O" ->
  startGame fuel this =
  (aiMove fuel ;; resetGame)%m
    (set_currentPlayer "X" (set_gameStarted true this)).
Proof.
  intros Hm Hp. destruct this as [g cp st sp started mode].
  simpl in Hm, Hp. subst mode sp. reflexivity.
Qed.

Lemma resetGame_grid this : exists this', resetGame this = Ok tt this' /\
                                         grid this' = emptyGrid.
Proof. eexists. split; reflexivity. Qed.

Lemma aiMove_opening :
  aiMove 9 (set_currentPlayer "X" (set_gameStarted true humanO)) =
  Ok tt (mkComponent [row3 "X" "" ""; emptyRow; emptyRow]
                     "O" "Playing" "O" true "single").
Proof.
  pose proof (aiMove_chosen
                9 (set_currentPlayer "X" (set_gameStarted true humanO))
                (0, 0)) as H.
  change (getBestMove 9 "X" emptyGrid = Ok (0, 0) emptyGrid ->
          aiMove 9 (set_currentPlayer "X" (set_gameStarted true humanO)) =
          aiPlace "X" (0, 0)
                  (set_currentPlayer "X" (set_gameStarted true humanO))) in H.
  rewrite (H getBestMove_emptyGrid). reflexivity.
Qed.

Lemma startGame_humanO :
  startGame 9 humanO =
  Ok tt (mkComponent emptyGrid "O" "Playing" "O" true "single").
Proof.
  rewrite startGame_single_O by reflexivity.
  unfold bind at 1. rewrite aiMove_opening. reflexivity.
Qed.

(** ** The value of a position *)

Lemma extremum_one isMaximizing sc x z :
  sc x = Fin z -> extremum isMaximizing sc [x] z.
Proof.
  intros Hx. split.
  - exists x. split; [left; reflexivity | exact Hx].
  - intros m [<- | []]. exists z. split; [exact Hx |].
    destruct isMaximizing; lia.
Qed.

Lemma extremum_step isMaximizing sc l z x zx :
  extremum isMaximizing sc l z -> sc x = Fin zx ->
  exists z',
    minimaxPick isMaximizing sc (Fin z) x = Fin z' /\
    extremum isMaximizing sc (l ++ [x]) z'.
Proof.
  intros [(m0 & Hm0 & Hz0) Hall] Hx.
  unfold minimaxPick, num_max, num_min. rewrite Hx. simpl.
  destruct isMaximizing.
  - destruct (zx <=? z) eqn:E.
    + apply Z.leb_le in E. exists z. split; [reflexivity |]. split.
      * exists m0. split; [apply in_or_app; left; exact Hm0 | exact Hz0].
      * intros m Hm. apply in_app_or in Hm. destruct Hm as [Hm | [<- | []]].
        -- apply Hall. exact Hm.
        -- exists zx. split; [exact Hx | exact E].
    + apply Z.leb_gt in E. exists zx. split; [reflexivity |]. split.
      * exists x. split; [apply in_or_app; right; left; reflexivity | exact Hx].
      * intros m Hm. apply in_app_or in Hm. destruct Hm as [Hm | [<- | []]].
        -- destruct (Hall m Hm) as (zm & Hzm & Hle). exists zm.
           split; [exact Hzm | lia].
        -- exists zx. split; [exact Hx | lia].
  - destruct (zx <=? z) eqn:E.
    + apply Z.leb_le in E. exists zx. split; [reflexivity |]. split.
      * exists x. split; [apply in_or_app; right; left; reflexivity | exact Hx].
      * intros m Hm. apply in_app_or in Hm. destruct Hm as [Hm | [<- | []]].
        -- destruct (Hall m Hm) as (zm & Hzm & Hle). exists zm.
           split; [exact Hzm | lia].
        -- exists zx. split; [exact Hx | lia].
    + apply Z.leb_gt in E. exists z. split; [reflexivity |]. split.
      * exists m0. split; [apply in_or_app; left; exact Hm0 | exact Hz0].
      * intros m Hm. apply in_app_or in Hm. destruct Hm as [Hm | [<- | []]].
        -- apply Hall. exact Hm.
        -- exists zx. split; [exact Hx | lia].
Qed.

Lemma extremum_fold isMaximizing sc l2 :
  (forall m, In m l2 -> exists z, sc m = Fin z) ->
  forall l z,
    extremum isMaximizing sc l z ->
    exists z',
      fold_left (minimaxPick isMaximizing sc) l2 (Fin z) = Fin z' /\
      extremum isMaximizing sc (l ++ l2) z'.
Proof.
  induction l2 as [| x l2 IH]; intros Hfin l z Hext.
  - exists z. rewrite app_nil_r. split; [reflexivity | exact Hext].
  - destruct (Hfin x (or_introl eq_refl)) as [zx Hx].
    destruct (extremum_step _ _ _ _ _ _ Hext Hx) as (z1 & Hstep & Hext1).
    simpl fold_left. rewrite Hstep.
    destruct (IH (fun m Hm => Hfin m (or_intror Hm)) _ _ Hext1)
      as (z' & Hfold & Hext').
    exists z'. split; [exact Hfold |].
    rewrite <- app_assoc in Hext'. exact Hext'.
Qed.

Lemma minimaxPick_extremum isMaximizing sc moves :
  (forall m, In m moves -> exists z, sc m = Fin z) ->
  moves <> [] ->
  exists z,
    fold_left (minimaxPick isMaximizing sc) moves
              (if isMaximizing then NegInf else PosInf) = Fin z /\
    extremum isMaximizing sc moves z.
Proof.
  intros Hfin Hne. destruct moves as [| x moves]; [congruence |].
  destruct (Hfin x (or_introl eq_refl)) as [zx Hx].
  simpl fold_left.
  assert (Hstep : minimaxPick isMaximizing sc
                              (if isMaximizing then NegInf else PosInf) x
                  = Fin zx).
  { unfold minimaxPick. rewrite Hx. destruct isMaximizing; reflexivity. }
  rewrite Hstep.
  apply (extremum_fold isMaximizing sc moves
                       (fun m Hm => Hfin m (or_intror Hm)) [x] zx).
  apply extremum_one. exact Hx.
Qed.

Lemma minimax_children :
  forall (fuel : nat) (depth : Z) (isMaximizing : bool)
         (aiSymbol playerSymbol : string) (b : Board),
    is3x3 b -> aiSymbol <> "" -> playerSymbol <> "" ->
    checkWin b = Val false -> isDraw b = false ->
    (count_empty b <= fuel)%nat ->
    let sym := if isMaximizing then aiSymbol else playerSymbol in
    let child := minimax fuel (depth + 1) (negb isMaximizing)
                         aiSymbol playerSymbol in
    exists z,
      minimax (S fuel) depth isMaximizing aiSymbol playerSymbol b
      = Ok (Fin z) b /\
      extremum isMaximizing (scoreAfter sym child b)
               (filter (empty_at b) allCells) z /\
      forall m, In m (filter (empty_at b) allCells) ->
                child (place m sym b)
                = Ok (scoreAfter sym child b m) (place m sym b).
Proof.
  intros fuel depth isMaximizing aiSymbol playerSymbol b
         Hb Hai Hpl Hw Hd Hfuel sym child.
  pose proof (is3x3_rows3 b Hb) as Hb3.
  assert (Hsym : sym <> "") by (subst sym; destruct isMaximizing; assumption).
  assert (Hchild : forall m, In m (filter (empty_at b) allCells) ->
             exists z,
               child (place m sym b) = Ok (Fin z) (place m sym b) /\
               scoreAfter sym child b m = Fin z).
  { intros m Hm. apply filter_In in Hm. destruct Hm as [Hin He].
    destruct (minimax_total fuel (depth + 1) (negb isMaximizing)
                            aiSymbol playerSymbol (place m sym b))
      as [s Hs]; try assumption.
    - apply rows3_place. exact Hb3.
    - pose proof (count_empty_place m sym b Hin He Hsym). lia.
    - destruct (minimax_finite _ _ _ _ _ _ _ _
                               (is3x3_place m sym b Hb Hin) Hs) as [z ->].
      exists z. change (child (place m sym b) = Ok (Fin z) (place m sym b))
        in Hs.
      split; [exact Hs |].
      unfold scoreAfter. rewrite Hs. reflexivity. }
  destruct (minimaxPick_extremum isMaximizing (scoreAfter sym child b)
                                 (filter (empty_at b) allCells))
    as (z & Hfold & Hext).
  { intros m Hm. destruct (Hchild m Hm) as (z & _ & Hz). eauto. }
  { apply is3x3_not_full; assumption. }
  exists z. split; [| split; [exact Hext |]].
  - rewrite minimax_S, Hw, Hd, (getAvailableMoves_spec b Hb3).
    rewrite (foldM_ext _ _ _ (minimaxBody_scored _ _ _)).
    change (foldM (scoredLoop
                     (fun score best _ =>
                        if isMaximizing then num_max score best
                        else num_min score best) sym child)
                  (if isMaximizing then NegInf else PosInf)
                  (filter (empty_at b) allCells) b = Ok (Fin z) b).
    rewrite (scoredLoop_pure _ sym child b (scoreAfter sym child b)).
    + f_equal. exact Hfold.
    + intros m Hm. split; [apply filter_In in Hm; apply Hm |].
      destruct (Hchild m Hm) as (zm & Hs & Hz). rewrite Hz. exact Hs.
  - intros m Hm. destruct (Hchild m Hm) as (zm & Hs & Hz).
    rewrite Hz. exact Hs.
Qed.

(** * The statements of the specification *)

(** ** C1: scenario A *)

(** C1, as stated, fails: on the board [[X,O,X],[O,X,O],[Empty,Empty,Empty]]
    with X to move, no run of [getBestMove] returns the move (2,2). *)
Lemma C1_counterexample :
  ~ (exists fuel b', getBestMove fuel "X" scenarioA = Ok (2, 2) b').
Proof.
  intros (fuel & b' & H).
  assert (H1 : getBestMove (Nat.max fuel 3) "X" scenarioA = Ok (2, 2) b')
    by (apply (getBestMove_mono fuel); [lia | exact H]).
  assert (H2 : getBestMove (Nat.max fuel 3) "X" scenarioA
               = Ok (2, 0) scenarioA)
    by (apply (getBestMove_mono 3); [lia | vm_compute; reflexivity]).
  rewrite H2 in H1. discriminate H1.
Qed.

(** C1, amended: on the board of scenario A with X to move, [getBestMove]
    returns (2,0), the first in row-major order of the two winning moves
    (2,0) and (2,2); each of them scores 10 at depth 0, and (2,1) scores 8.
    The board is left as it was. *)
Theorem C1_scenarioA_first_winning_move :
  forall fuel,
    (3 <= fuel)%nat ->
    getBestMove fuel "X" scenarioA = Ok (2, 0) scenarioA /\
    tryMove "X" (minimax fuel 0 false "X" "O") 2 0 scenarioA
    = Ok (Fin 10) scenarioA /\
    tryMove "X" (minimax fuel 0 false "X" "O") 2 1 scenarioA
    = Ok (Fin 8) scenarioA /\
    tryMove "X" (minimax fuel 0 false "X" "O") 2 2 scenarioA
    = Ok (Fin 10) scenarioA.
Proof.
  intros fuel Hfuel.
  assert (Hm : forall b0 s0 b1,
             minimax 3 0 false "X" "O" b0 = Ok s0 b1 ->
             minimax fuel 0 false "X" "O" b0 = Ok s0 b1)
    by (intros b0 s0 b1; apply minimax_mono; exact Hfuel).
  split; [| split; [| split]].
  - apply (getBestMove_mono 3); [exact Hfuel | vm_compute; reflexivity].
  - apply (tryMove_mono _ _ _ _ _ _ _ _ Hm). vm_compute. reflexivity.
  - apply (tryMove_mono _ _ _ _ _ _ _ _ Hm). vm_compute. reflexivity.
  - apply (tryMove_mono _ _ _ _ _ _ _ _ Hm). vm_compute. reflexivity.
Qed.

Lemma C1_scenarioA_witness :
  (3 <= 3)%nat /\
  (getBestMove 3 "X" scenarioA = Ok (2, 0) scenarioA /\
   tryMove "X" (minimax 3 0 false "X" "O") 2 0 scenarioA
   = Ok (Fin 10) scenarioA /\
   tryMove "X" (minimax 3 0 false "X" "O") 2 1 scenarioA
   = Ok (Fin 8) scenarioA /\
   tryMove "X" (minimax 3 0 false "X" "O") 2 2 scenarioA
   = Ok (Fin 10) scenarioA).
Proof.
  split; [lia | apply (C1_scenarioA_first_winning_move 3); lia].
Defined.

(** ** C2: the opening move of the automated side *)

(** C2: whenever [startGame] returns in single mode with the human on O, the
    grid is the all-empty grid of [resetGame]: the X that [aiMove] placed is
    gone, and no cell holds an X. *)
Theorem C2_startGame_discards_opening_move :
  forall fuel this this',
    gameMode this = "single" -> selectedPlayer this = "O" ->
    startGame fuel this = Ok tt this' ->
    grid this' = emptyGrid /\ count_empty (grid this') = 9%nat.
Proof.
  intros fuel this this' Hm Hp H.
  rewrite (startGame_single_O fuel this Hm Hp) in H.
  apply bind_Ok_inv in H. destruct H as (u & this1 & _ & Hreset).
  destruct (resetGame_grid this1) as (this2 & Hr & Hg).
  assert (E : this' = this2) by congruence. subst this2.
  rewrite Hg. split; reflexivity.
Qed.

Lemma C2_startGame_witness :
  gameMode humanO = "single" /\ selectedPlayer humanO = "O" /\
  startGame 9 humanO
  = Ok tt (mkComponent emptyGrid "O" "Playing" "O" true "single") /\
  (grid (mkComponent emptyGrid "O" "Playing" "O" true "single") = emptyGrid /\
   count_empty (grid (mkComponent emptyGrid "O" "Playing" "O" true "single"))
   = 9%nat).
Proof.
  split; [reflexivity |]. split; [reflexivity |].
  split; [exact startGame_humanO |].
  exact (C2_startGame_discards_opening_move
           9 humanO _ eq_refl eq_refl startGame_humanO).
Defined.

(** ** C3: draw detection *)

(** C3, as stated, fails: the full board [[X,X,X],[O,O,X],[O,X,O]] holds a
    completed line, and [isDraw] returns true on it. *)
Lemma C3_counterexample :
  ~ (isDraw fullWon = true <->
     (forall m, In m allCells -> empty_at fullWon m = false) /\
     checkWin fullWon = Val false).
Proof.
  intros [H _]. destruct (H eq_refl) as [_ Hc].
  vm_compute in Hc. discriminate Hc.
Qed.

(** C3, amended: for every 3x3 board, [isDraw] returns true if and only if
    every cell is non-empty; winning lines play no part in it. *)
Theorem C3_isDraw_iff_full :
  forall b,
    is3x3 b ->
    (isDraw b = true <-> forall m, In m allCells -> empty_at b m = false).
Proof.
  intros b Hb. split.
  - apply isDraw_full. exact Hb.
  - apply full_isDraw. exact Hb.
Qed.

Lemma C3_isDraw_witness :
  is3x3 scenarioC /\
  (isDraw scenarioC = true <->
   forall m, In m allCells -> empty_at scenarioC m = false).
Proof.
  assert (H : is3x3 scenarioC).
  { exists (row3 "X" "O" "X"), (row3 "X" "O" "O"), (row3 "O" "X" "X").
    split; [reflexivity |].
    repeat split; do 3 eexists; reflexivity. }
  split; [exact H | apply (C3_isDraw_iff_full scenarioC); exact H].
Defined.

(** ** C4: rejected moves *)

(** C4, as stated, fails: with two human players on the fresh board,
    [makeMove(0, 3)] is not rejected; it ends in a state other than the one
    it started from (row 0 has grown a fourth element holding X, and the
    turn has passed to O). *)
Lemma C4_counterexample :
  ~ (final_state (makeMove 0 0 3 twoHumans) = Some twoHumans).
Proof. vm_compute. intros H. discriminate H. Qed.

Lemma row_at_outside b row :
  List.length b = 3%nat -> in_range row = false -> row_at b row = None.
Proof.
  unfold in_range, row_at. intros Hlen Hr.
  destruct (0 <=? row) eqn:E; [| reflexivity].
  simpl in Hr. apply Z.leb_le in E. apply Z.leb_gt in Hr.
  apply nth_error_None. lia.
Qed.

Lemma row_at_inside b row :
  List.length b = 3%nat -> in_range row = true ->
  exists a, row_at b row = Some a.
Proof.
  unfold in_range. intros Hlen Hr. apply andb_true_iff in Hr.
  destruct Hr as [H0 H2]. apply Z.leb_le in H0. apply Z.leb_le in H2.
  apply rows3_row_at; [unfold rows3; lia | lia].
Qed.

(** C4, amended: on a grid with its three rows, a move whose row is outside
    [0,2] ends in a [TypeError], and a move on a non-empty cell, or after the
    game is over, returns normally without any error value; in all three
    cases the whole component is left unchanged, the test coming before any
    write.  (A column outside [0,2] is not tested for.) *)
Theorem C4_makeMove_leaves_state_unchanged :
  forall fuel row col this,
    List.length (grid this) = 3%nat ->
    in_range row = false \/
    js_not (look (grid this) (row, col)) = false \/
    gameStatus this <> "Playing" ->
    makeMove fuel row col this =
    if in_range row then Ok tt this else Throw TypeError this.
Proof.
  intros fuel row col this Hlen Hcase.
  unfold makeMove. unfold bind at 1, onGrid at 1, liftR at 1, cell.
  destruct (in_range row) eqn:Hr.
  - destruct (row_at_inside _ _ Hlen Hr) as [a Ha]. rewrite Ha.
    rewrite set_grid_same. unfold bind at 1, this_ at 1.
    assert (Hcond : js_not (arr_get a col)
                    && String.eqb (gameStatus this) "Playing" = false).
    { destruct Hcase as [Hc | [Hc | Hc]].
      - discriminate Hc.
      - unfold look, cell in Hc. simpl in Hc. rewrite Ha in Hc.
        rewrite Hc. reflexivity.
      - apply String.eqb_neq in Hc. rewrite Hc. apply andb_false_r. }
    rewrite Hcond. reflexivity.
  - rewrite (row_at_outside _ _ Hlen Hr). rewrite set_grid_same. reflexivity.
Qed.

Lemma C4_makeMove_witness :
  (List.length (grid centreTaken) = 3%nat /\
   (in_range 1 = false \/
    js_not (look (grid centreTaken) (1, 1)) = false \/
    gameStatus centreTaken <> "Playing") /\
   makeMove 0 1 1 centreTaken = Ok tt centreTaken) /\
  (in_range (-1) = false /\
   makeMove 0 (-1) 1 centreTaken = Throw TypeError centreTaken).
Proof.
  split.
  - split; [reflexivity |]. split; [right; left; reflexivity |].
    apply (C4_makeMove_leaves_state_unchanged 0 1 1 centreTaken).
    + reflexivity.
    + right. left. reflexivity.
  - split; [reflexivity |].
    apply (C4_makeMove_leaves_state_unchanged 0 (-1) 1 centreTaken).
    + reflexivity.
    + left. reflexivity.
Defined.

(** ** C5: the move chosen *)

Lemma scenarioA_is3x3 : is3x3 scenarioA.
Proof.
  exists (row3 "X" "O" "X"), (row3 "O" "X" "O"), (row3 "" "" "").
  split; [reflexivity |].
  repeat split; do 3 eexists; reflexivity.
Qed.

(** On a 3x3 board every available move gets a finite score, and the board
    is as before once the move is scored. *)
Lemma tryMove_scored fuel aiSymbol playerSymbol depth flag b m :
  is3x3 b -> aiSymbol <> "" -> playerSymbol <> "" ->
  (count_empty b <= fuel)%nat ->
  In m allCells -> empty_at b m = true ->
  forall sym, sym <> "" ->
  exists z,
    tryMove sym (minimax fuel depth flag aiSymbol playerSymbol)
            (fst m) (snd m) b = Ok (Fin z) b /\
    scoreAfter sym (minimax fuel depth flag aiSymbol playerSymbol) b m
    = Fin z.
Proof.
  intros Hb Hai Hpl Hfuel Hin He sym Hsym.
  destruct (minimax_total fuel depth flag aiSymbol playerSymbol
                          (place m sym b)) as [s Hs]; try assumption.
  - apply rows3_place. apply is3x3_rows3. exact Hb.
  - pose proof (count_empty_place m sym b Hin He Hsym). lia.
  - destruct (minimax_finite _ _ _ _ _ _ _ _ (is3x3_place m sym b Hb Hin) Hs)
      as [z ->].
    exists z. split.
    + destruct m as [row col]. apply tryMove_Ok; assumption.
    + unfold scoreAfter. rewrite Hs. reflexivity.
Qed.

(** C5: on a 3x3 board with at least one empty cell, [getBestMove] returns the
    first move, in the row-major order in which [getAvailableMoves] lists the
    empty cells, among those of maximal minimax score: earlier moves score
    strictly less, later ones not more.  On the empty board with mover X it
    returns (0,0). *)
Theorem C5_getBestMove_first_maximum :
  (forall fuel aiSymbol b,
      is3x3 b -> aiSymbol <> "" -> isDraw b = false ->
      (count_empty b <= fuel)%nat ->
      let moves := filter (empty_at b) allCells in
      let search := minimax fuel 0 false aiSymbol (opponentOf aiSymbol) in
      exists m,
        getAvailableMoves b = Val moves /\
        getBestMove fuel aiSymbol b = Ok m b /\
        first_max (scoreAfter aiSymbol search b) moves m /\
        forall x, In x moves ->
                  exists z,
                    tryMove aiSymbol search (fst x) (snd x) b = Ok (Fin z) b /\
                    scoreAfter aiSymbol search b x = Fin z) /\
  getBestMove 9 "X" emptyGrid = Ok (0, 0) emptyGrid.
Proof.
  split; [| exact getBestMove_emptyGrid].
  intros fuel aiSymbol b Hb Hai Hd Hfuel moves search.
  pose proof (is3x3_rows3 b Hb) as Hb3.
  assert (Hscored : forall x, In x moves ->
             exists z,
               tryMove aiSymbol search (fst x) (snd x) b = Ok (Fin z) b /\
               scoreAfter aiSymbol search b x = Fin z).
  { intros x Hx. apply filter_In in Hx. destruct Hx as [Hin He].
    apply tryMove_scored; try assumption. apply opponentOf_nonempty. }
  eexists. split; [apply getAvailableMoves_spec; exact Hb3 |].
  split; [apply getBestMove_total; assumption |].
  split; [| exact Hscored].
  apply bestMovePick_first_max.
  - intros x Hx. destruct (Hscored x Hx) as (z & _ & Hz). eauto.
  - apply is3x3_not_full; assumption.
Qed.

Lemma C5_getBestMove_witness :
  is3x3 scenarioA /\ "X" <> "" /\ isDraw scenarioA = false /\
  (count_empty scenarioA <= 3)%nat /\
  exists m,
    getAvailableMoves scenarioA = Val (filter (empty_at scenarioA) allCells) /\
    getBestMove 3 "X" scenarioA = Ok m scenarioA /\
    first_max (scoreAfter "X" (minimax 3 0 false "X" (opponentOf "X"))
                          scenarioA)
              (filter (empty_at scenarioA) allCells) m /\
    forall x, In x (filter (empty_at scenarioA) allCells) ->
              exists z,
                tryMove "X" (minimax 3 0 false "X" (opponentOf "X"))
                        (fst x) (snd x) scenarioA = Ok (Fin z) scenarioA /\
                scoreAfter "X" (minimax 3 0 false "X" (opponentOf "X"))
                           scenarioA x = Fin z.
Proof.
  split; [exact scenarioA_is3x3 |].
  split; [discriminate |].
  split; [reflexivity |].
  split; [vm_compute; lia |].
  apply (proj1 C5_getBestMove_first_maximum 3%nat "X" scenarioA).
  - exact scenarioA_is3x3.
  - discriminate.
  - reflexivity.
  - vm_compute. lia.
Defined.

(** ** C6: terminal scores *)

Lemma symbols_cases aiSymbol playerSymbol :
  symbols aiSymbol playerSymbol ->
  (aiSymbol = "O" \/ aiSymbol = "X") /\
  (playerSymbol = "O" \/ playerSymbol = "X") /\
  aiSymbol <> playerSymbol.
Proof.
  intros [[-> ->] | [-> ->]]; repeat split; auto; discriminate.
Qed.

(** At a node of the search a completed line belongs to the side that has
    just moved. *)
Lemma search_node_line aiSymbol playerSymbol flag child :
  symbols aiSymbol playerSymbol ->
  search_node aiSymbol playerSymbol flag child ->
  rows3 child /\
  (has_line child playerSymbol -> flag = true /\ checkWin child = Val true) /\
  (has_line child aiSymbol -> flag = false /\ checkWin child = Val true).
Proof.
  intros Hsym (b & m & Hb & Hw & He & ->).
  destruct (symbols_cases _ _ Hsym) as (Hai & Hpl & Hne).
  pose proof (rows3_place m (if flag then playerSymbol else aiSymbol) b Hb)
    as Hchild.
  split; [exact Hchild |]. split; intros Hl.
  - split; [| apply (has_line_checkWin _ playerSymbol); assumption].
    destruct flag; [reflexivity |]. exfalso.
    apply (checkWin_false_no_line b playerSymbol Hb Hw Hpl).
    apply (has_line_before b m aiSymbol); [exact He | congruence | exact Hl].
  - split; [| apply (has_line_checkWin _ aiSymbol); assumption].
    destruct flag; [| reflexivity]. exfalso.
    apply (checkWin_false_no_line b aiSymbol Hb Hw Hai).
    apply (has_line_before b m playerSymbol); [exact He | exact Hne | exact Hl].
Qed.

Lemma minimax_terminal aiSymbol playerSymbol fuel depth flag child :
  symbols aiSymbol playerSymbol ->
  search_node aiSymbol playerSymbol flag child ->
  (has_line child playerSymbol ->
   minimax (S fuel) depth flag aiSymbol playerSymbol child
   = Ok (Fin (-10 + depth)) child) /\
  (has_line child aiSymbol ->
   minimax (S fuel) depth flag aiSymbol playerSymbol child
   = Ok (Fin (10 - depth)) child) /\
  (checkWin child = Val false -> isDraw child = true ->
   minimax (S fuel) depth flag aiSymbol playerSymbol child
   = Ok (Fin 0) child).
Proof.
  intros Hsym Hnode.
  destruct (search_node_line _ _ _ _ Hsym Hnode) as (_ & Hlost & Hwon).
  repeat split.
  - intros Hl. destruct (Hlost Hl) as [-> Hw].
    rewrite minimax_S, Hw. reflexivity.
  - intros Hl. destruct (Hwon Hl) as [-> Hw].
    rewrite minimax_S, Hw. reflexivity.
  - intros Hw Hd. rewrite minimax_S, Hw, Hd. reflexivity.
Qed.

Lemma search_node_child aiSymbol playerSymbol flag b m :
  rows3 b -> checkWin b = Val false -> empty_at b m = true ->
  search_node aiSymbol playerSymbol (negb flag)
              (place m (if flag then aiSymbol else playerSymbol) b).
Proof.
  intros Hb Hw He. exists b, m.
  repeat split; try assumption. destruct flag; reflexivity.
Qed.

Lemma symbols_opponentOf aiSymbol playerSymbol :
  symbols aiSymbol playerSymbol -> opponentOf aiSymbol = playerSymbol.
Proof.
  intros [[-> ->] | [-> ->]]; reflexivity.
Qed.

(** The value of a node is the score of a finished board at the end of a
    line of play from it, taken at the node's depth plus the length of the
    line. *)
Lemma minimax_line_of_play aiSymbol playerSymbol :
  symbols aiSymbol playerSymbol ->
  forall fuel d flag b,
    is3x3 b -> search_node aiSymbol playerSymbol flag b ->
    (count_empty b < fuel)%nat ->
    exists k t z,
      minimax fuel d flag aiSymbol playerSymbol b = Ok (Fin z) b /\
      line_of_play aiSymbol playerSymbol flag b k t /\
      leaf_score aiSymbol playerSymbol t (d + Z.of_nat k) z.
Proof.
  intros Hsym.
  destruct (symbols_cases _ _ Hsym) as (Hai & Hpl & Hne).
  assert (Hai' : aiSymbol <> "") by (destruct Hai as [-> | ->]; discriminate).
  assert (Hpl' : playerSymbol <> "")
    by (destruct Hpl as [-> | ->]; discriminate).
  induction fuel as [| fuel IH]; intros d flag b Hb Hnode Hfuel; [lia |].
  pose proof (is3x3_rows3 b Hb) as Hb3.
  destruct (minimax_terminal _ _ fuel d _ _ Hsym Hnode)
    as (Hlost & Hwon & Hdraw).
  pose proof (checkWin_wins b Hb3) as Hw.
  destruct (wins b) eqn:Ewins.
  - assert (Hline : has_line b aiSymbol \/ has_line b playerSymbol).
    { apply wins_has_line in Ewins.
      destruct Hsym as [[-> ->] | [-> ->]]; tauto. }
    destruct Hline as [Hl | Hl].
    + exists 0%nat, b, (10 - d).
      split; [apply Hwon; exact Hl |]. split; [constructor |].
      left. split; [exact Hl | lia].
    + exists 0%nat, b, (-10 + d).
      split; [apply Hlost; exact Hl |]. split; [constructor |].
      right; left. split; [exact Hl | lia].
  - destruct (isDraw b) eqn:Ed.
    + exists 0%nat, b, 0.
      split; [apply Hdraw; [exact Hw | reflexivity] |].
      split; [constructor |].
      right; right. repeat split; assumption.
    + destruct (minimax_children fuel d flag aiSymbol playerSymbol b
                                 Hb Hai' Hpl' Hw Ed ltac:(lia))
        as (z & Hz & [(m0 & Hm0 & Hzm0) _] & Hchild).
      pose proof (Hchild m0 Hm0) as Hc. rewrite Hzm0 in Hc.
      apply filter_In in Hm0. destruct Hm0 as [Hin He].
      assert (Hs : (if flag then aiSymbol else playerSymbol) <> "")
        by (destruct flag; assumption).
      pose proof (count_empty_place m0 _ b Hin He Hs) as Hcount.
      destruct (IH (d + 1) (negb flag)
                   (place m0 (if flag then aiSymbol else playerSymbol) b))
        as (k & t & z' & Hz' & Hlop & Hleaf).
      * apply is3x3_place; assumption.
      * apply search_node_child; assumption.
      * lia.
      * assert (E : z' = z) by congruence. subst z'.
        exists (S k), t, z. split; [exact Hz |]. split.
        -- apply (lop_move _ _ flag b m0 k t); assumption.
        -- replace (d + Z.of_nat (S k)) with (d + 1 + Z.of_nat k) by lia.
           exact Hleaf.
Qed.

(** C6: at a node of the search evaluated at depth [d], a line completed by
    the opponent of the maximized side scores [-10 + d], a line completed by
    the maximized side scores [10 - d], and a full board without a line
    scores 0.  Hence of two won nodes the shallower scores strictly more,
    and of two lost nodes the deeper scores strictly more.  The depth counts
    the plies: the value [minimax] returns at a node of depth [d] is the
    score of a finished board [k] plies further down a line of play, taken
    at depth [d + k]; and the score [getBestMove] gives a candidate move,
    searched from depth 0, is that of a finished board [k] plies after the
    move, taken at depth [k]. *)
Theorem C6_terminal_scores :
  forall aiSymbol playerSymbol,
    symbols aiSymbol playerSymbol ->
    (forall fuel d flag child,
        search_node aiSymbol playerSymbol flag child ->
        (has_line child playerSymbol ->
         minimax (S fuel) d flag aiSymbol playerSymbol child
         = Ok (Fin (-10 + d)) child) /\
        (has_line child aiSymbol ->
         minimax (S fuel) d flag aiSymbol playerSymbol child
         = Ok (Fin (10 - d)) child) /\
        (checkWin child = Val false -> isDraw child = true ->
         minimax (S fuel) d flag aiSymbol playerSymbol child
         = Ok (Fin 0) child)) /\
    (forall fuel1 fuel2 d1 d2 flag1 flag2 child1 child2,
        search_node aiSymbol playerSymbol flag1 child1 ->
        search_node aiSymbol playerSymbol flag2 child2 ->
        d1 < d2 ->
        (has_line child1 aiSymbol -> has_line child2 aiSymbol ->
         exists z1 z2,
           minimax (S fuel1) d1 flag1 aiSymbol playerSymbol child1
           = Ok (Fin z1) child1 /\
           minimax (S fuel2) d2 flag2 aiSymbol playerSymbol child2
           = Ok (Fin z2) child2 /\
           z2 < z1) /\
        (has_line child1 playerSymbol -> has_line child2 playerSymbol ->
         exists z1 z2,
           minimax (S fuel1) d1 flag1 aiSymbol playerSymbol child1
           = Ok (Fin z1) child1 /\
           minimax (S fuel2) d2 flag2 aiSymbol playerSymbol child2
           = Ok (Fin z2) child2 /\
           z1 < z2)) /\
    (forall fuel d flag b,
        is3x3 b -> search_node aiSymbol playerSymbol flag b ->
        (count_empty b < fuel)%nat ->
        exists k t z,
          minimax fuel d flag aiSymbol playerSymbol b = Ok (Fin z) b /\
          line_of_play aiSymbol playerSymbol flag b k t /\
          leaf_score aiSymbol playerSymbol t (d + Z.of_nat k) z) /\
    (forall fuel b m,
        is3x3 b -> checkWin b = Val false ->
        In m allCells -> empty_at b m = true ->
        (count_empty b <= fuel)%nat ->
        exists k t z,
          tryMove aiSymbol
                  (minimax fuel 0 false aiSymbol (opponentOf aiSymbol))
                  (fst m) (snd m) b = Ok (Fin z) b /\
          line_of_play aiSymbol playerSymbol false (place m aiSymbol b) k t /\
          leaf_score aiSymbol playerSymbol t (Z.of_nat k) z).
Proof.
  intros aiSymbol playerSymbol Hsym. split; [| split; [| split]].
  - intros fuel d flag child Hnode. apply minimax_terminal; assumption.
  - intros fuel1 fuel2 d1 d2 flag1 flag2 child1 child2 Hn1 Hn2 Hd.
    destruct (minimax_terminal _ _ fuel1 d1 _ _ Hsym Hn1) as (Hl1 & Hw1 & _).
    destruct (minimax_terminal _ _ fuel2 d2 _ _ Hsym Hn2) as (Hl2 & Hw2 & _).
    split; intros H1 H2.
    + exists (10 - d1), (10 - d2).
      split; [apply Hw1; exact H1 |]. split; [apply Hw2; exact H2 | lia].
    + exists (-10 + d1), (-10 + d2).
      split; [apply Hl1; exact H1 |]. split; [apply Hl2; exact H2 | lia].
  - apply minimax_line_of_play. exact Hsym.
  - intros fuel b m Hb Hw Hin He Hfuel.
    destruct (symbols_cases _ _ Hsym) as (Hai & _ & _).
    assert (Hai' : aiSymbol <> "")
      by (destruct Hai as [-> | ->]; discriminate).
    rewrite (symbols_opponentOf _ _ Hsym).
    pose proof (count_empty_place m aiSymbol b Hin He Hai') as Hcount.
    destruct (minimax_line_of_play _ _ Hsym fuel 0 false (place m aiSymbol b))
      as (k & t & z & Hz & Hlop & Hleaf).
    + apply is3x3_place; assumption.
    + exists b, m. repeat split; try assumption.
      apply is3x3_rows3. exact Hb.
    + lia.
    + exists k, t, z. split; [| split; [exact Hlop | exact Hleaf]].
      destruct m as [row col]. apply tryMove_Ok; assumption.
Qed.

Lemma C6_terminal_scores_witness :
  symbols "X" "O" /\
  minimax 1 0 false "X" "O" (place (2, 0) "X" scenarioA)
  = Ok (Fin (10 - 0)) (place (2, 0) "X" scenarioA) /\
  exists k t z,
    tryMove "X" (minimax 3 0 false "X" (opponentOf "X")) 2 1 scenarioA
    = Ok (Fin z) scenarioA /\
    line_of_play "X" "O" false (place (2, 1) "X" scenarioA) k t /\
    leaf_score "X" "O" t (Z.of_nat k) z.
Proof.
  assert (Hsym : symbols "X" "O") by (left; split; reflexivity).
  split; [exact Hsym |].
  destruct (C6_terminal_scores "X" "O" Hsym) as (Hterm & _ & _ & Htop).
  split.
  - assert (Hnode : search_node "X" "O" false (place (2, 0) "X" scenarioA)).
    { exists scenarioA, (2, 0).
      split; [unfold rows3; simpl; lia |].
      split; [reflexivity |]. split; reflexivity. }
    destruct (Hterm 0%nat 0 false _ Hnode) as (_ & Hwon & _).
    apply Hwon.
    exists [(0, 2); (1, 1); (2, 0)]. split.
    + unfold winningCombinations. simpl. tauto.
    + intros m Hm. simpl in Hm.
      destruct Hm as [<- | [<- | [<- | []]]]; reflexivity.
  - apply (Htop 3%nat scenarioA (2, 1)).
    + do 3 eexists. split; [reflexivity |].
      repeat split; do 3 eexists; reflexivity.
    + reflexivity.
    + unfold allCells. simpl. tauto.
    + reflexivity.
    + vm_compute. lia.
Defined.

(** ** C7: termination *)

(** C7: with non-empty marks, on a board of any shape, [minimax] given one
    level of recursion more than there are empty cells ends without running
    out of levels, and so does [getBestMove].  On a board with its three
    rows both return; there are at most nine empty cells, so ten levels
    always do; and every move of the loop leaves exactly one empty cell less
    for the recursive call. *)
Theorem C7_search_terminates :
  forall (depth : Z) (isMaximizing : bool) (aiSymbol playerSymbol : string)
         (b : Board),
    aiSymbol <> "" -> playerSymbol <> "" ->
    (forall fuel,
        (count_empty b < fuel)%nat ->
        minimax fuel depth isMaximizing aiSymbol playerSymbol b
        <> OutOfFuel) /\
    (forall fuel,
        (count_empty b <= fuel)%nat ->
        getBestMove fuel aiSymbol b <> OutOfFuel) /\
    (count_empty b <= 9)%nat /\
    (rows3 b ->
     (exists moves,
         getAvailableMoves b = Val moves /\
         List.length moves = count_empty b) /\
     (forall m,
         In m allCells -> empty_at b m = true ->
         count_empty b
         = S (count_empty
                (place m (if isMaximizing then aiSymbol else playerSymbol)
                       b))) /\
     (forall fuel,
         (count_empty b < fuel)%nat ->
         exists s,
           minimax fuel depth isMaximizing aiSymbol playerSymbol b
           = Ok s b) /\
     (exists s,
         minimax 10 depth isMaximizing aiSymbol playerSymbol b = Ok s b) /\
     (forall fuel,
         (count_empty b <= fuel)%nat ->
         exists m, getBestMove fuel aiSymbol b = Ok m b)).
Proof.
  intros depth isMaximizing aiSymbol playerSymbol b Hai Hpl.
  pose proof (count_empty_le_9 b) as H9.
  split; [intros fuel Hfuel; apply minimax_ends; assumption |].
  split; [intros fuel Hfuel; apply getBestMove_ends; assumption |].
  split; [exact H9 |].
  intros Hb.
  split; [exists (filter (empty_at b) allCells);
          split; [apply getAvailableMoves_spec; exact Hb | reflexivity] |].
  split.
  { intros m Hin He. apply count_empty_place; try assumption.
    destruct isMaximizing; assumption. }
  split; [intros fuel Hfuel; apply minimax_total; assumption |].
  split; [apply minimax_total; try assumption; lia |].
  intros fuel Hfuel. eexists. apply getBestMove_total; assumption.
Qed.

Lemma C7_search_terminates_witness :
  "X" <> "" /\ "O" <> "" /\ rows3 scenarioA /\
  (minimax 10 0 true "X" "O" scenarioA <> OutOfFuel /\
   exists s, minimax 10 0 true "X" "O" scenarioA = Ok s scenarioA).
Proof.
  assert (Hb : rows3 scenarioA) by (unfold rows3; simpl; lia).
  assert (Hx : "X" <> "") by discriminate.
  assert (Ho : "O" <> "") by discriminate.
  split; [exact Hx |]. split; [exact Ho |]. split; [exact Hb |].
  destruct (C7_search_terminates 0 true "X" "O" scenarioA Hx Ho)
    as (Hends & _ & H9 & Hrows).
  split.
  - apply Hends. lia.
  - apply (Hrows Hb).
Defined.

(** ** C8: determinism *)

(** C8: with enough fuel [getBestMove] returns one move, the same whatever
    the fuel; calling it twice in a row on the same board object returns that
    move twice, since the first call leaves the board as it found it; and
    called on the grid of a component, the move does not depend on the other
    fields. *)
Theorem C8_getBestMove_deterministic :
  forall fuel1 fuel2 aiSymbol b,
    rows3 b -> aiSymbol <> "" ->
    (count_empty b <= fuel1)%nat -> (count_empty b <= fuel2)%nat ->
    exists m,
      getBestMove fuel1 aiSymbol b = Ok m b /\
      getBestMove fuel2 aiSymbol b = Ok m b /\
      (m1 <- getBestMove fuel1 aiSymbol ;;
       m2 <- getBestMove fuel2 aiSymbol ;;
       ret (m1, m2))%m b = Ok (m, m) b /\
      forall this,
        grid this = b ->
        onGrid (getBestMove fuel1 aiSymbol) this = Ok m this.
Proof.
  intros fuel1 fuel2 aiSymbol b Hb Hai H1 H2.
  pose proof (getBestMove_total fuel1 aiSymbol b Hb Hai H1) as E1.
  pose proof (getBestMove_total fuel2 aiSymbol b Hb Hai H2) as E2.
  set (m1 := fst (fold_left _ _ _)) in E1.
  set (m2 := fst (fold_left _ _ _)) in E2.
  assert (Hsame : m2 = m1).
  { pose proof (getBestMove_mono fuel1 (Nat.max fuel1 fuel2) _ _ _ _
                                 (Nat.le_max_l _ _) E1) as F1.
    pose proof (getBestMove_mono fuel2 (Nat.max fuel1 fuel2) _ _ _ _
                                 (Nat.le_max_r _ _) E2) as F2.
    congruence. }
  rewrite Hsame in E2. exists m1.
  split; [exact E1 |]. split; [exact E2 |]. split.
  - rewrite (bind_Ok_run _ _ _ _ _ E1), (bind_Ok_run _ _ _ _ _ E2).
    reflexivity.
  - intros this <-. unfold onGrid. rewrite E1, set_grid_same. reflexivity.
Qed.

Lemma C8_getBestMove_witness :
  rows3 scenarioA /\ "X" <> "" /\
  (count_empty scenarioA <= 3)%nat /\ (count_empty scenarioA <= 5)%nat /\
  exists m,
    getBestMove 3 "X" scenarioA = Ok m scenarioA /\
    getBestMove 5 "X" scenarioA = Ok m scenarioA /\
    (m1 <- getBestMove 3 "X" ;;
     m2 <- getBestMove 5 "X" ;;
     ret (m1, m2))%m scenarioA = Ok (m, m) scenarioA /\
    forall this,
      grid this = scenarioA ->
      onGrid (getBestMove 3 "X") this = Ok m this.
Proof.
  assert (Hb : rows3 scenarioA) by (unfold rows3; simpl; lia).
  assert (Hx : "X" <> "") by discriminate.
  assert (H3 : (count_empty scenarioA <= 3)%nat) by (vm_compute; lia).
  assert (H5 : (count_empty scenarioA <= 5)%nat) by (vm_compute; lia).
  split; [exact Hb |]. split; [exact Hx |].
  split; [exact H3 |]. split; [exact H5 |].
  apply (C8_getBestMove_deterministic 3 5 "X" scenarioA Hb Hx H3 H5).
Defined.

(** ** C9: the search does not mutate its input *)

(** C9: whenever [getBestMove], a call of [minimax], or one iteration of
    their loops (place, score, undo) returns, the board is the board it was
    given; and on a board with its three rows [getBestMove] does return. *)
Theorem C9_search_restores_board :
  forall fuel aiSymbol b,
    (forall m b', getBestMove fuel aiSymbol b = Ok m b' -> b' = b) /\
    (forall depth isMaximizing playerSymbol s b',
        minimax fuel depth isMaximizing aiSymbol playerSymbol b = Ok s b' ->
        b' = b) /\
    (forall depth isMaximizing playerSymbol sym row col s b',
        empty_at b (row, col) = true ->
        tryMove sym (minimax fuel depth isMaximizing aiSymbol playerSymbol)
                row col b = Ok s b' ->
        b' = b) /\
    (rows3 b -> aiSymbol <> "" -> (count_empty b <= fuel)%nat ->
     exists m, getBestMove fuel aiSymbol b = Ok m b).
Proof.
  intros fuel aiSymbol b. split; [| split; [| split]].
  - intros m b'. apply getBestMove_frame.
  - intros depth isMaximizing playerSymbol s b'. apply minimax_frame.
  - intros depth isMaximizing playerSymbol sym row col s b' He H.
    apply tryMove_Ok_inv in H; [apply H | exact He |].
    intros s2 b2. apply minimax_frame.
  - intros Hb Hai Hfuel. eexists. apply getBestMove_total; assumption.
Qed.

Lemma C9_search_restores_board_witness :
  rows3 scenarioA /\ "X" <> "" /\ (count_empty scenarioA <= 3)%nat /\
  exists m, getBestMove 3 "X" scenarioA = Ok m scenarioA.
Proof.
  assert (Hb : rows3 scenarioA) by (unfold rows3; simpl; lia).
  assert (Hx : "X" <> "") by discriminate.
  assert (H3 : (count_empty scenarioA <= 3)%nat) by (vm_compute; lia).
  split; [exact Hb |]. split; [exact Hx |]. split; [exact H3 |].
  destruct (C9_search_restores_board 3 "X" scenarioA) as (_ & _ & _ & Hret).
  exact (Hret Hb Hx H3).
Defined.

(** ** C10: the sentinel *)

(** C10: on a 3x3 board with no empty cell and no completed line,
    [getBestMove] returns the pair (-1,-1) it started from, which is not a
    coordinate of the grid; [aiMove] then indexes the grid with it, and the
    access to row -1 ends in a [TypeError]. *)
Theorem C10_getBestMove_sentinel :
  forall fuel aiSymbol b,
    is3x3 b -> isDraw b = true -> checkWin b = Val false ->
    getBestMove fuel aiSymbol b = Ok (-1, -1) b /\
    in_range (-1) = false /\
    setCell (-1) (-1) aiSymbol b = Throw TypeError b /\
    forall this,
      grid this = b -> aiMove fuel this = Throw TypeError this.
Proof.
  intros fuel aiSymbol b Hb Hd _.
  pose proof (is3x3_rows3 b Hb) as Hb3.
  assert (Hbest : forall sym, getBestMove fuel sym b = Ok (-1, -1) b).
  { intros sym. rewrite getBestMove_run, (getAvailableMoves_spec b Hb3).
    rewrite (full_no_moves b (isDraw_full b Hb Hd)). reflexivity. }
  split; [apply Hbest |]. split; [reflexivity |].
  split; [reflexivity |].
  intros this <-. unfold aiMove. unfold bind at 1, this_ at 1.
  unfold bind at 1, onGrid at 1. rewrite Hbest, set_grid_same.
  unfold bind at 1, onGrid at 1. simpl fst. simpl snd.
  change (setCell (-1) (-1) _ (grid this)) with
    (@Throw Board unit TypeError (grid this)).
  cbv beta iota. rewrite set_grid_same. reflexivity.
Qed.

Lemma C10_getBestMove_witness :
  is3x3 scenarioC /\ isDraw scenarioC = true /\
  checkWin scenarioC = Val false /\
  getBestMove 0 "X" scenarioC = Ok (-1, -1) scenarioC.
Proof.
  assert (H : is3x3 scenarioC).
  { exists (row3 "X" "O" "X"), (row3 "X" "O" "O"), (row3 "O" "X" "X").
    split; [reflexivity |].
    repeat split; do 3 eexists; reflexivity. }
  split; [exact H |]. split; [reflexivity |]. split; [reflexivity |].
  apply (C10_getBestMove_sentinel 0 "X" scenarioC H eq_refl eq_refl).
Defined.

(** * Further properties of the rule engine, the search and the component *)

Ltac fields :=
  cbn [grid currentPlayer gameStatus selectedPlayer gameStarted gameMode
       set_grid set_currentPlayer set_gameStatus set_selectedPlayer
       set_gameStarted set_gameMode fst snd].

Lemma aiPlace_run aiSymbol m this :
  aiPlace aiSymbol m this =
  match row_at (grid this) (fst m) with
  | None => Throw TypeError this
  | Some _ =>
      let this1 := set_grid (place m aiSymbol (grid this)) this in
      match checkWin (grid this1) with
      | Err e => Throw e this1
      | Val true =>
          Ok tt (set_gameStatus (aiSymbol ++ " Wins!")%string this1)
      | Val false =>
          if isDraw (grid this1) then Ok tt (set_gameStatus "Draw!" this1)
          else Ok tt (set_currentPlayer (selectedPlayer this) this1)
      end
  end.
Proof.
  destruct this as [g cp st sp started mode]. destruct m as [row col].
  unfold aiPlace. unfold bind at 1, onGrid at 1, setCell, place. fields.
  destruct (row_at g row) as [a |]; [| reflexivity].
  cbv beta iota zeta. unfold bind at 1, onGrid at 1, liftR at 1. fields.
  destruct (checkWin _) as [[|] | e]; try reflexivity.
  cbv beta iota. unfold bind at 1, this_ at 1. fields.
  destruct (isDraw _); reflexivity.
Qed.

Lemma aiMove_run fuel this :
  aiMove fuel this =
  let aiSymbol := if String.eqb (selectedPlayer this) "X" then "O" else "X" in
  match getBestMove fuel aiSymbol (grid this) with
  | Ok m g => aiPlace aiSymbol m (set_grid g this)
  | Throw e g => Throw e (set_grid g this)
  | OutOfFuel => OutOfFuel
  end.
Proof.
  unfold aiMove. unfold bind at 1, this_ at 1.
  unfold bind at 1, onGrid at 1. cbv zeta.
  destruct (getBestMove _ _ _); reflexivity.
Qed.

Lemma makeMove_run fuel row col this :
  makeMove fuel row col this =
  match row_at (grid this) row with
  | None => Throw TypeError this
  | Some a =>
      if js_not (arr_get a col) && String.eqb (gameStatus this) "Playing" then
        let cur := currentPlayer this in
        let this1 := set_grid (place (row, col) cur (grid this)) this in
        match checkWin (grid this1) with
        | Err e => Throw e this1
        | Val true => Ok tt (set_gameStatus (cur ++ " Wins!")%string this1)
        | Val false =>
            if isDraw (grid this1) then Ok tt (set_gameStatus "Draw!" this1)
            else
              let this2 := set_currentPlayer (opponentOf cur) this1 in
              if String.eqb (gameMode this) "single" then aiMove fuel this2
              else Ok tt this2
        end
      else Ok tt this
  end.
Proof.
  destruct this as [g cp st sp started mode].
  unfold makeMove. unfold bind at 1, onGrid at 1, liftR at 1, cell. fields.
  destruct (row_at g row) as [a |] eqn:Ha; [| reflexivity].
  cbv beta iota. unfold bind at 1, this_ at 1. fields.
  destruct (js_not (arr_get a col) && String.eqb st "Playing"); [| reflexivity].
  unfold bind at 1, this_ at 1. fields.
  unfold bind at 1, onGrid at 1, setCell, place. fields.
  rewrite Ha. cbv beta iota zeta.
  unfold bind at 1, onGrid at 1, liftR at 1. fields.
  destruct (checkWin _) as [[|] | e]; try reflexivity.
  cbv beta iota. unfold bind at 1, this_ at 1. fields.
  destruct (isDraw _); try reflexivity.
  unfold bind at 1, assign at 1. unfold bind at 1, this_ at 1. fields.
  destruct (String.eqb mode "single"); reflexivity.
Qed.

(** ** The rule engine on boards of any shape *)

(** The table of winning combinations lists the three rows, the three
    columns and the two diagonals, and nothing else. *)
Lemma has_line_three_in_line b s : has_line b s <-> three_in_line b s.
Proof.
  assert (Hcases : forall i, 0 <= i <= 2 -> i = 0 \/ i = 1 \/ i = 2)
    by (intros i Hi; lia).
  split.
  - intros (combination & Hc & Hl).
    unfold winningCombinations in Hc. simpl in Hc.
    destruct Hc as [<- | [<- | [<- | [<- | [<- | [<- | [<- | [<- | []]]]]]]]].
    + left. exists 0. split; [lia |]. intros c Hc.
      destruct (Hcases c Hc) as [-> | [-> | ->]]; apply Hl; simpl; tauto.
    + left. exists 1. split; [lia |]. intros c Hc.
      destruct (Hcases c Hc) as [-> | [-> | ->]]; apply Hl; simpl; tauto.
    + left. exists 2. split; [lia |]. intros c Hc.
      destruct (Hcases c Hc) as [-> | [-> | ->]]; apply Hl; simpl; tauto.
    + right. left. exists 0. split; [lia |]. intros r Hr.
      destruct (Hcases r Hr) as [-> | [-> | ->]]; apply Hl; simpl; tauto.
    + right. left. exists 1. split; [lia |]. intros r Hr.
      destruct (Hcases r Hr) as [-> | [-> | ->]]; apply Hl; simpl; tauto.
    + right. left. exists 2. split; [lia |]. intros r Hr.
      destruct (Hcases r Hr) as [-> | [-> | ->]]; apply Hl; simpl; tauto.
    + right. right. left. intros i Hi.
      destruct (Hcases i Hi) as [-> | [-> | ->]]; apply Hl; simpl; tauto.
    + right. right. right. intros i Hi.
      destruct (Hcases i Hi) as [-> | [-> | ->]]; apply Hl; simpl; tauto.
  - intros [(r & Hr & Hrow) | [(c & Hc & Hcol) | [Hd | Ha]]].
    + exists [(r, 0); (r, 1); (r, 2)]. split.
      * unfold winningCombinations.
        destruct (Hcases r Hr) as [-> | [-> | ->]]; simpl; tauto.
      * intros m [<- | [<- | [<- | []]]]; apply Hrow; lia.
    + exists [(0, c); (1, c); (2, c)]. split.
      * unfold winningCombinations.
        destruct (Hcases c Hc) as [-> | [-> | ->]]; simpl; tauto.
      * intros m [<- | [<- | [<- | []]]]; apply Hcol; lia.
    + exists [(0, 0); (1, 1); (2, 2)]. split.
      * unfold winningCombinations. simpl. tauto.
      * intros m [<- | [<- | [<- | []]]]; apply Hd; lia.
    + exists [(0, 2); (1, 1); (2, 0)]. split.
      * unfold winningCombinations. simpl. tauto.
      * intros m [<- | [<- | [<- | []]]].
        -- apply (Ha 0). lia.
        -- apply (Ha 1). lia.
        -- apply (Ha 2). lia.
Qed.

(** X1: on a board with its three rows [checkWin] returns, and it returns
    true exactly when 'O' or 'X' fills one of the three rows, one of the
    three columns, the main diagonal or the other diagonal. *)
Theorem checkWin_iff_line :
  forall b,
    rows3 b ->
    exists w,
      checkWin b = Val w /\
      (w = true <-> three_in_line b "O" \/ three_in_line b "X").
Proof.
  intros b Hb. exists (wins b). split.
  - apply checkWin_wins. exact Hb.
  - rewrite wins_has_line, !has_line_three_in_line. reflexivity.
Qed.

Lemma filter_NoDup {A} (p : A -> bool) (l : list A) :
  NoDup l -> NoDup (filter p l).
Proof.
  induction 1 as [| x l Hx Hnd IH]; simpl.
  - constructor.
  - destruct (p x); [| exact IH].
    constructor; [| exact IH].
    intros Hin. apply filter_In in Hin. apply Hx. apply Hin.
Qed.

Lemma getAvailableMoves_short b :
  ~ rows3 b -> getAvailableMoves b = Err TypeError.
Proof.
  intros Hb. destruct (getAvailableMoves b) as [moves | e] eqn:H.
  - exfalso. apply Hb. apply (getAvailableMoves_rows3 b moves H).
  - destruct e. reflexivity.
Qed.

(** X2: on a board with its three rows [getAvailableMoves] returns, without
    repetition, exactly the cells of the grid whose value is the empty
    string; on a board with fewer rows it ends in a [TypeError]. *)
Theorem getAvailableMoves_empty_cells :
  forall b,
    (rows3 b ->
     exists moves,
       getAvailableMoves b = Val moves /\
       NoDup moves /\
       forall m, In m moves <->
                 (0 <= fst m <= 2 /\ 0 <= snd m <= 2 /\
                  look b m = Some "")) /\
    (~ rows3 b -> getAvailableMoves b = Err TypeError).
Proof.
  intros b. split; [| apply getAvailableMoves_short].
  intros Hb. exists (filter (empty_at b) allCells).
  split; [apply getAvailableMoves_spec; exact Hb |].
  split; [apply filter_NoDup; apply allCells_NoDup |].
  intros m. rewrite filter_In, empty_at_look. split.
  - intros [Hin He]. destruct (allCells_range m Hin) as [Hr Hc]. tauto.
  - intros (Hr & Hc & He). split; [| exact He].
    destruct m as [r c]. simpl in Hr, Hc.
    assert (Hr' : r = 0 \/ r = 1 \/ r = 2) by lia.
    assert (Hc' : c = 0 \/ c = 1 \/ c = 2) by lia.
    unfold allCells.
    destruct Hr' as [-> | [-> | ->]], Hc' as [-> | [-> | ->]];
      simpl; tauto.
Qed.

(** ** The value of a position as an extremum *)

(** X3: on a 3x3 board that is neither won nor full, [minimax] returns the
    greatest ([isMaximizing]) or the least of the scores that the recursive
    calls, one level deeper and with the roles swapped, give the boards
    reached by the available moves; some move has that score. *)
Theorem minimax_is_extremum_of_children :
  forall (fuel : nat) (depth : Z) (isMaximizing : bool)
         (aiSymbol playerSymbol : string) (b : Board),
    is3x3 b -> aiSymbol <> "" -> playerSymbol <> "" ->
    checkWin b = Val false -> isDraw b = false ->
    (count_empty b <= fuel)%nat ->
    let sym := if isMaximizing then aiSymbol else playerSymbol in
    let child := minimax fuel (depth + 1) (negb isMaximizing)
                         aiSymbol playerSymbol in
    exists z,
      minimax (S fuel) depth isMaximizing aiSymbol playerSymbol b
      = Ok (Fin z) b /\
      extremum isMaximizing (scoreAfter sym child b)
               (filter (empty_at b) allCells) z /\
      forall m, In m (filter (empty_at b) allCells) ->
                child (place m sym b)
                = Ok (scoreAfter sym child b m) (place m sym b).
Proof. exact minimax_children. Qed.


Lemma minimax_bounds fuel :
  forall depth isMaximizing aiSymbol playerSymbol b s b',
    is3x3 b -> aiSymbol <> "" -> playerSymbol <> "" ->
    0 <= depth -> depth + Z.of_nat (count_empty b) <= 10 ->
    minimax fuel depth isMaximizing aiSymbol playerSymbol b = Ok s b' ->
    exists z, s = Fin z /\ -10 + depth <= z <= 10 - depth.
Proof.
  induction fuel as [| fuel IH];
    intros depth isMaximizing aiSymbol playerSymbol b s b'
           Hb Hai Hpl Hd0 Hd H.
  - discriminate.
  - pose proof (is3x3_rows3 b Hb) as Hb3.
    rewrite minimax_S, (checkWin_wins b Hb3) in H.
    destruct (wins b).
    { assert (E : s = if isMaximizing then Fin (-10 + depth)
                      else Fin (10 - depth)) by congruence.
      rewrite E.
      destruct isMaximizing; eexists; (split; [reflexivity | lia]). }
    destruct (isDraw b) eqn:Hdraw.
    { assert (E : s = Fin 0) by congruence.
      exists 0. split; [exact E | lia]. }
    rewrite (getAvailableMoves_spec b Hb3) in H.
    rewrite (foldM_ext _ _ _ (minimaxBody_scored _ _ _)) in H.
    apply scoredLoop_inv in H;
      [| intros m s2 b2 _ Hs; apply (minimax_frame _ _ _ _ _ _ _ _ Hs)
       | intros m Hm; apply filter_In in Hm; apply Hm].
    destruct H as (_ & Hs & Hall).
    set (sym := if isMaximizing then aiSymbol else playerSymbol) in *.
    assert (Hsym : sym <> "")
      by (subst sym; destruct isMaximizing; assumption).
    set (sc := scoreAfter sym
                          (minimax fuel (depth + 1) (negb isMaximizing)
                                   aiSymbol playerSymbol) b) in *.
    assert (Hchild : forall m, In m (filter (empty_at b) allCells) ->
               exists z, sc m = Fin z /\
                         -10 + (depth + 1) <= z <= 10 - (depth + 1)).
    { intros m Hm. pose proof (Hall m Hm) as Hm'.
      apply filter_In in Hm. destruct Hm as [Hin He].
      apply IH in Hm'; try assumption.
      - apply is3x3_place; assumption.
      - lia.
      - pose proof (count_empty_place m sym b Hin He Hsym). lia. }
    destruct (minimaxPick_extremum isMaximizing sc
                                   (filter (empty_at b) allCells))
      as (z & Hfold & (m0 & Hm0 & Hz0) & _).
    { intros m Hm. destruct (Hchild m Hm) as (z & Hz & _). eauto. }
    { apply is3x3_not_full; assumption. }
    exists z. split; [rewrite Hs; exact Hfold |].
    destruct (Hchild m0 Hm0) as (z0 & Hz0' & Hrange).
    assert (z0 = z) by congruence. lia.
Qed.

(** X4: a score returned by [minimax] on a 3x3 board at depth [d], with [d]
    plus the number of empty cells at most 10, is an integer between
    [-10 + d] and [10 - d]. *)
Theorem minimax_score_bounds :
  forall fuel depth isMaximizing aiSymbol playerSymbol b s b',
    is3x3 b -> aiSymbol <> "" -> playerSymbol <> "" ->
    0 <= depth -> depth + Z.of_nat (count_empty b) <= 10 ->
    minimax fuel depth isMaximizing aiSymbol playerSymbol b = Ok s b' ->
    exists z, s = Fin z /\ -10 + depth <= z <= 10 - depth.
Proof. intros fuel. apply minimax_bounds. Qed.

(** ** The move of the automated side *)

Lemma bestMovePick_member sc moves :
  forall acc,
    fst (fold_left (bestMovePick sc) moves acc) = fst acc \/
    In (fst (fold_left (bestMovePick sc) moves acc)) moves.
Proof.
  induction moves as [| x moves IH]; intros acc; simpl.
  - left. reflexivity.
  - destruct (IH (bestMovePick sc acc x)) as [H | H].
    + rewrite H. unfold bestMovePick.
      destruct (num_gt (sc x) (snd acc)); simpl; auto.
    + right. right. exact H.
Qed.

(** A move that [getBestMove] returns is the sentinel or an empty cell of
    the grid, and the board has its three rows. *)
Lemma getBestMove_Ok_inv fuel aiSymbol b m b' :
  getBestMove fuel aiSymbol b = Ok m b' ->
  b' = b /\ rows3 b /\
  (m = (-1, -1) \/ (In m allCells /\ empty_at b m = true)).
Proof.
  intros H. pose proof (getBestMove_frame _ _ _ _ _ H) as ->.
  split; [reflexivity |].
  rewrite getBestMove_run in H.
  destruct (getAvailableMoves b) as [moves | e] eqn:Hmoves; try discriminate.
  split; [apply (getAvailableMoves_rows3 b moves Hmoves) |].
  destruct (foldM _ _ moves b) as [best b1 | e b1 |] eqn:Hloop;
    try discriminate.
  injection H as <- _.
  rewrite (foldM_ext _ _ _ (bestMoveBody_scored _ _)) in Hloop.
  apply scoredLoop_inv in Hloop;
    [| intros m0 s2 b2 _ Hs; apply (minimax_frame _ _ _ _ _ _ _ _ Hs)
     | intros m0 Hm; apply (getAvailableMoves_empty b moves m0 Hmoves Hm)].
  destruct Hloop as (_ & -> & _).
  match goal with
  | |- fst (fold_left ?f moves ?acc) = _ \/ _ =>
      change f with (bestMovePick
                       (scoreAfter aiSymbol
                                   (minimax fuel 0 false aiSymbol
                                            (opponentOf aiSymbol)) b))
  end.
  destruct (bestMovePick_member
              (scoreAfter aiSymbol
                          (minimax fuel 0 false aiSymbol
                                   (opponentOf aiSymbol)) b)
              moves ((-1, -1), NegInf)) as [E | E].
  - left. exact E.
  - right. apply (getAvailableMoves_empty b moves _ Hmoves E).
Qed.

(** On a 3x3 board with an empty cell [getBestMove] returns one. *)
Lemma getBestMove_available fuel aiSymbol b :
  is3x3 b -> aiSymbol <> "" -> isDraw b = false ->
  (count_empty b <= fuel)%nat ->
  exists m,
    getBestMove fuel aiSymbol b = Ok m b /\
    In m allCells /\ empty_at b m = true.
Proof.
  intros Hb Hai Hd Hfuel. pose proof (is3x3_rows3 b Hb) as Hb3.
  eexists. split; [apply getBestMove_total; assumption |].
  apply filter_In.
  assert (Hfm : first_max
                  (scoreAfter aiSymbol
                              (minimax fuel 0 false aiSymbol
                                       (opponentOf aiSymbol)) b)
                  (filter (empty_at b) allCells)
                  (fst (fold_left
                          (bestMovePick
                             (scoreAfter aiSymbol
                                         (minimax fuel 0 false aiSymbol
                                                  (opponentOf aiSymbol)) b))
                          (filter (empty_at b) allCells)
                          ((-1, -1), NegInf)))).
  { apply bestMovePick_first_max.
    - intros x Hx. apply filter_In in Hx. destruct Hx as [Hin He].
      destruct (tryMove_scored fuel aiSymbol (opponentOf aiSymbol) 0 false
                               b x Hb Hai (opponentOf_nonempty aiSymbol)
                               Hfuel Hin He aiSymbol Hai)
        as (z & _ & Hz). eauto.
    - apply is3x3_not_full; assumption. }
  destruct Hfm as (pre & post & Hsplit & _).
  rewrite Hsplit at 2. apply in_or_app. right. left. reflexivity.
Qed.

(** ** Moves of the component *)

Lemma append_length a b :
  String.length (a ++ b)%string = (String.length a + String.length b)%nat.
Proof. induction a as [| c a IH]; simpl; [reflexivity | rewrite IH; reflexivity]. Qed.

Lemma wins_not_draw p : (p ++ " Wins!")%string <> "Draw!".
Proof.
  intros H. apply (f_equal String.length) in H.
  rewrite append_length in H. simpl in H. lia.
Qed.

Lemma wins_not_playing p : (p ++ " Wins!")%string <> "Playing".
Proof.
  destruct p as [| c p]; [discriminate |].
  simpl. intros H. injection H as _ H.
  destruct p as [| c' p]; [discriminate H |].
  apply (f_equal String.length) in H. simpl in H.
  rewrite append_length in H. simpl in H. lia.
Qed.

Lemma row_at_sentinel b : row_at b (fst (-1, -1)) = None.
Proof. reflexivity. Qed.

Lemma grid_marked m sym this : grid (marked m sym this) = place m sym (grid this).
Proof. destruct this. reflexivity. Qed.

Lemma aiMove_Ok_inv fuel this u this' :
  aiMove fuel this = Ok u this' ->
  exists m,
    getBestMove fuel (aiSymbolOf this) (grid this) = Ok m (grid this) /\
    In m allCells /\ empty_at (grid this) m = true /\
    (ended (aiSymbolOf this) (marked m (aiSymbolOf this) this) this' \/
     (goes_on (marked m (aiSymbolOf this) this) /\
      this' = set_currentPlayer (selectedPlayer this)
                                (marked m (aiSymbolOf this) this))).
Proof.
  rewrite aiMove_run. cbv zeta. fold (aiSymbolOf this).
  destruct (getBestMove fuel (aiSymbolOf this) (grid this))
    as [m g | e g |] eqn:Hbest; try discriminate.
  destruct (getBestMove_Ok_inv _ _ _ _ _ Hbest) as (-> & Hb & Hm).
  rewrite set_grid_same, aiPlace_run.
  destruct Hm as [-> | [Hin He]].
  { rewrite row_at_sentinel. discriminate. }
  destruct (empty_at_row _ _ He) as [a Ha]. rewrite Ha. cbv zeta.
  fold (marked m (aiSymbolOf this) this).
  intros H. exists m. split; [reflexivity |]. split; [exact Hin |].
  split; [exact He |].
  destruct (checkWin (grid (marked m (aiSymbolOf this) this)))
    as [[|] | e] eqn:Hw; try discriminate.
  - left. left. split; [exact Hw | congruence].
  - destruct (isDraw (grid (marked m (aiSymbolOf this) this))) eqn:Hd.
    + left. right. repeat split; congruence.
    + right. split; [split; [exact Hw | exact Hd] | congruence].
Qed.

Lemma makeMove_Ok_inv fuel row col this u this' :
  makeMove fuel row col this = Ok u this' ->
  (accepted row col this = false /\ this' = this) \/
  (accepted row col this = true /\
   (ended (currentPlayer this)
          (marked (row, col) (currentPlayer this) this) this' \/
    (goes_on (marked (row, col) (currentPlayer this) this) /\
     ((gameMode this = "single" /\
       aiMove fuel (set_currentPlayer
                      (opponentOf (currentPlayer this))
                      (marked (row, col) (currentPlayer this) this))
       = Ok u this') \/
      (gameMode this <> "single" /\
       this' = set_currentPlayer
                 (opponentOf (currentPlayer this))
                 (marked (row, col) (currentPlayer this) this)))))).
Proof.
  rewrite makeMove_run. unfold accepted.
  destruct (row_at (grid this) row) as [a |]; [| discriminate].
  destruct (js_not (arr_get a col) && String.eqb (gameStatus this) "Playing").
  2:{ intros H. left. split; [reflexivity | congruence]. }
  cbv zeta. fold (marked (row, col) (currentPlayer this) this).
  intros H. right. split; [reflexivity |].
  destruct (checkWin (grid (marked (row, col) (currentPlayer this) this)))
    as [[|] | e] eqn:Hw; try discriminate.
  - left. left. split; [exact Hw | congruence].
  - destruct (isDraw (grid (marked (row, col) (currentPlayer this) this)))
      eqn:Hd.
    + left. right. repeat split; congruence.
    + right. split; [split; [exact Hw | exact Hd] |].
      destruct (String.eqb (gameMode this) "single") eqn:Hmode.
      * left. apply String.eqb_eq in Hmode. split; [exact Hmode | exact H].
      * right. apply String.eqb_neq in Hmode.
        split; [exact Hmode | congruence].
Qed.

Lemma ended_grid sym this1 this' : ended sym this1 this' -> grid this' = grid this1.
Proof.
  intros [[_ ->] | (_ & _ & ->)]; destruct this1; reflexivity.
Qed.

Lemma accepted_inv row col this :
  accepted row col this = true ->
  exists a, row_at (grid this) row = Some a /\
            js_not (look (grid this) (row, col)) = true /\
            gameStatus this = "Playing".
Proof.
  unfold accepted, look, cell. simpl fst. simpl snd.
  destruct (row_at (grid this) row) as [a |]; [| discriminate].
  intros H. apply andb_true_iff in H. destruct H as [H1 H2].
  apply String.eqb_eq in H2. eauto.
Qed.

Lemma length_place m v b : List.length (place m v b) = List.length b.
Proof.
  unfold place. destruct (row_at b (fst m)); [| reflexivity].
  apply row_put_length.
Qed.

Lemma move_eqb_neq (m m' : Move) :
  m' <> m -> (fst m =? fst m') && (snd m =? snd m') = false.
Proof.
  intros Hne. destruct ((fst m =? fst m') && (snd m =? snd m')) eqn:E;
    [| reflexivity].
  apply move_eqb_eq in E. congruence.
Qed.

Lemma look_place_same m v b a :
  row_at b (fst m) = Some a -> look (place m v b) m = Some v.
Proof.
  intros Ha. rewrite (look_place m v b m a Ha), !Z.eqb_refl. reflexivity.
Qed.

Lemma look_place_other m v b m' :
  m' <> m -> look (place m v b) m' = look b m'.
Proof.
  intros Hne. destruct (row_at b (fst m)) as [a |] eqn:Ha.
  - rewrite (look_place m v b m' a Ha), (move_eqb_neq m m' Hne). reflexivity.
  - unfold place. rewrite Ha. reflexivity.
Qed.

(** A write to a falsy cell leaves every non-empty string where it is. *)
Lemma place_keeps_marks m0 sym b m s :
  js_not (look b m0) = true ->
  look b m = Some s -> s <> "" ->
  look (place m0 sym b) m = Some s.
Proof.
  intros Hfalsy Hm Hs. rewrite look_place_other; [exact Hm |].
  intros ->. rewrite Hm in Hfalsy. simpl in Hfalsy.
  apply String.eqb_eq in Hfalsy. contradiction.
Qed.

Lemma empty_at_falsy b m : empty_at b m = true -> js_not (look b m) = true.
Proof.
  intros He. apply empty_at_look in He. rewrite He. reflexivity.
Qed.

Lemma has_line_before_row b m sym s :
  s <> sym -> has_line (place m sym b) s -> has_line b s.
Proof.
  intros Hs (combination & Hc & Hl).
  exists combination. split; [exact Hc |].
  intros x Hx. pose proof (Hl x Hx) as Hlx.
  destruct (row_at b (fst m)) as [a |] eqn:Ha.
  - rewrite (look_place m sym b x a Ha) in Hlx.
    destruct ((fst m =? fst x) && (snd m =? snd x)); [congruence | exact Hlx].
  - unfold place in Hlx. rewrite Ha in Hlx. exact Hlx.
Qed.

(** On a board without a completed line, a mark of X or O that completes
    one leaves the line to that mark alone. *)
Lemma line_after_mark b m sym :
  rows3 b -> checkWin b = Val false -> sym = "X" \/ sym = "O" ->
  checkWin (place m sym b) = Val true ->
  has_line (place m sym b) sym /\ ~ has_line (place m sym b) (opponentOf sym).
Proof.
  intros Hb Hw Hsym Hw'.
  rewrite (checkWin_wins _ (rows3_place m sym b Hb)) in Hw'.
  assert (Hwins : wins (place m sym b) = true) by congruence.
  apply wins_has_line in Hwins.
  assert (Hother : ~ has_line (place m sym b) (opponentOf sym)).
  { intros Hl. apply has_line_before_row in Hl.
    - apply (checkWin_false_no_line b (opponentOf sym) Hb Hw); [| exact Hl].
      destruct Hsym as [-> | ->]; [left | right]; reflexivity.
    - destruct Hsym as [-> | ->]; discriminate. }
  split; [| exact Hother].
  destruct Hsym as [-> | ->]; destruct Hwins as [Hl | Hl];
    try exact Hl; exfalso; apply Hother; exact Hl.
Qed.

Lemma in_range_allCells row col :
  in_range row = true -> in_range col = true -> In (row, col) allCells.
Proof.
  unfold in_range. rewrite !andb_true_iff, !Z.leb_le. intros Hr Hc.
  assert (Hr' : row = 0 \/ row = 1 \/ row = 2) by lia.
  assert (Hc' : col = 0 \/ col = 1 \/ col = 2) by lia.
  unfold allCells.
  destruct Hr' as [-> | [-> | ->]], Hc' as [-> | [-> | ->]]; simpl; tauto.
Qed.

Lemma is3x3_look b m : is3x3 b -> In m allCells -> exists x, look b m = Some x.
Proof.
  intros (a0 & a1 & a2 & -> & H0 & H1 & H2) Hm.
  destruct a0 as [e0 p0], a1 as [e1 p1], a2 as [e2 p2].
  destruct H0 as (x0 & y0 & z0 & E0), H1 as (x1 & y1 & z1 & E1),
           H2 as (x2 & y2 & z2 & E2).
  simpl in E0, E1, E2. subst e0 e1 e2.
  unfold allCells in Hm. simpl in Hm. unfold look, cell.
  repeat (destruct Hm as [Hm | Hm]; [subst m; eexists; reflexivity |]).
  contradiction.
Qed.

Lemma aiSymbolOf_cases this : aiSymbolOf this = "X" \/ aiSymbolOf this = "O".
Proof.
  unfold aiSymbolOf. destruct (String.eqb (selectedPlayer this) "X"); auto.
Qed.

Lemma aiSymbolOf_nonempty this : aiSymbolOf this <> "".
Proof. destruct (aiSymbolOf_cases this) as [-> | ->]; discriminate. Qed.

(** On a 3x3 grid with an empty cell [aiMove] returns, having written its
    mark to an empty cell. *)
Lemma aiMove_returns fuel this :
  is3x3 (grid this) -> isDraw (grid this) = false ->
  (count_empty (grid this) <= fuel)%nat ->
  exists m this',
    aiMove fuel this = Ok tt this' /\
    In m allCells /\ empty_at (grid this) m = true /\
    grid this' = place m (aiSymbolOf this) (grid this).
Proof.
  intros Hb Hd Hfuel.
  destruct (getBestMove_available fuel (aiSymbolOf this) (grid this) Hb
                                  (aiSymbolOf_nonempty this) Hd Hfuel)
    as (m & Hbest & Hin & He).
  exists m. rewrite aiMove_run. cbv zeta. fold (aiSymbolOf this).
  rewrite Hbest, set_grid_same, aiPlace_run.
  destruct (empty_at_row _ _ He) as [a Ha]. rewrite Ha. cbv zeta.
  fold (marked m (aiSymbolOf this) this).
  rewrite grid_marked.
  rewrite (checkWin_wins _ (rows3_place m (aiSymbolOf this) (grid this)
                                        (is3x3_rows3 _ Hb))).
  destruct (wins _);
    [| destruct (isDraw (place m (aiSymbolOf this) (grid this)))]; eexists;
    (split; [reflexivity |]); (split; [exact Hin |]);
    (split; [exact He |]); destruct this; reflexivity.
Qed.

(** X5: on a 3x3 grid with an empty cell, and with enough fuel, [aiMove]
    returns; it has written the mark of the automated side to one cell that
    was empty and changed no other cell, so the grid is still 3x3 and has
    one empty cell less. *)
Theorem aiMove_marks_one_empty_cell :
  forall fuel this,
    is3x3 (grid this) -> isDraw (grid this) = false ->
    (count_empty (grid this) <= fuel)%nat ->
    exists m this',
      aiMove fuel this = Ok tt this' /\
      In m allCells /\ look (grid this) m = Some "" /\
      look (grid this') m = Some (aiSymbolOf this) /\
      (forall m', m' <> m -> look (grid this') m' = look (grid this) m') /\
      is3x3 (grid this') /\
      count_empty (grid this) = S (count_empty (grid this')).
Proof.
  intros fuel this Hb Hd Hfuel.
  destruct (aiMove_returns fuel this Hb Hd Hfuel)
    as (m & this' & Hrun & Hin & He & Hg).
  exists m, this'. rewrite Hg.
  destruct (empty_at_row _ _ He) as [a Ha].
  split; [exact Hrun |]. split; [exact Hin |].
  split; [apply empty_at_look; exact He |].
  split; [apply (look_place_same _ _ _ a Ha) |].
  split; [intros m' Hne; apply look_place_other; exact Hne |].
  split; [apply is3x3_place; assumption |].
  apply count_empty_place; [exact Hin | exact He | apply aiSymbolOf_nonempty].
Qed.

Lemma aiMove_keeps_marks fuel this u this' m s :
  aiMove fuel this = Ok u this' ->
  look (grid this) m = Some s -> s <> "" -> look (grid this') m = Some s.
Proof.
  intros H Hm Hs.
  destruct (aiMove_Ok_inv _ _ _ _ H) as (m0 & _ & _ & He & Hcase).
  assert (Hg : grid this' = place m0 (aiSymbolOf this) (grid this)).
  { destruct Hcase as [Hend | [_ ->]].
    - rewrite (ended_grid _ _ _ Hend). apply grid_marked.
    - destruct this; reflexivity. }
  rewrite Hg. apply place_keeps_marks; [apply empty_at_falsy; exact He | |];
    assumption.
Qed.

(** X6: whenever [makeMove] returns, every cell that held a non-empty string
    holds the same string: neither the player nor the automated side
    overwrites or erases a mark. *)
Theorem makeMove_never_overwrites :
  forall fuel row col this this' m s,
    makeMove fuel row col this = Ok tt this' ->
    look (grid this) m = Some s -> s <> "" ->
    look (grid this') m = Some s.
Proof.
  intros fuel row col this this' m s H Hm Hs.
  destruct (makeMove_Ok_inv _ _ _ _ _ _ H) as [[_ ->] | [Hacc Hcase]];
    [exact Hm |].
  destruct (accepted_inv _ _ _ Hacc) as (a & Ha & Hfalsy & _).
  assert (Hm1 : look (grid (marked (row, col) (currentPlayer this) this)) m
                = Some s).
  { rewrite grid_marked. apply place_keeps_marks; assumption. }
  destruct Hcase as [Hend | [_ [[_ Hai] | [_ ->]]]].
  - rewrite (ended_grid _ _ _ Hend). exact Hm1.
  - apply (aiMove_keeps_marks _ _ _ _ _ _ Hai); [| exact Hs].
    destruct this; exact Hm1.
  - destruct this; exact Hm1.
Qed.

(** ** Status and board *)

Lemma ended_status_agrees sym this1 this' :
  ended sym this1 this' -> status_agrees this'.
Proof.
  intros [[Hw ->] | (Hw & Hd & ->)].
  - left. split; [exists sym; destruct this1; reflexivity |].
    destruct this1; exact Hw.
  - right. left. destruct this1. repeat split; assumption.
Qed.

Lemma goes_on_status_agrees this1 this' :
  goes_on this1 -> gameStatus this1 = "Playing" ->
  grid this' = grid this1 -> gameStatus this' = gameStatus this1 ->
  status_agrees this'.
Proof.
  intros [Hw Hd] Hst Hg Hst'. right. right.
  rewrite Hg, Hst', Hst. repeat split; assumption.
Qed.

Lemma status_agrees_iff this :
  status_agrees this ->
  (gameStatus this = "Playing" <->
   checkWin (grid this) = Val false /\ isDraw (grid this) = false) /\
  (gameStatus this = "Draw!" <->
   checkWin (grid this) = Val false /\ isDraw (grid this) = true) /\
  ((exists p, gameStatus this = (p ++ " Wins!")%string) <->
   checkWin (grid this) = Val true).
Proof.
  intros Hag.
  assert (Hnp : forall p, gameStatus this = (p ++ " Wins!")%string ->
                          gameStatus this = "Playing" -> False).
  { intros p H1 H2. rewrite H2 in H1. symmetry in H1.
    exact (wins_not_playing p H1). }
  assert (Hnd : forall p, gameStatus this = (p ++ " Wins!")%string ->
                          gameStatus this = "Draw!" -> False).
  { intros p H1 H2. rewrite H2 in H1. symmetry in H1.
    exact (wins_not_draw p H1). }
  destruct Hag as [[[p Hp] Hw] | [(Hst & Hw & Hd) | (Hst & Hw & Hd)]];
    (split; [split | split; split]); intros;
    repeat match goal with
           | H : _ /\ _ |- _ => destruct H
           | H : exists _, _ |- _ => destruct H
           end;
    solve [ repeat split; assumption
          | congruence
          | eexists; eassumption
          | exfalso; eauto ].
Qed.

Lemma aiMove_status_agrees fuel this u this' :
  gameStatus this = "Playing" ->
  aiMove fuel this = Ok u this' -> status_agrees this'.
Proof.
  intros Hst H.
  destruct (aiMove_Ok_inv _ _ _ _ H) as (m & _ & _ & _ & [Hend | [Hon ->]]).
  - apply (ended_status_agrees _ _ _ Hend).
  - apply (goes_on_status_agrees _ _ Hon); destruct this; try reflexivity.
    exact Hst.
Qed.

Lemma makeMove_status_agrees fuel row col this u this' :
  accepted row col this = true ->
  makeMove fuel row col this = Ok u this' -> status_agrees this'.
Proof.
  intros Hacc H.
  destruct (accepted_inv _ _ _ Hacc) as (a & _ & _ & Hst).
  destruct (makeMove_Ok_inv _ _ _ _ _ _ H) as [[Hrej _] | [_ Hcase]];
    [congruence |].
  destruct Hcase as [Hend | [Hon [[_ Hai] | [_ ->]]]].
  - apply (ended_status_agrees _ _ _ Hend).
  - refine (aiMove_status_agrees _ _ _ _ _ Hai).
    destruct this; exact Hst.
  - apply (goes_on_status_agrees _ _ Hon); destruct this; try reflexivity.
    exact Hst.
Qed.

(** X7: after an accepted move the status says what the grid shows: it is
    'Playing' exactly when the grid has no completed line and is not full,
    'Draw!' exactly when it has no completed line and is full, and of the
    form '... Wins!' exactly when [checkWin] holds. *)
Theorem makeMove_status_matches_board :
  forall fuel row col this this',
    accepted row col this = true ->
    makeMove fuel row col this = Ok tt this' ->
    (gameStatus this' = "Playing" <->
     checkWin (grid this') = Val false /\ isDraw (grid this') = false) /\
    (gameStatus this' = "Draw!" <->
     checkWin (grid this') = Val false /\ isDraw (grid this') = true) /\
    ((exists p, gameStatus this' = (p ++ " Wins!")%string) <->
     checkWin (grid this') = Val true).
Proof.
  intros fuel row col this this' Hacc H.
  apply status_agrees_iff. apply (makeMove_status_agrees _ _ _ _ _ _ Hacc H).
Qed.

(** ** The announced winner *)

Lemma ended_winner sym m this this' :
  rows3 (grid this) -> checkWin (grid this) = Val false ->
  sym = "X" \/ sym = "O" ->
  ended sym (marked m sym this) this' ->
  checkWin (grid this') = Val true ->
  gameStatus this' = (sym ++ " Wins!")%string /\
  has_line (grid this') sym /\ ~ has_line (grid this') (opponentOf sym).
Proof.
  intros Hb Hw Hsym Hend Hw'.
  pose proof (ended_grid _ _ _ Hend) as Hg. rewrite grid_marked in Hg.
  rewrite Hg in *.
  split.
  - destruct Hend as [[_ ->] | (Hno & _ & _)].
    + destruct this; reflexivity.
    + rewrite grid_marked in Hno. congruence.
  - apply line_after_mark; assumption.
Qed.

Lemma opponentOf_cases sym : opponentOf sym = "X" \/ opponentOf sym = "O".
Proof. unfold opponentOf. destruct (String.eqb sym "X"); auto. Qed.

(** X8: if the grid had no completed line, the current player is X or O, and
    the grid has a completed line after [makeMove], then the status names X
    or O as the winner, the named side holds a completed line, and the other
    side holds none. *)
Theorem makeMove_winner_holds_the_line :
  forall fuel row col this this',
    rows3 (grid this) -> checkWin (grid this) = Val false ->
    currentPlayer this = "X" \/ currentPlayer this = "O" ->
    makeMove fuel row col this = Ok tt this' ->
    checkWin (grid this') = Val true ->
    exists p,
      (p = "X" \/ p = "O") /\
      gameStatus this' = (p ++ " Wins!")%string /\
      has_line (grid this') p /\ ~ has_line (grid this') (opponentOf p).
Proof.
  intros fuel row col this this' Hb Hw Hcur H Hw'.
  destruct (makeMove_Ok_inv _ _ _ _ _ _ H) as [[_ ->] | [_ Hcase]];
    [congruence |].
  destruct Hcase as [Hend | [[Hw1 _] [[_ Hai] | [_ ->]]]].
  - exists (currentPlayer this). split; [exact Hcur |].
    apply (ended_winner _ (row, col) this); assumption.
  - remember (set_currentPlayer (opponentOf (currentPlayer this))
                (marked (row, col) (currentPlayer this) this)) as this2
      eqn:E2.
    assert (Hg2 : grid this2 = grid (marked (row, col) (currentPlayer this)
                                            this))
      by (subst this2; destruct this; reflexivity).
    destruct (aiMove_Ok_inv _ _ _ _ Hai) as (m & _ & _ & _ & [Hend | [Hon ->]]).
    + exists (aiSymbolOf this2). split; [apply aiSymbolOf_cases |].
      apply (ended_winner _ m this2); try assumption.
      * rewrite Hg2, grid_marked. apply rows3_place. exact Hb.
      * rewrite Hg2. exact Hw1.
      * apply aiSymbolOf_cases.
    + exfalso. destruct Hon as [Hno _].
      assert (E : grid (set_currentPlayer (selectedPlayer this2)
                          (marked m (aiSymbolOf this2) this2))
                  = grid (marked m (aiSymbolOf this2) this2))
        by (destruct this2; reflexivity).
      rewrite E in Hw'. congruence.
  - exfalso.
    assert (E : grid (set_currentPlayer (opponentOf (currentPlayer this))
                        (marked (row, col) (currentPlayer this) this))
                = grid (marked (row, col) (currentPlayer this) this))
      by (destruct this; reflexivity).
    rewrite E in Hw'. congruence.
Qed.

(** ** What a move leaves alone *)

Lemma same_setup_refl this : same_setup this this.
Proof. repeat split. Qed.

Lemma same_setup_trans a b c :
  same_setup a b -> same_setup b c -> same_setup a c.
Proof.
  unfold same_setup. intros (H1 & H2 & H3) (H4 & H5 & H6).
  repeat split; congruence.
Qed.

Lemma same_setup_set_grid g this : same_setup this (set_grid g this).
Proof. destruct this. repeat split. Qed.

Lemma same_setup_set_gameStatus st this :
  same_setup this (set_gameStatus st this).
Proof. destruct this. repeat split. Qed.

Lemma same_setup_set_currentPlayer p this :
  same_setup this (set_currentPlayer p this).
Proof. destruct this. repeat split. Qed.

Lemma aiMove_setup fuel this this' :
  final_state (aiMove fuel this) = Some this' -> same_setup this this'.
Proof.
  rewrite aiMove_run. cbv zeta.
  destruct (getBestMove _ _ _) as [m g | e g |]; simpl; try discriminate.
  - rewrite aiPlace_run.
    assert (H1 : same_setup this (set_grid g this))
      by apply same_setup_set_grid.
    destruct (row_at _ _); simpl.
    2:{ intros H. injection H as <-. exact H1. }
    assert (H2 : same_setup this
                   (set_grid (place m (if String.eqb (selectedPlayer this) "X"
                                       then "O" else "X")
                                    (grid (set_grid g this)))
                             (set_grid g this)))
      by (apply (same_setup_trans _ _ _ H1); apply same_setup_set_grid).
    destruct (checkWin _) as [[|] | e]; simpl.
    + intros H. injection H as <-.
      apply (same_setup_trans _ _ _ H2). apply same_setup_set_gameStatus.
    + destruct (isDraw _); simpl; intros H; injection H as <-;
        apply (same_setup_trans _ _ _ H2);
        [apply same_setup_set_gameStatus | apply same_setup_set_currentPlayer].
    + intros H. injection H as <-. exact H2.
  - intros H. injection H as <-. apply same_setup_set_grid.
Qed.

Lemma makeMove_setup fuel row col this this' :
  final_state (makeMove fuel row col this) = Some this' ->
  same_setup this this'.
Proof.
  rewrite makeMove_run.
  destruct (row_at _ _); simpl.
  2:{ intros H. injection H as <-. apply same_setup_refl. }
  destruct (js_not _ && _); simpl.
  2:{ intros H. injection H as <-. apply same_setup_refl. }
  assert (H1 : same_setup this
                 (set_grid (place (row, col) (currentPlayer this) (grid this))
                           this))
    by apply same_setup_set_grid.
  destruct (checkWin _) as [[|] | e]; simpl.
  - intros H. injection H as <-.
    apply (same_setup_trans _ _ _ H1). apply same_setup_set_gameStatus.
  - destruct (isDraw _); simpl.
    + intros H. injection H as <-.
      apply (same_setup_trans _ _ _ H1). apply same_setup_set_gameStatus.
    + assert (H2 : same_setup this
                     (set_currentPlayer
                        (opponentOf (currentPlayer this))
                        (set_grid (place (row, col) (currentPlayer this)
                                         (grid this)) this)))
        by (apply (same_setup_trans _ _ _ H1);
            apply same_setup_set_currentPlayer).
      destruct (String.eqb (gameMode this) "single").
      * intros H. apply aiMove_setup in H.
        apply (same_setup_trans _ _ _ H2 H).
      * simpl. intros H. injection H as <-. exact H2.
  - intros H. injection H as <-. exact H1.
Qed.

Lemma aiMove_grid fuel this u this' :
  aiMove fuel this = Ok u this' ->
  exists m, In m allCells /\ empty_at (grid this) m = true /\
            grid this' = place m (aiSymbolOf this) (grid this).
Proof.
  intros H.
  destruct (aiMove_Ok_inv _ _ _ _ H) as (m & _ & Hin & He & Hcase).
  exists m. split; [exact Hin |]. split; [exact He |].
  destruct Hcase as [Hend | [_ ->]].
  - rewrite (ended_grid _ _ _ Hend). apply grid_marked.
  - destruct this; reflexivity.
Qed.

(** The grid after a call of [makeMove] that returned: as before, or with
    the mark of the player, or with that mark and then the mark of the
    automated side on a cell that was empty. *)
Lemma makeMove_grid fuel row col this u this' :
  makeMove fuel row col this = Ok u this' ->
  (accepted row col this = false /\ this' = this) \/
  (accepted row col this = true /\
   (grid this' = place (row, col) (currentPlayer this) (grid this) \/
    exists m,
      gameMode this = "single" /\
      In m allCells /\
      empty_at (place (row, col) (currentPlayer this) (grid this)) m = true /\
      grid this' = place m (aiSymbolOf this)
                         (place (row, col) (currentPlayer this)
                                (grid this)))).
Proof.
  intros H.
  destruct (makeMove_Ok_inv _ _ _ _ _ _ H) as [Hrej | [Hacc Hcase]];
    [left; exact Hrej | right].
  split; [exact Hacc |].
  destruct Hcase as [Hend | [_ [[Hmode Hai] | [_ ->]]]].
  - left. rewrite (ended_grid _ _ _ Hend). apply grid_marked.
  - right. destruct (aiMove_grid _ _ _ _ Hai) as (m & Hin & He & Hg).
    exists m. split; [exact Hmode |]. split; [exact Hin |].
    destruct this; split; [exact He | exact Hg].
  - left. destruct this; reflexivity.
Qed.

(** X9: [makeMove] and [aiMove], however they end, leave [selectedPlayer],
    [gameStarted] and [gameMode] as they were; when they return, the grid
    has as many rows as before. *)
Theorem moves_keep_the_setup :
  forall fuel row col this this',
    (final_state (makeMove fuel row col this) = Some this' ->
     same_setup this this') /\
    (final_state (aiMove fuel this) = Some this' -> same_setup this this') /\
    (makeMove fuel row col this = Ok tt this' ->
     List.length (grid this') = List.length (grid this)) /\
    (aiMove fuel this = Ok tt this' ->
     List.length (grid this') = List.length (grid this)).
Proof.
  intros fuel row col this this'.
  split; [apply makeMove_setup |]. split; [apply aiMove_setup |]. split.
  - intros H.
    destruct (makeMove_grid _ _ _ _ _ _ H)
      as [[_ ->] | [_ [-> | (m & _ & _ & _ & ->)]]];
      rewrite ?length_place; reflexivity.
  - intros H. destruct (aiMove_grid _ _ _ _ H) as (m & _ & _ & ->).
    apply length_place.
Qed.

(** ** The grid stays a 3x3 grid *)

Lemma human_mark_count b m v :
  is3x3 b -> In m allCells -> js_not (look b m) = true ->
  (count_empty (place m v b) <= count_empty b)%nat /\
  (v <> "" -> count_empty b = S (count_empty (place m v b))).
Proof.
  intros Hb Hin Hfalsy.
  destruct (is3x3_look b m Hb Hin) as [x Hx].
  assert (He : empty_at b m = true).
  { rewrite Hx in Hfalsy. simpl in Hfalsy. apply String.eqb_eq in Hfalsy.
    apply empty_at_look. congruence. }
  destruct (String.eqb v "") eqn:Ev.
  - apply String.eqb_eq in Ev. subst v.
    rewrite (place_id m "" b (proj1 (empty_at_look b m) He)).
    split; [lia | congruence].
  - apply String.eqb_neq in Ev.
    pose proof (count_empty_place m v b Hin He Ev) as Hc.
    split; [lia | intros _; exact Hc].
Qed.

(** X10: a call of [makeMove] with coordinates in [0,2] on a 3x3 grid leaves
    a 3x3 grid with no more empty cells than before, and with fewer if the
    move was accepted and the current player's mark is not empty. *)
Theorem makeMove_keeps_3x3 :
  forall fuel row col this this',
    is3x3 (grid this) -> in_range row = true -> in_range col = true ->
    makeMove fuel row col this = Ok tt this' ->
    is3x3 (grid this') /\
    (count_empty (grid this') <= count_empty (grid this))%nat /\
    (accepted row col this = true -> currentPlayer this <> "" ->
     (count_empty (grid this') < count_empty (grid this))%nat).
Proof.
  intros fuel row col this this' Hb Hr Hc H.
  pose proof (in_range_allCells row col Hr Hc) as Hin.
  destruct (makeMove_grid _ _ _ _ _ _ H) as [[Hrej ->] | [Hacc Hg]].
  { split; [exact Hb |]. split; [lia | congruence]. }
  destruct (accepted_inv _ _ _ Hacc) as (a & _ & Hfalsy & _).
  destruct (human_mark_count (grid this) (row, col) (currentPlayer this)
                             Hb Hin Hfalsy) as [Hle Hlt].
  pose proof (is3x3_place (row, col) (currentPlayer this) (grid this) Hb Hin)
    as Hb1.
  destruct Hg as [-> | (m & _ & Hm & He & ->)].
  - split; [exact Hb1 |]. split; [exact Hle |].
    intros _ Hcur. rewrite (Hlt Hcur). lia.
  - pose proof (count_empty_place m (aiSymbolOf this) _ Hm He
                                  (aiSymbolOf_nonempty this)) as Hai.
    split; [apply is3x3_place; assumption |]. split; lia.
Qed.

(** ** Whose turn it is *)

(** X11: when the game goes on after an accepted move, the player to move is
    the human's symbol in single mode (the automated side has replied) and
    the other symbol otherwise. *)
Theorem makeMove_next_player :
  forall fuel row col this this',
    accepted row col this = true ->
    makeMove fuel row col this = Ok tt this' ->
    gameStatus this' = "Playing" ->
    currentPlayer this' =
    if String.eqb (gameMode this) "single" then selectedPlayer this
    else opponentOf (currentPlayer this).
Proof.
  intros fuel row col this this' Hacc H Hst.
  assert (Hended : forall sym this1, ended sym this1 this' -> False).
  { intros sym this1 [[_ ->] | (_ & _ & ->)].
    - apply (wins_not_playing sym). rewrite <- Hst. destruct this1; reflexivity.
    - destruct this1; discriminate Hst. }
  destruct (makeMove_Ok_inv _ _ _ _ _ _ H) as [[Hrej _] | [_ Hcase]];
    [congruence |].
  destruct Hcase as [Hend | [_ [[Hmode Hai] | [Hmode ->]]]].
  - exfalso. apply (Hended _ _ Hend).
  - rewrite Hmode. simpl.
    destruct (aiMove_Ok_inv _ _ _ _ Hai) as (m & _ & _ & _ & [Hend | [_ ->]]).
    + exfalso. apply (Hended _ _ Hend).
    + destruct this; reflexivity.
  - apply String.eqb_neq in Hmode. rewrite Hmode. destruct this; reflexivity.
Qed.

(** ** Starting a game *)

Lemma resetGame_run this :
  resetGame this =
  Ok tt (mkComponent emptyGrid (orX (selectedPlayer this)) "Playing"
                     (selectedPlayer this) (gameStarted this)
                     (gameMode this)).
Proof. destruct this. reflexivity. Qed.

Lemma startGame_run fuel this :
  startGame fuel this =
  if String.eqb (selectedPlayer this) "" then Ok tt this
  else
    let this1 := set_gameStarted true this in
    if String.eqb (gameMode this) "single" then
      if String.eqb (selectedPlayer this) "X" then
        resetGame (set_currentPlayer "X" this1)
      else
        match aiMove fuel (set_currentPlayer "X" this1) with
        | Ok _ s => resetGame s
        | Throw e s => Throw e s
        | OutOfFuel => OutOfFuel
        end
    else resetGame this1.
Proof.
  destruct this as [g cp st sp started mode].
  unfold startGame. unfold bind at 1, this_ at 1. fields.
  destruct (String.eqb sp ""); [reflexivity |].
  cbn [negb]. unfold bind at 1, assign at 1. unfold bind at 1, this_ at 1.
  fields. unfold bind at 1.
  destruct (String.eqb mode "single"); [| reflexivity].
  destruct (String.eqb sp "X"); [reflexivity |].
  unfold bind at 1, assign at 1. fields. reflexivity.
Qed.

Lemma orX_nonempty p : p <> "" -> orX p = p.
Proof.
  intros Hp. unfold orX. apply String.eqb_neq in Hp. rewrite Hp. reflexivity.
Qed.

Lemma startGame_Ok_inv fuel this u this' :
  startGame fuel this = Ok u this' ->
  (selectedPlayer this = "" /\ this' = this) \/
  (selectedPlayer this <> "" /\
   this' = mkComponent emptyGrid (selectedPlayer this) "Playing"
                       (selectedPlayer this) true (gameMode this)).
Proof.
  rewrite startGame_run.
  destruct (String.eqb (selectedPlayer this) "") eqn:Hsel.
  { apply String.eqb_eq in Hsel. intros H. left. split; congruence. }
  apply String.eqb_neq in Hsel. cbv zeta. intros H. right.
  split; [exact Hsel |].
  assert (Hreset : forall s,
             same_setup (set_gameStarted true this) s ->
             resetGame s = Ok u this' ->
             this' = mkComponent emptyGrid (selectedPlayer this) "Playing"
                                 (selectedPlayer this) true (gameMode this)).
  { intros s (H1 & H2 & H3) Hr. rewrite resetGame_run in Hr.
    rewrite H1, H2, H3 in Hr.
    assert (E1 : selectedPlayer (set_gameStarted true this)
                 = selectedPlayer this) by (destruct this; reflexivity).
    assert (E2 : gameStarted (set_gameStarted true this) = true)
      by (destruct this; reflexivity).
    assert (E3 : gameMode (set_gameStarted true this) = gameMode this)
      by (destruct this; reflexivity).
    rewrite E1, E2, E3, (orX_nonempty _ Hsel) in Hr. congruence. }
  destruct (String.eqb (gameMode this) "single").
  - destruct (String.eqb (selectedPlayer this) "X").
    + apply (Hreset _ (same_setup_set_currentPlayer _ _) H).
    + destruct (aiMove fuel _) as [u1 s | e s |] eqn:Hai; try discriminate.
      apply (Hreset s); [| exact H].
      apply (same_setup_trans _ _ _ (same_setup_set_currentPlayer "X" _)).
      apply (aiMove_setup fuel). rewrite Hai. reflexivity.
  - apply (Hreset _ (same_setup_refl _) H).
Qed.

(** X12: whenever [startGame] returns with a player selected, the game is
    started on the all-empty grid, the status is 'Playing' and the selected
    player is to move, whatever the mode and the state before. *)
Theorem startGame_result :
  forall fuel this this',
    selectedPlayer this <> "" ->
    startGame fuel this = Ok tt this' ->
    this' = mkComponent emptyGrid (selectedPlayer this) "Playing"
                        (selectedPlayer this) true (gameMode this).
Proof.
  intros fuel this this' Hsel H.
  destruct (startGame_Ok_inv _ _ _ _ H) as [[E _] | [_ E]];
    [contradiction | exact E].
Qed.

Lemma emptyGrid_is3x3 : is3x3 emptyGrid.
Proof.
  exists emptyRow, emptyRow, emptyRow. split; [reflexivity |].
  repeat split; exists "", "", ""; reflexivity.
Qed.

(** With the nine levels that the empty grid needs, [startGame] returns
    from any state whose grid is empty. *)
Lemma startGame_returns fuel this :
  grid this = emptyGrid -> (9 <= fuel)%nat ->
  exists this', startGame fuel this = Ok tt this'.
Proof.
  intros Hg Hfuel. rewrite startGame_run.
  destruct (String.eqb (selectedPlayer this) ""); [eauto |].
  cbv zeta.
  destruct (String.eqb (gameMode this) "single");
    [| rewrite resetGame_run; eauto].
  destruct (String.eqb (selectedPlayer this) "X");
    [rewrite resetGame_run; eauto |].
  destruct (aiMove_returns
              fuel (set_currentPlayer "X" (set_gameStarted true this)))
    as (m & s & Hai & _).
  - destruct this; simpl in *. subst. exact emptyGrid_is3x3.
  - destruct this; simpl in *. subst. reflexivity.
  - destruct this; simpl in *. subst. exact Hfuel.
  - rewrite Hai, resetGame_run. eauto.
Qed.

(** X13: from any state, [resetPage(); selectPlayer(p); setGameMode(mode);
    startGame()] with a non-empty [p] returns, and the state it leaves does
    not depend on the state before. *)
Theorem new_game_from_any_state :
  forall fuel this p mode,
    p <> "" -> (9 <= fuel)%nat ->
    (resetPage ;; selectPlayer p ;; setGameMode mode ;; startGame fuel)%m this
    = Ok tt (mkComponent emptyGrid p "Playing" p true mode).
Proof.
  intros fuel this p mode Hp Hfuel.
  assert (Hsetup :
            (resetPage ;; selectPlayer p ;; setGameMode mode ;;
             startGame fuel)%m this
            = startGame fuel
                        (mkComponent emptyGrid (orX (selectedPlayer this))
                                     "Playing" p false mode)).
  { destruct this. reflexivity. }
  rewrite Hsetup.
  destruct (startGame_returns
              fuel (mkComponent emptyGrid (orX (selectedPlayer this))
                                "Playing" p false mode) eq_refl Hfuel)
    as [this' Hrun].
  rewrite Hrun. f_equal.
  destruct (startGame_Ok_inv _ _ _ _ Hrun) as [[E _] | [_ E]];
    [simpl in E; contradiction | exact E].
Qed.

(** ** A cell is taken once *)

Lemma makeMove_occupied fuel row col this s :
  look (grid this) (row, col) = Some s -> s <> "" ->
  makeMove fuel row col this = Ok tt this.
Proof.
  intros Hl Hs. rewrite makeMove_run.
  unfold look, cell in Hl. simpl fst in Hl. simpl snd in Hl.
  destruct (row_at (grid this) row) as [a |]; [| discriminate].
  rewrite Hl. simpl js_not. apply String.eqb_neq in Hs. rewrite Hs.
  reflexivity.
Qed.

(** X14: after an accepted move of a non-empty mark the cell holds that mark,
    also when the automated side has replied, and a second [makeMove] on the
    same cell changes nothing. *)
Theorem makeMove_same_cell_again :
  forall fuel fuel' row col this this',
    accepted row col this = true -> currentPlayer this <> "" ->
    makeMove fuel row col this = Ok tt this' ->
    look (grid this') (row, col) = Some (currentPlayer this) /\
    makeMove fuel' row col this' = Ok tt this'.
Proof.
  intros fuel fuel' row col this this' Hacc Hcur H.
  destruct (accepted_inv _ _ _ Hacc) as (a & Ha & Hfalsy & _).
  assert (Hl1 : look (place (row, col) (currentPlayer this) (grid this))
                     (row, col) = Some (currentPlayer this))
    by (apply (look_place_same _ _ _ a); exact Ha).
  assert (Hl : look (grid this') (row, col) = Some (currentPlayer this)).
  { destruct (makeMove_grid _ _ _ _ _ _ H)
      as [[Hrej _] | [_ [-> | (m & _ & _ & He & ->)]]].
    - congruence.
    - exact Hl1.
    - apply place_keeps_marks;
        [apply empty_at_falsy; exact He | exact Hl1 | exact Hcur]. }
  split; [exact Hl |].
  apply (makeMove_occupied _ _ _ _ _ Hl Hcur).
Qed.

Lemma makeMove_no_search fuel fuel' row col this :
  gameMode this <> "single" ->
  makeMove fuel row col this = makeMove fuel' row col this.
Proof.
  intros Hmode. rewrite !makeMove_run.
  apply String.eqb_neq in Hmode. rewrite Hmode. reflexivity.
Qed.

(** X15: outside single mode an accepted move writes the current player's
    mark to the chosen cell and changes no other cell, and the search is not
    run: the result is the same for every fuel. *)
Theorem makeMove_two_humans :
  forall fuel row col this this',
    gameMode this <> "single" -> accepted row col this = true ->
    makeMove fuel row col this = Ok tt this' ->
    (forall fuel', makeMove fuel' row col this = Ok tt this') /\
    look (grid this') (row, col) = Some (currentPlayer this) /\
    forall m, m <> (row, col) -> look (grid this') m = look (grid this) m.
Proof.
  intros fuel row col this this' Hmode Hacc H.
  destruct (accepted_inv _ _ _ Hacc) as (a & Ha & _ & _).
  split.
  { intros fuel'. rewrite (makeMove_no_search fuel' fuel _ _ _ Hmode).
    exact H. }
  assert (Hg : grid this' = place (row, col) (currentPlayer this) (grid this)).
  { destruct (makeMove_grid _ _ _ _ _ _ H)
      as [[Hrej _] | [_ [Hg | (m & Hsingle & _)]]]; congruence. }
  rewrite Hg. split.
  - apply (look_place_same _ _ _ a). exact Ha.
  - intros m Hne. apply look_place_other. exact Hne.
Qed.

(** ** The search takes a win and parries a single threat *)

Lemma child_value fuel depth flag aiSymbol playerSymbol b m sym :
  is3x3 b -> aiSymbol <> "" -> playerSymbol <> "" -> sym <> "" ->
  (count_empty b <= fuel)%nat ->
  In m allCells -> empty_at b m = true ->
  exists z,
    minimax fuel depth flag aiSymbol playerSymbol (place m sym b)
    = Ok (Fin z) (place m sym b).
Proof.
  intros Hb Hai Hpl Hsym Hfuel Hin He.
  destruct (minimax_total fuel depth flag aiSymbol playerSymbol
                          (place m sym b)) as [s Hs]; try assumption.
  - apply rows3_place. apply is3x3_rows3. exact Hb.
  - pose proof (count_empty_place m sym b Hin He Hsym). lia.
  - destruct (minimax_finite _ _ _ _ _ _ _ _ (is3x3_place m sym b Hb Hin) Hs)
      as [z ->].
    exists z. exact Hs.
Qed.

(** A position that is not won is worth strictly less than a win and
    strictly more than a loss at its depth. *)
Lemma minimax_not_won_bounds fuel depth isMaximizing aiSymbol playerSymbol
      b s b' :
  is3x3 b -> aiSymbol <> "" -> playerSymbol <> "" ->
  checkWin b = Val false ->
  0 <= depth <= 9 -> depth + Z.of_nat (count_empty b) <= 10 ->
  minimax fuel depth isMaximizing aiSymbol playerSymbol b = Ok s b' ->
  exists z, s = Fin z /\ -10 + (depth + 1) <= z <= 10 - (depth + 1).
Proof.
  intros Hb Hai Hpl Hw Hd0 Hd H.
  destruct fuel as [| fuel]; [discriminate |].
  pose proof (is3x3_rows3 b Hb) as Hb3.
  rewrite minimax_S, Hw in H.
  destruct (isDraw b) eqn:Hdraw.
  { assert (E : s = Fin 0) by congruence.
    exists 0. split; [exact E | lia]. }
  rewrite (getAvailableMoves_spec b Hb3) in H.
  rewrite (foldM_ext _ _ _ (minimaxBody_scored _ _ _)) in H.
  apply scoredLoop_inv in H;
    [| intros m s2 b2 _ Hs; apply (minimax_frame _ _ _ _ _ _ _ _ Hs)
     | intros m Hm; apply filter_In in Hm; apply Hm].
  destruct H as (_ & Hs & Hall).
  set (sym := if isMaximizing then aiSymbol else playerSymbol) in *.
  assert (Hsym : sym <> "")
    by (subst sym; destruct isMaximizing; assumption).
  set (sc := scoreAfter sym
                        (minimax fuel (depth + 1) (negb isMaximizing)
                                 aiSymbol playerSymbol) b) in *.
  assert (Hchild : forall m, In m (filter (empty_at b) allCells) ->
             exists z, sc m = Fin z /\
                       -10 + (depth + 1) <= z <= 10 - (depth + 1)).
  { intros m Hm. pose proof (Hall m Hm) as Hm'.
    apply filter_In in Hm. destruct Hm as [Hin He].
    apply minimax_bounds in Hm'; try assumption.
    - apply is3x3_place; assumption.
    - lia.
    - pose proof (count_empty_place m sym b Hin He Hsym). lia. }
  destruct (minimaxPick_extremum isMaximizing sc
                                 (filter (empty_at b) allCells))
    as (z & Hfold & (m0 & Hm0 & Hz0) & _).
  { intros m Hm. destruct (Hchild m Hm) as (z & Hz & _). eauto. }
  { apply is3x3_not_full; assumption. }
  exists z. split; [rewrite Hs; exact Hfold |].
  destruct (Hchild m0 Hm0) as (z0 & Hz0' & Hrange).
  assert (z0 = z) by congruence. lia.
Qed.

Lemma first_max_In sc l m : first_max sc l m -> In m l.
Proof.
  intros (pre & post & -> & _). apply in_or_app. right. left. reflexivity.
Qed.

Lemma num_le_refl a : num_le a a = true.
Proof. destruct a; simpl; try reflexivity. apply Z.leb_refl. Qed.

Lemma first_max_ge sc l m x :
  first_max sc l m -> In x l -> num_le (sc x) (sc m) = true.
Proof.
  intros (pre & post & -> & Hpre & Hpost) Hx.
  apply in_app_or in Hx. destruct Hx as [Hx | [<- | Hx]].
  - pose proof (Hpre x Hx) as H. unfold num_gt in H.
    apply negb_true_iff in H.
    destruct (sc m), (sc x); simpl in *; try congruence.
    rewrite Z.leb_gt in H. apply Z.leb_le. lia.
  - apply num_le_refl.
  - apply Hpost. exact Hx.
Qed.

Lemma first_max_unique_best sc l m t zt :
  first_max sc l m -> In t l -> sc t = Fin zt ->
  (forall x, In x l -> x <> t -> exists z, sc x = Fin z /\ z < zt) ->
  m = t.
Proof.
  intros Hfm Ht Hzt Hless.
  assert (Hdec : m = t \/ m <> t).
  { destruct m as [r c], t as [r' c'].
    destruct (Z.eq_dec r r'), (Z.eq_dec c c'); subst; auto;
      right; congruence. }
  destruct Hdec as [E | Hne]; [exact E |].
  - exfalso.
    destruct (Hless m (first_max_In _ _ _ Hfm) Hne) as (z & Hz & Hlt).
    pose proof (first_max_ge _ _ _ t Hfm Ht) as Hle.
    rewrite Hzt, Hz in Hle. simpl in Hle. apply Z.leb_le in Hle. lia.
Qed.

(** The move [getBestMove] returns on a 3x3 board with an empty cell is a
    first maximum of the scores of the available moves. *)
Lemma getBestMove_chosen fuel aiSymbol b :
  is3x3 b -> aiSymbol <> "" -> isDraw b = false ->
  (count_empty b <= fuel)%nat ->
  exists m,
    getBestMove fuel aiSymbol b = Ok m b /\
    first_max (scoreAfter aiSymbol
                          (minimax fuel 0 false aiSymbol
                                   (opponentOf aiSymbol)) b)
              (filter (empty_at b) allCells) m.
Proof.
  intros Hb Hai Hd Hfuel. pose proof (is3x3_rows3 b Hb) as Hb3.
  eexists. split; [apply getBestMove_total; assumption |].
  apply bestMovePick_first_max.
  - intros x Hx. apply filter_In in Hx. destruct Hx as [Hin He].
    destruct (tryMove_scored fuel aiSymbol (opponentOf aiSymbol) 0 false
                             b x Hb Hai (opponentOf_nonempty aiSymbol)
                             Hfuel Hin He aiSymbol Hai)
      as (z & _ & Hz). eauto.
  - apply is3x3_not_full; assumption.
Qed.

Lemma empty_cell_not_full b m :
  is3x3 b -> In m allCells -> empty_at b m = true -> isDraw b = false.
Proof.
  intros Hb Hin He. destruct (isDraw b) eqn:Hd; [| reflexivity].
  rewrite (isDraw_full b Hb Hd m Hin) in He. discriminate.
Qed.

Lemma count_empty_pos b m :
  In m allCells -> empty_at b m = true -> (1 <= count_empty b)%nat.
Proof.
  intros Hin He. unfold count_empty.
  assert (H : In m (filter (empty_at b) allCells))
    by (apply filter_In; split; assumption).
  destruct (filter (empty_at b) allCells); [contradiction | simpl; lia].
Qed.

(** The score [getBestMove] gives a move: 10 exactly when the move completes
    a line, otherwise between -9 and 9. *)
Lemma top_score fuel aiSymbol b m :
  is3x3 b -> aiSymbol <> "" -> (count_empty b <= fuel)%nat ->
  In m allCells -> empty_at b m = true ->
  exists z,
    scoreAfter aiSymbol
               (minimax fuel 0 false aiSymbol (opponentOf aiSymbol)) b m
    = Fin z /\
    (checkWin (place m aiSymbol b) = Val true -> z = 10) /\
    (checkWin (place m aiSymbol b) = Val false -> -9 <= z <= 9).
Proof.
  intros Hb Hai Hfuel Hin He.
  pose proof (opponentOf_nonempty aiSymbol) as Hpl.
  destruct (child_value fuel 0 false aiSymbol (opponentOf aiSymbol) b m
                        aiSymbol Hb Hai Hpl Hai Hfuel Hin He) as [z Hz].
  exists z. split; [unfold scoreAfter; rewrite Hz; reflexivity |].
  pose proof (count_empty_place m aiSymbol b Hin He Hai) as Hcount.
  pose proof (count_empty_le_9 b) as H9.
  split; intros Hw.
  - destruct fuel as [| fuel];
      [pose proof (count_empty_pos b m Hin He); lia |].
    rewrite minimax_S, Hw in Hz.
    assert (E : Fin (10 - 0) = Fin z) by congruence.
    assert (E' : 10 - 0 = z) by congruence. lia.
  - assert (Hd0 : 0 <= 0 <= 9) by lia.
    assert (Hd : 0 + Z.of_nat (count_empty (place m aiSymbol b)) <= 10)
      by lia.
    destruct (minimax_not_won_bounds
                _ _ _ _ _ _ _ _ (is3x3_place m aiSymbol b Hb Hin) Hai Hpl Hw
                Hd0 Hd Hz) as (z' & E & Hrange).
    assert (z = z') by congruence. lia.
Qed.

(** X16: on a 3x3 board without a completed line, if some available move
    completes a line for the mover (X or O), the move [getBestMove] returns
    completes a line for the mover. *)
Theorem getBestMove_takes_immediate_win :
  forall fuel aiSymbol b w,
    is3x3 b -> checkWin b = Val false ->
    aiSymbol = "X" \/ aiSymbol = "O" ->
    (count_empty b <= fuel)%nat ->
    In w allCells -> empty_at b w = true ->
    checkWin (place w aiSymbol b) = Val true ->
    exists m,
      getBestMove fuel aiSymbol b = Ok m b /\
      In m allCells /\ empty_at b m = true /\
      checkWin (place m aiSymbol b) = Val true /\
      has_line (place m aiSymbol b) aiSymbol.
Proof.
  intros fuel aiSymbol b w Hb Hw0 Hsym Hfuel Hwin Hwe Hww.
  assert (Hai : aiSymbol <> "") by (destruct Hsym as [-> | ->]; discriminate).
  pose proof (is3x3_rows3 b Hb) as Hb3.
  destruct (getBestMove_chosen fuel aiSymbol b Hb Hai
                               (empty_cell_not_full b w Hb Hwin Hwe) Hfuel)
    as (m & Hbest & Hfm).
  set (sc := scoreAfter aiSymbol
                        (minimax fuel 0 false aiSymbol (opponentOf aiSymbol))
                        b) in *.
  pose proof (first_max_In _ _ _ Hfm) as Hm. apply filter_In in Hm.
  destruct Hm as [Hmin Hme].
  destruct (top_score fuel aiSymbol b w Hb Hai Hfuel Hwin Hwe)
    as (zw & Hzw & Hw10 & _).
  destruct (top_score fuel aiSymbol b m Hb Hai Hfuel Hmin Hme)
    as (zm & Hzm & _ & Hm9).
  fold sc in Hzw, Hzm.
  assert (Hle : num_le (sc w) (sc m) = true).
  { apply (first_max_ge _ _ _ w Hfm). apply filter_In. split; assumption. }
  rewrite Hzw, Hzm in Hle. simpl in Hle. apply Z.leb_le in Hle.
  rewrite (Hw10 Hww) in Hle.
  assert (Hmw : checkWin (place m aiSymbol b) = Val true).
  { rewrite (checkWin_wins _ (rows3_place m aiSymbol b Hb3)).
    destruct (wins (place m aiSymbol b)) eqn:E; [reflexivity |].
    exfalso. rewrite (checkWin_wins _ (rows3_place m aiSymbol b Hb3)) in Hm9.
    rewrite E in Hm9. specialize (Hm9 eq_refl). lia. }
  exists m. split; [exact Hbest |]. split; [exact Hmin |].
  split; [exact Hme |]. split; [exact Hmw |].
  apply (line_after_mark b m aiSymbol Hb3 Hw0 Hsym Hmw).
Qed.

Lemma move_dec (m m' : Move) : m = m' \/ m <> m'.
Proof.
  destruct m as [r c], m' as [r' c'].
  destruct (Z.eq_dec r r'), (Z.eq_dec c c'); subst; auto; right; congruence.
Qed.

Lemma row_at_cell b m : rows3 b -> In m allCells -> exists a, row_at b (fst m) = Some a.
Proof.
  intros Hb Hin. apply rows3_row_at; [exact Hb |].
  apply (allCells_range m Hin).
Qed.

(** A line that [pl] would complete at [t] is still completed at [t] after
    another mark went to an empty cell. *)
Lemma has_line_survives b m t sym pl :
  rows3 b -> In t allCells -> empty_at b m = true -> pl <> "" ->
  has_line (place t pl b) pl ->
  has_line (place t pl (place m sym b)) pl.
Proof.
  intros Hb Ht He Hpl (combination & Hc & Hl).
  exists combination. split; [exact Hc |].
  intros x Hx. pose proof (Hl x Hx) as Hlx.
  destruct (move_dec x t) as [-> | Hxt].
  - destruct (row_at_cell _ t (rows3_place m sym b Hb) Ht) as [a Ha].
    apply (look_place_same _ _ _ a Ha).
  - rewrite look_place_other by exact Hxt.
    rewrite look_place_other in Hlx by exact Hxt.
    rewrite look_place_other; [exact Hlx |].
    intros ->. apply empty_at_look in He. congruence.
Qed.

(** A line that [pl] completes at [o] next to a foreign mark at [t] does
    not need that mark. *)
Lemma has_line_strip b o t sym pl :
  rows3 b -> In o allCells -> In t allCells -> sym <> pl -> o <> t ->
  has_line (place o pl (place t sym b)) pl ->
  has_line (place o pl b) pl.
Proof.
  intros Hb Ho Ht Hne Hot (combination & Hc & Hl).
  exists combination. split; [exact Hc |].
  intros x Hx. pose proof (Hl x Hx) as Hlx.
  destruct (move_dec x o) as [-> | Hxo].
  - destruct (row_at_cell _ o Hb Ho) as [a Ha].
    apply (look_place_same _ _ _ a Ha).
  - rewrite look_place_other by exact Hxo.
    rewrite look_place_other in Hlx by exact Hxo.
    destruct (move_dec x t) as [-> | Hxt].
    + destruct (row_at_cell _ t Hb Ht) as [a Ha].
      rewrite (look_place_same _ _ _ a Ha) in Hlx. congruence.
    + rewrite look_place_other in Hlx by exact Hxt. exact Hlx.
Qed.

Lemma opponentOf_differs sym :
  sym = "X" \/ sym = "O" -> sym <> opponentOf sym.
Proof. intros [-> | ->]; discriminate. Qed.

Lemma checkWin_bool b : rows3 b -> checkWin b = Val true \/ checkWin b = Val false.
Proof.
  intros Hb. rewrite (checkWin_wins b Hb). destruct (wins b); auto.
Qed.

(** The score of a move that leaves the opponent a winning reply is -9. *)
Lemma top_score_threat fuel aiSymbol b x t :
  is3x3 b -> aiSymbol = "X" \/ aiSymbol = "O" ->
  (count_empty b <= fuel)%nat ->
  In x allCells -> empty_at b x = true ->
  In t allCells -> empty_at b t = true -> x <> t ->
  checkWin b = Val false ->
  checkWin (place x aiSymbol b) = Val false ->
  checkWin (place t (opponentOf aiSymbol) b) = Val true ->
  scoreAfter aiSymbol (minimax fuel 0 false aiSymbol (opponentOf aiSymbol))
             b x = Fin (-9).
Proof.
  intros Hb Hsym Hfuel Hx Hxe Ht Hte Hxt Hw0 Hwx Hwt.
  assert (Hai : aiSymbol <> "") by (destruct Hsym as [-> | ->]; discriminate).
  pose proof (opponentOf_nonempty aiSymbol) as Hpl.
  pose proof (is3x3_rows3 b Hb) as Hb3.
  set (pl := opponentOf aiSymbol) in *.
  set (c := place x aiSymbol b).
  assert (Hc : is3x3 c) by (apply is3x3_place; assumption).
  pose proof (is3x3_rows3 c Hc) as Hc3.
  assert (Htc : empty_at c t = true).
  { unfold c. rewrite empty_at_place_other; [exact Hte | exact Hxe |].
    intros E. apply Hxt. symmetry. exact E. }
  pose proof (count_empty_place x aiSymbol b Hx Hxe Hai) as Hcount.
  pose proof (count_empty_place t pl c Ht Htc Hpl) as Hcount'.
  pose proof (count_empty_le_9 b) as H9.
  destruct fuel as [| fuel]; [lia |].
  destruct fuel as [| fuel]; [fold c in Hcount; lia |].
  fold c in Hcount.
  destruct (minimax_children (S fuel) 0 false aiSymbol pl c Hc Hai Hpl Hwx
                             (empty_cell_not_full c t Hc Ht Htc)
                             ltac:(lia))
    as (z & Hz & [_ Hext] & _).
  unfold scoreAfter. fold c. rewrite Hz. simpl returned. f_equal.
  assert (Hlow : -9 <= z).
  { assert (Hd0 : 0 <= 0 <= 9) by lia.
    assert (Hd : 0 + Z.of_nat (count_empty c) <= 10) by lia.
    destruct (minimax_not_won_bounds _ _ _ _ _ _ _ _ Hc Hai Hpl Hwx
                                     Hd0 Hd Hz) as (z' & E & Hrange).
    assert (z = z') by congruence. lia. }
  assert (Hup : z <= -9).
  { destruct (Hext t) as (zt & Hzt & Hle).
    { apply filter_In. split; assumption. }
    assert (Hline : has_line (place t pl c) pl).
    { apply has_line_survives; try assumption.
      apply (line_after_mark b t pl Hb3 Hw0); [| exact Hwt].
      destruct (opponentOf_cases aiSymbol); auto. }
    assert (Hwon : checkWin (place t pl c) = Val true).
    { apply (has_line_checkWin _ pl); [apply rows3_place; exact Hc3 | | exact Hline].
      destruct (opponentOf_cases aiSymbol); auto. }
    unfold scoreAfter in Hzt. simpl negb in Hzt.
    rewrite minimax_S, Hwon in Hzt. simpl returned in Hzt.
    assert (E : Fin (-9) = Fin zt) by exact Hzt.
    assert (E' : -9 = zt) by congruence. lia. }
  lia.
Qed.

(** The score of the move that parries the only threat is at least -8. *)
Lemma top_score_parry fuel aiSymbol b t :
  is3x3 b -> aiSymbol = "X" \/ aiSymbol = "O" ->
  (count_empty b <= fuel)%nat ->
  In t allCells -> empty_at b t = true ->
  checkWin (place t aiSymbol b) = Val false ->
  (forall m, In m allCells -> empty_at b m = true -> m <> t ->
             checkWin (place m (opponentOf aiSymbol) b) = Val false) ->
  exists z,
    scoreAfter aiSymbol (minimax fuel 0 false aiSymbol (opponentOf aiSymbol))
               b t = Fin z /\ -8 <= z.
Proof.
  intros Hb Hsym Hfuel Ht Hte Hwt Honly.
  assert (Hai : aiSymbol <> "") by (destruct Hsym as [-> | ->]; discriminate).
  pose proof (opponentOf_nonempty aiSymbol) as Hpl.
  pose proof (opponentOf_differs aiSymbol Hsym) as Hne.
  pose proof (is3x3_rows3 b Hb) as Hb3.
  set (pl := opponentOf aiSymbol) in *.
  pose proof (count_empty_place t aiSymbol b Ht Hte Hai) as Hcount.
  pose proof (is3x3_place t aiSymbol b Hb Ht) as Hc.
  pose proof (empty_at_place_same t aiSymbol b Hte Hai) as Htaken.
  assert (Hother : forall o, o <> t ->
             empty_at (place t aiSymbol b) o = empty_at b o)
    by (intros o Hot; apply empty_at_place_other; assumption).
  remember (place t aiSymbol b) as c eqn:Ec.
  pose proof (is3x3_rows3 c Hc) as Hc3.
  pose proof (count_empty_le_9 b) as H9.
  destruct fuel as [| fuel]; [lia |].
  unfold scoreAfter. rewrite <- Ec.
  destruct (isDraw c) eqn:Hd.
  { rewrite minimax_S, Hwt, Hd. exists 0. split; [reflexivity | lia]. }
  destruct (minimax_children fuel 0 false aiSymbol pl c Hc Hai Hpl Hwt Hd
                             ltac:(lia))
    as (z & Hz & [(o & Ho & Hzo) _] & Hchild).
  rewrite Hz. exists z. split; [reflexivity |].
  apply filter_In in Ho. destruct Ho as [Hoin Hoe].
  assert (Hot : o <> t) by (intros ->; congruence).
  assert (Hob : empty_at b o = true) by (rewrite <- (Hother o Hot); exact Hoe).
  assert (Hwo : checkWin (place o pl c) = Val false).
  { destruct (checkWin_bool (place o pl c) (rows3_place o pl c Hc3))
      as [Hwon | Hno]; [| exact Hno].
    exfalso.
    assert (Hplc : pl = "X" \/ pl = "O")
      by (destruct (opponentOf_cases aiSymbol); auto).
    destruct (line_after_mark c o pl Hc3 Hwt Hplc Hwon) as [Hline _].
    rewrite Ec in Hline. apply has_line_strip in Hline; try assumption.
    pose proof (has_line_checkWin _ pl (rows3_place o pl b Hb3)
                                  ltac:(destruct Hplc; auto) Hline) as Hw.
    rewrite (Honly o Hoin Hob Hot) in Hw. discriminate. }
  pose proof (Hchild o ltac:(apply filter_In; split; assumption)) as Hval.
  rewrite Hzo in Hval.
  pose proof (count_empty_place o pl c Hoin Hoe Hpl) as Hcount'.
  assert (Hd0 : 0 <= 0 + 1 <= 9) by lia.
  assert (Hdc : 0 + 1 + Z.of_nat (count_empty (place o pl c)) <= 10) by lia.
  destruct (minimax_not_won_bounds _ _ _ _ _ _ _ _
                                   (is3x3_place o pl c Hc Hoin) Hai Hpl Hwo
                                   Hd0 Hdc Hval) as (z' & E & Hrange).
  assert (z = z') by congruence. lia.
Qed.

(** X17: on a 3x3 board without a completed line, if the mover (X or O) has
    no move that completes a line and the opponent has exactly one, at the
    empty cell [t], then [getBestMove] returns [t]. *)
Theorem getBestMove_parries_single_threat :
  forall fuel aiSymbol b t,
    is3x3 b -> checkWin b = Val false ->
    aiSymbol = "X" \/ aiSymbol = "O" ->
    (count_empty b <= fuel)%nat ->
    In t allCells -> empty_at b t = true ->
    (forall m, In m allCells -> empty_at b m = true ->
               checkWin (place m aiSymbol b) = Val false) ->
    checkWin (place t (opponentOf aiSymbol) b) = Val true ->
    (forall m, In m allCells -> empty_at b m = true -> m <> t ->
               checkWin (place m (opponentOf aiSymbol) b) = Val false) ->
    getBestMove fuel aiSymbol b = Ok t b.
Proof.
  intros fuel aiSymbol b t Hb Hw0 Hsym Hfuel Ht Hte Hnowin Hthreat Honly.
  assert (Hai : aiSymbol <> "") by (destruct Hsym as [-> | ->]; discriminate).
  destruct (getBestMove_chosen fuel aiSymbol b Hb Hai
                               (empty_cell_not_full b t Hb Ht Hte) Hfuel)
    as (m & Hbest & Hfm).
  destruct (top_score_parry fuel aiSymbol b t Hb Hsym Hfuel Ht Hte
                            (Hnowin t Ht Hte) Honly) as (zt & Hzt & Hlow).
  assert (E : m = t).
  { apply (first_max_unique_best _ _ m t zt Hfm).
    - apply filter_In. split; assumption.
    - exact Hzt.
    - intros x Hx Hxt. apply filter_In in Hx. destruct Hx as [Hx Hxe].
      exists (-9). split; [| lia].
      apply (top_score_threat fuel aiSymbol b x t); try assumption.
      apply Hnowin; assumption. }
  rewrite <- E. exact Hbest.
Qed.

(** ** A move on the grid returns *)

(** X18: on a 3x3 grid, with coordinates in [0,2] and enough fuel for the
    reply of the automated side, [makeMove] returns: it neither throws nor
    runs out of fuel. *)
Theorem makeMove_returns :
  forall fuel row col this,
    is3x3 (grid this) -> in_range row = true -> in_range col = true ->
    (count_empty (grid this) <= fuel)%nat ->
    exists this', makeMove fuel row col this = Ok tt this'.
Proof.
  intros fuel row col this Hb Hr Hc Hfuel.
  pose proof (in_range_allCells row col Hr Hc) as Hin.
  destruct (row_at_cell _ (row, col) (is3x3_rows3 _ Hb) Hin) as [a Ha].
  simpl fst in Ha.
  rewrite makeMove_run, Ha.
  destruct (js_not (arr_get a col) && String.eqb (gameStatus this) "Playing")
    eqn:Hcond; [| eauto].
  cbv zeta. fold (marked (row, col) (currentPlayer this) this).
  rewrite grid_marked.
  pose proof (is3x3_place (row, col) (currentPlayer this) (grid this) Hb Hin)
    as Hb1.
  rewrite (checkWin_wins _ (is3x3_rows3 _ Hb1)).
  destruct (wins _); [eauto |].
  destruct (isDraw (place (row, col) (currentPlayer this) (grid this)))
    eqn:Hd; [eauto |].
  destruct (String.eqb (gameMode this) "single"); [| eauto].
  apply andb_true_iff in Hcond. destruct Hcond as [Hfalsy _].
  assert (Hfalsy' : js_not (look (grid this) (row, col)) = true).
  { unfold look, cell. simpl fst. simpl snd. rewrite Ha. exact Hfalsy. }
  destruct (human_mark_count (grid this) (row, col) (currentPlayer this)
                             Hb Hin Hfalsy') as [Hle _].
  destruct (aiMove_returns
              fuel
              (set_currentPlayer (opponentOf (currentPlayer this))
                                 (marked (row, col) (currentPlayer this) this)))
    as (m & this' & Hai & _).
  - destruct this; exact Hb1.
  - destruct this; exact Hd.
  - destruct this; simpl in *. lia.
  - exists this'. exact Hai.
Qed.

(** ** A column outside the grid *)

Lemma elems_put_length n v l :
  List.length (elems_put n v l) = Nat.max (List.length l) (S n).
Proof.
  revert l. induction n as [| n IH]; intros l.
  - destruct l; simpl; [reflexivity |]. destruct (List.length l); reflexivity.
  - destruct l as [| x l]; simpl; rewrite IH; simpl; lia.
Qed.

Lemma arr_set_length a c v :
  (List.length (elems a) <= List.length (elems (arr_set a c v)))%nat /\
  (is_index c = true ->
   (Z.to_nat c < List.length (elems (arr_set a c v)))%nat).
Proof.
  unfold arr_set. destruct (is_index c) eqn:E; simpl.
  - rewrite elems_put_length. lia.
  - split; [lia | discriminate].
Qed.

Lemma long_row_not_3x3 b r a :
  row_at b r = Some a -> (4 <= List.length (elems a))%nat -> ~ is3x3 b.
Proof.
  intros Ha Hlen (a0 & a1 & a2 & -> & H0 & H1 & H2).
  unfold row_at in Ha. destruct (0 <=? r); [| discriminate].
  destruct (Z.to_nat r) as [| [| [| n]]]; simpl in Ha.
  - injection Ha as <-. destruct H0 as (x & y & z & E). rewrite E in Hlen.
    simpl in Hlen. lia.
  - injection Ha as <-. destruct H1 as (x & y & z & E). rewrite E in Hlen.
    simpl in Hlen. lia.
  - injection Ha as <-. destruct H2 as (x & y & z & E). rewrite E in Hlen.
    simpl in Hlen. lia.
  - destruct n; discriminate.
Qed.

Lemma long_row_place b r a m v :
  row_at b r = Some a -> (4 <= List.length (elems a))%nat ->
  exists a', row_at (place m v b) r = Some a' /\
             (4 <= List.length (elems a'))%nat.
Proof.
  intros Ha Hlen. rewrite row_at_place.
  destruct (row_at b (fst m)) as [a0 |] eqn:H0; [| eauto].
  destruct (fst m =? r) eqn:E; [| eauto].
  apply Z.eqb_eq in E. rewrite E in H0.
  assert (a0 = a) by congruence. subst a0.
  eexists. split; [reflexivity |].
  pose proof (proj1 (arr_set_length a (snd m) v)). lia.
Qed.

(** X19: while the game is on, a move in a row of the grid and a column
    that is an array index greater than 2 is accepted: the mark is written
    beyond the third column, the row array grows, and the grid is no longer
    3x3. *)
Theorem makeMove_column_outside_grid :
  forall fuel row col this this',
    is3x3 (grid this) -> gameStatus this = "Playing" ->
    in_range row = true -> 2 < col < 4294967295 ->
    makeMove fuel row col this = Ok tt this' ->
    accepted row col this = true /\
    look (grid this') (row, col) = Some (currentPlayer this) /\
    ~ is3x3 (grid this').
Proof.
  intros fuel row col this this' Hb Hst Hr Hc H.
  assert (Hr' : 0 <= row <= 2).
  { unfold in_range in Hr. apply andb_true_iff in Hr.
    rewrite !Z.leb_le in Hr. exact Hr. }
  assert (Hidx : is_index col = true) by (apply is_index_range; lia).
  destruct (rows3_row_at _ row (is3x3_rows3 _ Hb) Hr') as [a Ha].
  assert (Hundef : arr_get a col = None).
  { destruct Hb as (a0 & a1 & a2 & Hg & H0 & H1 & H2).
    rewrite Hg in Ha. unfold row_at in Ha.
    destruct (0 <=? row); [| discriminate].
    assert (Hrow : is_row3 a).
    { destruct (Z.to_nat row) as [| [| [| n]]]; simpl in Ha;
        try (injection Ha as <-; assumption).
      destruct n; discriminate. }
    destruct Hrow as (x & y & z & E).
    unfold arr_get. rewrite Hidx, E.
    assert (Hn : (3 <= Z.to_nat col)%nat) by lia.
    destruct (nth_error [Some x; Some y; Some z] (Z.to_nat col)) eqn:En;
      [| reflexivity].
    assert (Hsome : nth_error [Some x; Some y; Some z] (Z.to_nat col) <> None)
      by congruence.
    apply nth_error_Some in Hsome. simpl in Hsome. lia. }
  assert (Hacc : accepted row col this = true).
  { unfold accepted. rewrite Ha, Hundef, Hst. reflexivity. }
  split; [exact Hacc |].
  set (g1 := place (row, col) (currentPlayer this) (grid this)).
  assert (Hl1 : look g1 (row, col) = Some (currentPlayer this))
    by (apply (look_place_same (row, col) _ _ a); exact Ha).
  assert (Hlong1 : exists a1, row_at g1 row = Some a1 /\
                              (4 <= List.length (elems a1))%nat).
  { exists (arr_set a col (currentPlayer this)). split.
    - unfold g1. rewrite row_at_place. simpl fst. simpl snd.
      rewrite Ha, Z.eqb_refl. reflexivity.
    - pose proof (proj2 (arr_set_length a col (currentPlayer this)) Hidx).
      lia. }
  destruct (makeMove_grid _ _ _ _ _ _ H)
    as [[Hrej _] | [_ [Hg | (m & _ & Hm & He & Hg)]]].
  - congruence.
  - fold g1 in Hg. rewrite Hg. split; [exact Hl1 |].
    destruct Hlong1 as (a1 & Ha1 & Hlen). apply (long_row_not_3x3 _ _ _ Ha1 Hlen).
  - fold g1 in Hg, He. rewrite Hg. split.
    + rewrite look_place_other; [exact Hl1 |].
      intros E. rewrite <- E in Hm.
      destruct (allCells_range _ Hm) as [_ Hcol]. simpl in Hcol. lia.
    + destruct Hlong1 as (a1 & Ha1 & Hlen).
      destruct (long_row_place g1 row a1 m (aiSymbolOf this) Ha1 Hlen)
        as (a' & Ha' & Hlen').
      apply (long_row_not_3x3 _ _ _ Ha' Hlen').
Qed.

(** ** Instances *)

Lemma scenarioA_rows3 : rows3 scenarioA.
Proof. unfold rows3. simpl. lia. Qed.

Lemma scenarioB_is3x3 : is3x3 scenarioB.
Proof.
  exists (row3 "X" "X" ""), (row3 "O" "" ""), (row3 "" "" "").
  split; [reflexivity |].
  repeat split; do 3 eexists; reflexivity.
Qed.

Lemma centreTaken_is3x3 : is3x3 (grid centreTaken).
Proof.
  exists emptyRow, (row3 "" "X" ""), emptyRow.
  split; [reflexivity |].
  repeat split; do 3 eexists; reflexivity.
Qed.

Lemma cornerTaken_run : makeMove 0 0 0 centreTaken = Ok tt cornerTaken.
Proof. reflexivity. Qed.

Lemma xHasWon_run : makeMove 0 2 0 xToMove = Ok tt xHasWon.
Proof. reflexivity. Qed.

Lemma fullWon_rows3 : rows3 fullWon.
Proof. unfold rows3. simpl. lia. Qed.

Lemma checkWin_iff_line_witness :
  rows3 fullWon /\ checkWin fullWon = Val true /\
  (three_in_line fullWon "O" \/ three_in_line fullWon "X").
Proof.
  split; [exact fullWon_rows3 |]. split; [reflexivity |].
  destruct (checkWin_iff_line fullWon fullWon_rows3) as (w & Hw & Hiff).
  apply Hiff.
  assert (E : checkWin fullWon = Val true) by reflexivity.
  congruence.
Defined.

Lemma getAvailableMoves_empty_cells_witness :
  (rows3 scenarioA /\
   exists moves,
     getAvailableMoves scenarioA = Val moves /\
     NoDup moves /\
     forall m, In m moves <->
               (0 <= fst m <= 2 /\ 0 <= snd m <= 2 /\
                look scenarioA m = Some "")) /\
  (~ rows3 [row3 "X" "" ""] /\
   getAvailableMoves [row3 "X" "" ""] = Err TypeError).
Proof.
  split.
  - split; [exact scenarioA_rows3 |].
    apply (proj1 (getAvailableMoves_empty_cells scenarioA)).
    exact scenarioA_rows3.
  - assert (H : ~ rows3 [row3 "X" "" ""]) by (unfold rows3; simpl; lia).
    split; [exact H |].
    apply (proj2 (getAvailableMoves_empty_cells [row3 "X" "" ""])). exact H.
Defined.

Lemma minimax_is_extremum_of_children_witness :
  exists z,
    minimax 4 0 true "X" "O" scenarioA = Ok (Fin z) scenarioA /\
    extremum true
             (scoreAfter "X" (minimax 3 (0 + 1) (negb true) "X" "O") scenarioA)
             (filter (empty_at scenarioA) allCells) z /\
    forall m, In m (filter (empty_at scenarioA) allCells) ->
              minimax 3 (0 + 1) (negb true) "X" "O" (place m "X" scenarioA)
              = Ok (scoreAfter "X" (minimax 3 (0 + 1) (negb true) "X" "O")
                               scenarioA m)
                   (place m "X" scenarioA).
Proof.
  apply (minimax_is_extremum_of_children 3 0 true "X" "O" scenarioA).
  - exact scenarioA_is3x3.
  - discriminate.
  - discriminate.
  - reflexivity.
  - reflexivity.
  - vm_compute. lia.
Defined.

Lemma minimax_score_bounds_witness :
  minimax 4 0 true "X" "O" scenarioA = Ok (Fin 9) scenarioA /\
  exists z, Fin 9 = Fin z /\ -10 + 0 <= z <= 10 - 0.
Proof.
  assert (H : minimax 4 0 true "X" "O" scenarioA = Ok (Fin 9) scenarioA)
    by (vm_compute; reflexivity).
  split; [exact H |].
  apply (minimax_score_bounds 4 0 true "X" "O" scenarioA (Fin 9) scenarioA).
  - exact scenarioA_is3x3.
  - discriminate.
  - discriminate.
  - lia.
  - vm_compute. discriminate.
  - exact H.
Defined.

Lemma aiMove_marks_one_empty_cell_witness :
  exists m this',
    aiMove 3 aiToMove = Ok tt this' /\
    In m allCells /\ look (grid aiToMove) m = Some "" /\
    look (grid this') m = Some (aiSymbolOf aiToMove) /\
    (forall m', m' <> m -> look (grid this') m' = look (grid aiToMove) m') /\
    is3x3 (grid this') /\
    count_empty (grid aiToMove) = S (count_empty (grid this')).
Proof.
  apply (aiMove_marks_one_empty_cell 3 aiToMove).
  - exact scenarioA_is3x3.
  - reflexivity.
  - vm_compute. lia.
Defined.

Lemma makeMove_never_overwrites_witness :
  makeMove 0 0 0 centreTaken = Ok tt cornerTaken /\
  look (grid centreTaken) (1, 1) = Some "X" /\
  look (grid cornerTaken) (1, 1) = Some "X".
Proof.
  split; [exact cornerTaken_run |]. split; [reflexivity |].
  apply (makeMove_never_overwrites 0 0 0 centreTaken cornerTaken (1, 1) "X").
  - exact cornerTaken_run.
  - reflexivity.
  - discriminate.
Defined.

Lemma makeMove_status_matches_board_witness :
  accepted 2 0 xToMove = true /\
  ((exists p, gameStatus xHasWon = (p ++ " Wins!")%string) <->
   checkWin (grid xHasWon) = Val true).
Proof.
  split; [reflexivity |].
  apply (makeMove_status_matches_board 0 2 0 xToMove xHasWon).
  - reflexivity.
  - exact xHasWon_run.
Defined.

Lemma makeMove_winner_holds_the_line_witness :
  exists p,
    (p = "X" \/ p = "O") /\
    gameStatus xHasWon = (p ++ " Wins!")%string /\
    has_line (grid xHasWon) p /\ ~ has_line (grid xHasWon) (opponentOf p).
Proof.
  apply (makeMove_winner_holds_the_line 0 2 0 xToMove xHasWon).
  - exact scenarioA_rows3.
  - reflexivity.
  - left. reflexivity.
  - exact xHasWon_run.
  - reflexivity.
Defined.

Lemma moves_keep_the_setup_witness :
  same_setup centreTaken cornerTaken /\
  List.length (grid cornerTaken) = List.length (grid centreTaken).
Proof.
  destruct (moves_keep_the_setup 0 0 0 centreTaken cornerTaken)
    as (Hsetup & _ & Hlen & _).
  split.
  - apply Hsetup. reflexivity.
  - apply Hlen. exact cornerTaken_run.
Defined.

Lemma makeMove_keeps_3x3_witness :
  is3x3 (grid cornerTaken) /\
  (count_empty (grid cornerTaken) <= count_empty (grid centreTaken))%nat /\
  (accepted 0 0 centreTaken = true -> currentPlayer centreTaken <> "" ->
   (count_empty (grid cornerTaken) < count_empty (grid centreTaken))%nat).
Proof.
  apply (makeMove_keeps_3x3 0 0 0 centreTaken cornerTaken).
  - exact centreTaken_is3x3.
  - reflexivity.
  - reflexivity.
  - exact cornerTaken_run.
Defined.

Lemma makeMove_next_player_witness :
  currentPlayer cornerTaken =
  if String.eqb (gameMode centreTaken) "single"
  then selectedPlayer centreTaken
  else opponentOf (currentPlayer centreTaken).
Proof.
  apply (makeMove_next_player 0 0 0 centreTaken cornerTaken).
  - reflexivity.
  - exact cornerTaken_run.
  - reflexivity.
Defined.

Lemma startGame_result_witness :
  selectedPlayer humanO <> "" /\
  mkComponent emptyGrid "O" "Playing" "O" true "single"
  = mkComponent emptyGrid (selectedPlayer humanO) "Playing"
                (selectedPlayer humanO) true (gameMode humanO).
Proof.
  assert (H : selectedPlayer humanO <> "") by discriminate.
  split; [exact H |].
  apply (startGame_result 9 humanO _ H startGame_humanO).
Defined.

Lemma new_game_from_any_state_witness :
  "O" <> "" /\ (9 <= 9)%nat /\
  (resetPage ;; selectPlayer "O" ;; setGameMode "single" ;; startGame 9)%m
    xHasWon
  = Ok tt (mkComponent emptyGrid "O" "Playing" "O" true "single").
Proof.
  assert (H : "O" <> "") by discriminate.
  split; [exact H |]. split; [lia |].
  apply (new_game_from_any_state 9 xHasWon "O" "single" H). lia.
Defined.

Lemma makeMove_same_cell_again_witness :
  look (grid cornerTaken) (0, 0) = Some (currentPlayer centreTaken) /\
  makeMove 5 0 0 cornerTaken = Ok tt cornerTaken.
Proof.
  apply (makeMove_same_cell_again 0 5 0 0 centreTaken cornerTaken).
  - reflexivity.
  - discriminate.
  - exact cornerTaken_run.
Defined.

Lemma makeMove_two_humans_witness :
  (forall fuel', makeMove fuel' 0 0 centreTaken = Ok tt cornerTaken) /\
  look (grid cornerTaken) (0, 0) = Some (currentPlayer centreTaken) /\
  forall m, m <> (0, 0) ->
            look (grid cornerTaken) m = look (grid centreTaken) m.
Proof.
  apply (makeMove_two_humans 0 0 0 centreTaken cornerTaken).
  - discriminate.
  - reflexivity.
  - exact cornerTaken_run.
Defined.

Lemma getBestMove_takes_immediate_win_witness :
  exists m,
    getBestMove 3 "X" scenarioA = Ok m scenarioA /\
    In m allCells /\ empty_at scenarioA m = true /\
    checkWin (place m "X" scenarioA) = Val true /\
    has_line (place m "X" scenarioA) "X".
Proof.
  apply (getBestMove_takes_immediate_win 3 "X" scenarioA (2, 2)).
  - exact scenarioA_is3x3.
  - reflexivity.
  - left. reflexivity.
  - vm_compute. lia.
  - unfold allCells. simpl. tauto.
  - reflexivity.
  - reflexivity.
Defined.

Lemma getBestMove_parries_single_threat_witness :
  getBestMove 6 "O" scenarioB = Ok (0, 2) scenarioB.
Proof.
  apply (getBestMove_parries_single_threat 6 "O" scenarioB (0, 2)).
  - exact scenarioB_is3x3.
  - reflexivity.
  - right. reflexivity.
  - vm_compute. lia.
  - unfold allCells. simpl. tauto.
  - reflexivity.
  - intros m Hin He. unfold allCells in Hin. simpl in Hin.
    repeat (destruct Hin as [<- | Hin];
            [first [reflexivity | vm_compute in He; discriminate He] |]).
    contradiction.
  - reflexivity.
  - intros m Hin He Hne. unfold allCells in Hin. simpl in Hin.
    repeat (destruct Hin as [<- | Hin];
            [first [reflexivity | vm_compute in He; discriminate He
                   | exfalso; apply Hne; reflexivity] |]).
    contradiction.
Defined.

Lemma makeMove_returns_witness :
  exists this', makeMove 3 2 1 aiToMove = Ok tt this'.
Proof.
  apply (makeMove_returns 3 2 1 aiToMove).
  - exact scenarioA_is3x3.
  - reflexivity.
  - reflexivity.
  - vm_compute. lia.
Defined.

Lemma makeMove_column_outside_grid_witness :
  accepted 0 3 twoHumans = true /\
  look (grid (mkComponent [mkArr [Some ""; Some ""; Some ""; Some "X"] [];
                           emptyRow; emptyRow]
                          "O" "Playing" "X" true "multi")) (0, 3)
  = Some (currentPlayer twoHumans) /\
  ~ is3x3 (grid (mkComponent [mkArr [Some ""; Some ""; Some ""; Some "X"] [];
                              emptyRow; emptyRow]
                             "O" "Playing" "X" true "multi")).
Proof.
  apply (makeMove_column_outside_grid 0 0 3 twoHumans).
  - exact emptyGrid_is3x3.
  - reflexivity.
  - reflexivity.
  - lia.
  - reflexivity.
Defined.
